(** * Ledger core of the Paystack wallet service

    A shallow embedding of [WalletService] (wallet.service.ts) and of the
    webhook handler of [WalletController] (wallet.controller.ts), with the
    two tables of the Prisma schema as the state.

    Conventions of the embedding:
    - a finite JavaScript [number] is the rational it denotes ([Q]). The
      methods are embedded twice: first with exact arithmetic, for the
      properties in which numbers are only compared, stored or handed on;
      then, in [Module Rounded], with the four operations as a parameter,
      of which [binary64] is the arithmetic of JavaScript and of the
      DOUBLE PRECISION columns (the exact result rounded to the nearest
      double, ties to even). Infinities and NaN are outside the model;
    - [Date.now()], [Math.random()] and the answers of the payment gateway are
      inputs of the operation that reads them;
    - [async] methods run to completion one after the other: a method is a
      function from the database to a result and the database it leaves;
    - the columns [id], [createdAt] and [updatedAt], which none of the methods
      below reads, are left out of the rows. *)

From Stdlib Require Import String Ascii List ZArith NArith QArith Bool Lia Lqa.
From Stdlib Require Import DecimalString DecimalN SpecFloat.
Import ListNotations.

Local Open Scope string_scope.
Local Open Scope Q_scope.

(** ** Rows and tables (the CreateTable migration) *)

Record Wallet : Type := mkWallet
  { userId : string;          (* unique *)
    walletNumber : string;    (* unique *)
    balance : Q }.

Inductive TxType : Type := deposit | transfer_out | transfer_in.

Inductive TxStatus : Type := pending | success | failed.

(** The JSON [metadata] column, with the keys the service writes. *)
Record Metadata : Type := mkMetadata
  { md_to : option string;
    md_from : option string;
    idempotency_key : option string }.

Record Transaction : Type := mkTransaction
  { reference : string;       (* unique *)
    tx_userId : string;
    amount : Q;
    type : TxType;
    status : TxStatus;
    paystackReference : option string;
    gatewayResponse : option string;
    metadata : option Metadata;
    completedAt : option N }.

Record DB : Type := mkDB
  { wallets : list Wallet;
    transactions : list Transaction }.

Definition TxStatus_eqb (a b : TxStatus) : bool :=
  match a, b with
  | pending, pending | success, success | failed, failed => true
  | _, _ => false
  end.

(** ** What the platform provides

    Node's [crypto], the template-literal printing of a number and
    [JSON.parse] are library code; the service is verified for any
    implementation of them. [JSON_parse] stands for [JSON.parse] followed by
    the reading of [payload.event] and [payload.data]; [None] is a body that
    does not parse. *)

Record WebhookData : Type := mkWebhookData
  { wd_reference : string;
    wd_amount : Q;
    wd_status : string;
    wd_gateway_response : option string }.

Record WebhookPayload : Type := mkWebhookPayload
  { wp_event : string;
    wp_data : WebhookData }.

Class Platform : Type :=
  { sha256_hex : string -> string;
    hmac_sha512_hex : string -> string -> string;   (* key, then payload *)
    number_to_string : Q -> string;
    JSON_parse : string -> option WebhookPayload;
    (* schema.prisma is not among the sources: the value a Wallet row gets
       for [walletNumber] when [create] does not give one *)
    walletNumber_default : string }.

(** ** Exceptions *)

Inductive Exn : Type :=
  | BadRequestException (msg : string)
  | NotFoundException (msg : string)
  | PrismaError (code : string)       (* P2002 unique constraint, P2025 no record *)
  | AxiosError (http_status : option N)
  | SyntaxError.

(** ** The monad of service methods

    The database survives an exception (a write made before a [throw] stays
    written); [prisma_transaction] is [this.$transaction]: it restores the
    database it started from when its body throws. *)

Definition M (A : Type) : Type := DB -> (Exn + A) * DB.

Definition ret {A} (a : A) : M A := fun db => (inr a, db).

Definition throw {A} (e : Exn) : M A := fun db => (inl e, db).

Definition bind {A B} (m : M A) (k : A -> M B) : M B :=
  fun db =>
    match m db with
    | (inl e, db') => (inl e, db')
    | (inr a, db') => k a db'
    end.

Definition try_catch {A} (m : M A) (handler : Exn -> M A) : M A :=
  fun db =>
    match m db with
    | (inl e, db') => handler e db'
    | (inr a, db') => (inr a, db')
    end.

Definition prisma_transaction {A} (body : M A) : M A :=
  fun db =>
    match body db with
    | (inl e, _) => (inl e, db)
    | (inr a, db') => (inr a, db')
    end.

Declare Scope svc_scope.
Delimit Scope svc_scope with svc.
Notation "x <- m ;; k" := (bind m (fun x => k))
  (at level 61, m at next level, right associativity) : svc_scope.
Notation "m ;;; k" := (bind m (fun _ => k))
  (at level 61, right associativity) : svc_scope.
Local Open Scope svc_scope.

(** ** The Prisma client, one function per call shape the service uses

    A [where] clause is a predicate on rows. Rows keep their insertion order;
    [findUnique] and [findFirst] return the first row that matches, [update]
    rewrites it and raises P2025 when there is none, [create] raises P2002 on
    a unique index. *)

Fixpoint update_first {A} (p : A -> bool) (f : A -> A) (l : list A)
  : option (list A) :=
  match l with
  | [] => None
  | x :: rest =>
      if p x then Some (f x :: rest)
      else match update_first p f rest with
           | Some rest' => Some (x :: rest')
           | None => None
           end
  end.

Definition by_userId (u : string) (w : Wallet) : bool := String.eqb (userId w) u.

Definition by_walletNumber (n : string) (w : Wallet) : bool :=
  String.eqb (walletNumber w) n.

Definition by_reference (r : string) (t : Transaction) : bool :=
  String.eqb (reference t) r.

Definition wallet_findUnique (where_ : Wallet -> bool) : M (option Wallet) :=
  fun db => (inr (find where_ (wallets db)), db).

Definition wallet_create (w : Wallet) : M Wallet :=
  fun db =>
    if existsb (fun x => by_userId (userId w) x || by_walletNumber (walletNumber w) x)
               (wallets db)
    then (inl (PrismaError "P2002"), db)
    else (inr w, mkDB (wallets db ++ [w]) (transactions db)).

Definition wallet_update (where_ : Wallet -> bool) (data : Wallet -> Wallet) : M unit :=
  fun db =>
    match update_first where_ data (wallets db) with
    | Some ws => (inr tt, mkDB ws (transactions db))
    | None => (inl (PrismaError "P2025"), db)
    end.

Definition increment (x : Q) (w : Wallet) : Wallet :=
  mkWallet (userId w) (walletNumber w) (balance w + x).

Definition decrement (x : Q) (w : Wallet) : Wallet :=
  mkWallet (userId w) (walletNumber w) (balance w - x).

Definition wallet_upsert (where_ : Wallet -> bool) (create : Wallet)
  (update : Wallet -> Wallet) : M unit :=
  fun db =>
    match find where_ (wallets db) with
    | Some _ => wallet_update where_ update db
    | None => (wallet_create create ;;; ret tt) db
    end.

Definition transaction_findUnique (where_ : Transaction -> bool)
  : M (option Transaction) :=
  fun db => (inr (find where_ (transactions db)), db).

Definition transaction_findFirst (where_ : Transaction -> bool)
  : M (option Transaction) :=
  fun db => (inr (find where_ (transactions db)), db).

Definition transaction_create (t : Transaction) : M unit :=
  fun db =>
    if existsb (by_reference (reference t)) (transactions db)
    then (inl (PrismaError "P2002"), db)
    else (inr tt, mkDB (wallets db) (transactions db ++ [t])).

(** [createMany] is one INSERT statement: all the rows or none. *)
Fixpoint insert_all (rows : list Transaction) : M unit :=
  match rows with
  | [] => ret tt
  | t :: rest => transaction_create t ;;; insert_all rest
  end.

Definition transaction_createMany (rows : list Transaction) : M unit :=
  prisma_transaction (insert_all rows).

Definition transaction_update (where_ : Transaction -> bool)
  (data : Transaction -> Transaction) : M unit :=
  fun db =>
    match update_first where_ data (transactions db) with
    | Some ts => (inr tt, mkDB (wallets db) ts)
    | None => (inl (PrismaError "P2025"), db)
    end.

(** The [data] of the status updates: [status], [gatewayResponse] and
    [completedAt]. Prisma leaves a column alone when its value is
    [undefined], here [None]. *)
Definition settle (s : TxStatus) (gateway_response : option string) (now : N)
  (t : Transaction) : Transaction :=
  mkTransaction (reference t) (tx_userId t) (amount t) (type t) s
    (paystackReference t)
    (match gateway_response with
     | Some g => Some g
     | None => gatewayResponse t
     end)
    (metadata t) (Some now).

(** ** JavaScript strings *)

Definition string_of_N (n : N) : string := NilZero.string_of_uint (N.to_uint n).

(** [s.slice(-k)] *)
Definition slice_last (k : nat) (s : string) : string :=
  substring (String.length s - k) k s.

Fixpoint repeat_char (c : ascii) (n : nat) : string :=
  match n with
  | O => EmptyString
  | S n' => String c (repeat_char c n')
  end.

(** [s.padStart(k, c)] *)
Definition padStart (k : nat) (c : ascii) (s : string) : string :=
  repeat_char c (k - String.length s) ++ s.

(** [a || b] on strings: the empty string is falsy. *)
Definition or_else (a b : string) : string :=
  if String.eqb a "" then b else a.

(** ** The response envelope (common/utils/api-response.ts) *)

Record ApiResponse (T : Type) : Type := mkApiResponse
  { ar_success : bool;
    ar_message : string;
    ar_data : option T }.

Arguments mkApiResponse {T} _ _ _.
Arguments ar_success {T} _.
Arguments ar_message {T} _.
Arguments ar_data {T} _.

Definition buildSuccessResponse {T} (message : string) (data : T) : ApiResponse T :=
  mkApiResponse true message (Some data).

(** ** WalletService *)

Record AppConfig : Type := mkAppConfig
  { cfg_paystackSecretKey : string;
    cfg_paystackcallbackUrl : string }.

Record WalletService : Type := mkWalletService
  { paystackSecretKey : string;
    paystackWebhookSecret : string;
    appUrl : string }.

(** The constructor reads the webhook secret from the same configuration key
    as the API secret. *)
Definition new_WalletService (appConfig : AppConfig) : WalletService :=
  mkWalletService (cfg_paystackSecretKey appConfig)
                  (cfg_paystackSecretKey appConfig)
                  (cfg_paystackcallbackUrl appConfig).

Section Service.

Context {P : Platform}.
Variable this : WalletService.

(** *** Wallets *)

(** [now] is [Date.now()], [random100] is [Math.floor(Math.random() * 100)]. *)
Definition generateWalletNumber (now random100 : N) : string :=
  let timestamp := slice_last 10 (string_of_N now) in
  let random := padStart 2 "0"%char (string_of_N random100) in
  timestamp ++ random.

Definition maxAttempts : nat := 5.

(** The retry loop of [getOrCreateWallet]; [left] is [maxAttempts - attempts].
    It returns the last candidate and the final value of [attempts]. *)
Fixpoint pick_walletNumber (clock random : nat -> N) (left attempts : nat)
  (walletNumber : string) (ws : list Wallet) : string * nat :=
  match left with
  | O => (walletNumber, attempts)
  | S left' =>
      let walletNumber := generateWalletNumber (clock attempts) (random attempts) in
      match find (by_walletNumber walletNumber) ws with
      | None => (walletNumber, attempts)
      | Some _ => pick_walletNumber clock random left' (S attempts) walletNumber ws
      end
  end.

Definition getOrCreateWallet (userId : string) (clock random : nat -> N) : M Wallet :=
  wallet <- wallet_findUnique (by_userId userId) ;;
  match wallet with
  | Some wallet => ret wallet
  | None =>
      fun db =>
        let '(walletNumber, attempts) :=
          pick_walletNumber clock random maxAttempts 0 "" (wallets db) in
        if Nat.eqb attempts maxAttempts
        then throw (BadRequestException "Failed to generate unique wallet number") db
        else wallet_create (mkWallet userId walletNumber 0) db
  end.

(** *** Deposits *)

Record InitializeRequest : Type := mkInitializeRequest
  { rq_email : string;
    rq_amount : Q;
    rq_reference : string;
    rq_callback_url : string;
    rq_user_id : string }.

Record InitializeResponse : Type := mkInitializeResponse
  { rs_reference : string;
    rs_authorization_url : string;
    rs_access_code : string }.

(** The gateway, as [axios.post] sees it: an answer or a rejected promise. *)
Definition Gateway : Type := InitializeRequest -> Exn + InitializeResponse.

Definition deposit_reference (now : N) (userId : string) : string :=
  "dep_" ++ string_of_N now ++ "_" ++ userId.

Definition amountInKobo (amount : Q) : Q := amount * 100.

Definition initialize_request (userId : string) (amount : Q) (email : string)
  (now : N) : InitializeRequest :=
  mkInitializeRequest email (amountInKobo amount) (deposit_reference now userId)
    (appUrl this) userId.

Record DepositResult : Type := mkDepositResult
  { dr_reference : string;
    dr_authorization_url : string }.

Definition axios_post (gateway : Gateway) (rq : InitializeRequest)
  : M InitializeResponse :=
  fun db => (gateway rq, db).

Definition initiateDeposit (userId : string) (amount : Q) (email : string)
  (clock random : nat -> N) (now : N) (gateway : Gateway) : M DepositResult :=
  getOrCreateWallet userId clock random ;;;
  let reference := deposit_reference now userId in
  try_catch
    (response <- axios_post gateway (initialize_request userId amount email now) ;;
     transaction_create
       (mkTransaction reference userId amount deposit pending
          (Some (rs_access_code response)) None None None) ;;;
     ret (mkDepositResult (rs_reference response) (rs_authorization_url response)))
    (fun _ => throw (BadRequestException "Failed to initialize payment")).

(** *** Webhooks *)

Definition verifyPaystackSignature (payload signature : string) : bool :=
  let webhookSecret := or_else (paystackWebhookSecret this) (paystackSecretKey this) in
  let hash := hmac_sha512_hex webhookSecret payload in
  String.eqb hash signature.

Record WebhookResult : Type := mkWebhookResult
  { wr_status : bool;
    wr_message : option string }.

Definition is_terminal (s : TxStatus) : bool :=
  TxStatus_eqb s success || TxStatus_eqb s failed.

Definition handleWebhook (event : string) (data : WebhookData) (now : N)
  : M WebhookResult :=
  if negb (prefix "charge." event)
  then ret (mkWebhookResult true (Some "Event ignored"))
  else
    let reference := wd_reference data in
    transaction <- transaction_findUnique (by_reference reference) ;;
    match transaction with
    | None => throw (NotFoundException "Transaction not found")
    | Some transaction =>
        if is_terminal (status transaction)
        then ret (mkWebhookResult true (Some "Already processed"))
        else
          let isPaymentSuccessful :=
            String.eqb event "charge.success" && String.eqb (wd_status data) "success" in
          prisma_transaction
            (transaction_update (by_reference reference)
               (settle (if isPaymentSuccessful then success else failed)
                       (wd_gateway_response data) now) ;;;
             if isPaymentSuccessful
             then
               let amountInNaira := wd_amount data / 100 in
               wallet_upsert (by_userId (tx_userId transaction))
                 (mkWallet (tx_userId transaction) walletNumber_default amountInNaira)
                 (increment amountInNaira)
             else ret tt) ;;;
          ret (mkWebhookResult true None)
    end.

(** *** Verification polls *)

Record VerifyData : Type := mkVerifyData
  { vd_status : string;
    vd_amount : Q;
    vd_gateway_response : option string }.

Record VerifyResult : Type := mkVerifyResult
  { vr_reference : string;
    vr_status : TxStatus;
    vr_amount : Q;
    vr_paystackStatus : option string;
    vr_message : string }.

(** [axios.get]: the gateway's answer, or the error the promise rejects with. *)
Definition axios_get (reply : Exn + VerifyData) : M VerifyData :=
  fun db => (reply, db).

(** [error.response?.status === 404] *)
Definition is_http_404 (error : Exn) : bool :=
  match error with
  | AxiosError (Some code) => N.eqb code 404
  | _ => false
  end.

Definition verifyDepositWithPaystack (ref : string) (now : N)
  (reply : Exn + VerifyData) : M VerifyResult :=
  transaction <- transaction_findUnique (by_reference ref) ;;
  match transaction with
  | None => throw (NotFoundException "Transaction not found")
  | Some transaction =>
      try_catch
        (paystackData <- axios_get reply ;;
         let paystackStatus := vd_status paystackData in
         let paystackAmount := vd_amount paystackData / 100 in
         if TxStatus_eqb (status transaction) success
         then ret (mkVerifyResult (reference transaction) (status transaction)
                     (amount transaction) (Some paystackStatus)
                     "Transaction already processed")
         else if String.eqb paystackStatus "success"
         then
           prisma_transaction
             (transaction_update (by_reference ref)
                (settle success (vd_gateway_response paystackData) now) ;;;
              wallet_upsert (by_userId (tx_userId transaction))
                (mkWallet (tx_userId transaction) walletNumber_default paystackAmount)
                (increment paystackAmount)) ;;;
           ret (mkVerifyResult (reference transaction) success paystackAmount
                  (Some paystackStatus) "Payment verified and wallet credited")
         else
           transaction_update (by_reference ref)
             (settle failed
                (Some (match vd_gateway_response paystackData with
                       | Some g => or_else g "Payment not completed"
                       | None => "Payment not completed"
                       end))
                now) ;;;
           ret (mkVerifyResult (reference transaction) failed
                  (amount transaction) (Some paystackStatus) "Payment failed"))
        (fun error =>
           if is_http_404 error
           then
             transaction_update (by_reference ref)
               (settle failed (Some "Transaction abandoned or not completed") now) ;;;
             ret (mkVerifyResult ref failed (amount transaction) None
                    "Payment was abandoned")
           else
             ret (mkVerifyResult ref pending (amount transaction) None
                    "Unable to verify payment status. Please try again."))
  end.

(** *** Transfers *)

Definition transferData (fromUserId toWalletNumber : string) (amount : Q) : string :=
  fromUserId ++ "_" ++ toWalletNumber ++ "_" ++ number_to_string amount.

Definition idempotencyKey (fromUserId toWalletNumber : string) (amount : Q) : string :=
  "idf_" ++ substring 0 16 (sha256_hex (transferData fromUserId toWalletNumber amount)).

(** The [where] of the duplicate check: the metadata key and the status. *)
Definition completed_with_key (key : string) (t : Transaction) : bool :=
  match metadata t with
  | Some md =>
      match idempotency_key md with
      | Some k => String.eqb k key
      | None => false
      end
  | None => false
  end
  && TxStatus_eqb (status t) success.

Definition transfer_reference (timestamp : N) (userId : string) : string :=
  "txf_" ++ string_of_N timestamp ++ "_" ++ userId.

(** What the body of the atomic unit returns. *)
Inductive TransferOutcome : Type :=
  | isDuplicate (reference : string)
  | notDuplicate (senderReference recipientReference : string).

Record TransferResult : Type := mkTransferResult
  { tr_status : string;
    tr_message : string;
    tr_reference : string }.

Definition balance_and_userId (u : string) (b : Q) (w : Wallet) : bool :=
  by_userId u w && Qeq_bool (balance w) b.

Definition transfer_body (fromUserId toWalletNumber : string) (amount : Q) (now : N)
  (recipientWallet senderWallet : Wallet) : M TransferOutcome :=
  let idempotencyKey := idempotencyKey fromUserId toWalletNumber amount in
  existingTransfer <- transaction_findFirst (completed_with_key idempotencyKey) ;;
  match existingTransfer with
  | Some existingTransfer => ret (isDuplicate (reference existingTransfer))
  | None =>
      freshSenderWallet <- wallet_findUnique (by_userId fromUserId) ;;
      match freshSenderWallet with
      | None => throw (BadRequestException "Insufficient balance")
      | Some freshSenderWallet =>
          if QMicromega.Qlt_bool (balance freshSenderWallet) amount
          then throw (BadRequestException "Insufficient balance")
          else
            wallet_update (balance_and_userId fromUserId (balance freshSenderWallet))
              (decrement amount) ;;;
            wallet_update (by_walletNumber toWalletNumber) (increment amount) ;;;
            let timestamp := now in
            let senderReference := transfer_reference timestamp fromUserId in
            let recipientReference :=
              transfer_reference timestamp (userId recipientWallet) in
            transaction_createMany
              [ mkTransaction senderReference fromUserId (- amount) transfer_out success
                  None None
                  (Some (mkMetadata (Some toWalletNumber) None (Some idempotencyKey)))
                  None;
                mkTransaction recipientReference (userId recipientWallet) amount
                  transfer_in success None None
                  (Some (mkMetadata None (Some (walletNumber senderWallet))
                           (Some idempotencyKey)))
                  None ] ;;;
            ret (notDuplicate senderReference recipientReference)
      end
  end.

Definition transfer (fromUserId toWalletNumber : string) (amount : Q) (now : N)
  : M TransferResult :=
  if Qle_bool amount 0
  then throw (BadRequestException "Amount must be greater than zero")
  else
    recipientWallet <- wallet_findUnique (by_walletNumber toWalletNumber) ;;
    match recipientWallet with
    | None => throw (NotFoundException "Recipient wallet not found")
    | Some recipientWallet =>
        senderWallet <- wallet_findUnique (by_userId fromUserId) ;;
        match senderWallet with
        | None => throw (BadRequestException "Insufficient balance")
        | Some senderWallet =>
            if QMicromega.Qlt_bool (balance senderWallet) amount
            then throw (BadRequestException "Insufficient balance")
            else
              result <- prisma_transaction
                          (transfer_body fromUserId toWalletNumber amount now
                             recipientWallet senderWallet) ;;
              match result with
              | isDuplicate reference =>
                  ret (mkTransferResult "success" "Transfer already processed" reference)
              | notDuplicate senderReference _ =>
                  ret (mkTransferResult "success" "Transfer completed" senderReference)
              end
        end
    end.

(** *** The webhook endpoint (WalletController.paystackWebhook)

    [rawBody] is [req.rawBody?.toString('utf8')], [signature] the
    [x-paystack-signature] header; both may be absent. *)
Definition paystackWebhook (rawBody signature : option string) (now : N)
  : M (ApiResponse WebhookResult) :=
  match signature with
  | None => throw (BadRequestException "No signature header")
  | Some signature =>
      if String.eqb signature ""
      then throw (BadRequestException "No signature header")
      else
        let rawBody := match rawBody with Some b => or_else b "" | None => "" end in
        let isValid := verifyPaystackSignature rawBody signature in
        if negb isValid
        then throw (BadRequestException "Invalid signature")
        else
          match JSON_parse rawBody with
          | None => throw SyntaxError
          | Some payload =>
              result <- handleWebhook (wp_event payload) (wp_data payload) now ;;
              ret (buildSuccessResponse "Webhook processed successfully" result)
          end
  end.

(** *** Reads *)

Record DepositStatus : Type := mkDepositStatus
  { ds_reference : string;
    ds_status : TxStatus;
    ds_amount : Q }.

(** Verify deposit status manually (doesn't credit wallet). *)
Definition verifyDepositStatus (ref : string) : M DepositStatus :=
  transaction <- transaction_findUnique (by_reference ref) ;;
  match transaction with
  | None => throw (NotFoundException "Transaction not found")
  | Some transaction =>
      ret (mkDepositStatus (reference transaction) (status transaction)
             (amount transaction))
  end.

Record BalanceResult : Type := mkBalanceResult
  { br_balance : Q;
    br_wallet_number : string }.

Definition getBalance (userId : string) (clock random : nat -> N) : M BalanceResult :=
  wallet <- getOrCreateWallet userId clock random ;;
  ret (mkBalanceResult (balance wallet) (walletNumber wallet)).

(** *** The callback endpoint (WalletController.paystackCallback)

    [user] is what the guards attach to a request; the query parameter
    [reference] of the callback may be absent. *)

Record RequestUser : Type := mkRequestUser
  { ru_id : string;
    ru_email : string }.

Definition paystackCallback (query_reference : option string)
  : M (ApiResponse DepositStatus) :=
  match query_reference with
  | None => throw (BadRequestException "Missing reference parameter")
  | Some ref =>
      if String.eqb ref ""
      then throw (BadRequestException "Missing reference parameter")
      else
        status <- verifyDepositStatus ref ;;
        ret (buildSuccessResponse "Payment processed"
               (mkDepositStatus (ds_reference status) (ds_status status)
                  (ds_amount status)))
  end.

End Service.


(** * The arithmetic of numbers

    [Wallet.balance] and [Transaction.amount] are DOUBLE PRECISION columns
    and the amounts of the service are JavaScript numbers: binary64 both. An
    operation on two finite doubles returns the exact result rounded to the
    nearest double, ties to even. [round64] does that rounding with the
    functions of the Standard Library's specification of IEEE 754
    ([SpecFloat], precision 53 and maximal exponent 1024); a result beyond
    the finite range, which would be an infinity, is outside the model. *)

Class Arithmetic : Type :=
  { num_add : Q -> Q -> Q;
    num_sub : Q -> Q -> Q;
    num_mul : Q -> Q -> Q;
    num_div : Q -> Q -> Q }.

Definition exact_arithmetic : Arithmetic :=
  {| num_add := Qplus; num_sub := Qminus; num_mul := Qmult; num_div := Qdiv |}.

(** The rational a finite double denotes. *)
Definition SF2Q (x : spec_float) : Q :=
  match x with
  | S754_finite s m e =>
      let v := match e with
               | Z0 => Zpos m # 1
               | Zpos k => Zpos (m * Pos.pow 2 k) # 1
               | Zneg k => Zpos m # Pos.pow 2 k
               end in
      if s then - v else v
  | _ => 0
  end.

(** The double nearest to [n / d], with the sign [s]. *)
Definition round_quotient (s : bool) (n d : positive) : spec_float :=
  let '(m, e, l) := SFdiv_core_binary 53 1024 (Zpos n) 0 (Zpos d) 0 in
  binary_round_aux 53 1024 s m e l.

Definition round64 (q : Q) : Q :=
  match Qnum q with
  | Z0 => 0
  | Zpos n => SF2Q (round_quotient false n (Qden q))
  | Zneg n => SF2Q (round_quotient true n (Qden q))
  end.

Definition binary64 : Arithmetic :=
  {| num_add := fun a b => round64 (a + b);
     num_sub := fun a b => round64 (a - b);
     num_mul := fun a b => round64 (a * b);
     num_div := fun a b => round64 (a / b) |}.

(** * WalletService, with the arithmetic of its numbers

    The methods of the service that compute with amounts, embedded from the
    same source lines as above, for any arithmetic. Comparisons, the negation
    of an amount and the equality of the [where] clause are exact on doubles
    and stay as they are; so do the methods that do no arithmetic. *)

Module Rounded.

Section Service.

Context {P : Platform} {A : Arithmetic}.
Variable this : WalletService.

(** [{ increment: x }] and [{ decrement: x }] *)
Definition increment (x : Q) (w : Wallet) : Wallet :=
  mkWallet (userId w) (walletNumber w) (num_add (balance w) x).

Definition decrement (x : Q) (w : Wallet) : Wallet :=
  mkWallet (userId w) (walletNumber w) (num_sub (balance w) x).

(** *** Deposits *)

Definition amountInKobo (amount : Q) : Q := num_mul amount 100.

Definition initialize_request (userId : string) (amount : Q) (email : string)
  (now : N) : InitializeRequest :=
  mkInitializeRequest email (amountInKobo amount) (deposit_reference now userId)
    (appUrl this) userId.

Definition initiateDeposit (userId : string) (amount : Q) (email : string)
  (clock random : nat -> N) (now : N) (gateway : Gateway) : M DepositResult :=
  getOrCreateWallet userId clock random ;;;
  let reference := deposit_reference now userId in
  try_catch
    (response <- axios_post gateway (initialize_request userId amount email now) ;;
     transaction_create
       (mkTransaction reference userId amount deposit pending
          (Some (rs_access_code response)) None None None) ;;;
     ret (mkDepositResult (rs_reference response) (rs_authorization_url response)))
    (fun _ => throw (BadRequestException "Failed to initialize payment")).

(** *** Webhooks *)

Definition handleWebhook (event : string) (data : WebhookData) (now : N)
  : M WebhookResult :=
  if negb (prefix "charge." event)
  then ret (mkWebhookResult true (Some "Event ignored"))
  else
    let reference := wd_reference data in
    transaction <- transaction_findUnique (by_reference reference) ;;
    match transaction with
    | None => throw (NotFoundException "Transaction not found")
    | Some transaction =>
        if is_terminal (status transaction)
        then ret (mkWebhookResult true (Some "Already processed"))
        else
          let isPaymentSuccessful :=
            String.eqb event "charge.success" && String.eqb (wd_status data) "success" in
          prisma_transaction
            (transaction_update (by_reference reference)
               (settle (if isPaymentSuccessful then success else failed)
                       (wd_gateway_response data) now) ;;;
             if isPaymentSuccessful
             then
               let amountInNaira := num_div (wd_amount data) 100 in
               wallet_upsert (by_userId (tx_userId transaction))
                 (mkWallet (tx_userId transaction) walletNumber_default amountInNaira)
                 (increment amountInNaira)
             else ret tt) ;;;
          ret (mkWebhookResult true None)
    end.

(** *** Verification polls *)

Definition verifyDepositWithPaystack (ref : string) (now : N)
  (reply : Exn + VerifyData) : M VerifyResult :=
  transaction <- transaction_findUnique (by_reference ref) ;;
  match transaction with
  | None => throw (NotFoundException "Transaction not found")
  | Some transaction =>
      try_catch
        (paystackData <- axios_get reply ;;
         let paystackStatus := vd_status paystackData in
         let paystackAmount := num_div (vd_amount paystackData) 100 in
         if TxStatus_eqb (status transaction) success
         then ret (mkVerifyResult (reference transaction) (status transaction)
                     (amount transaction) (Some paystackStatus)
                     "Transaction already processed")
         else if String.eqb paystackStatus "success"
         then
           prisma_transaction
             (transaction_update (by_reference ref)
                (settle success (vd_gateway_response paystackData) now) ;;;
              wallet_upsert (by_userId (tx_userId transaction))
                (mkWallet (tx_userId transaction) walletNumber_default paystackAmount)
                (increment paystackAmount)) ;;;
           ret (mkVerifyResult (reference transaction) success paystackAmount
                  (Some paystackStatus) "Payment verified and wallet credited")
         else
           transaction_update (by_reference ref)
             (settle failed
                (Some (match vd_gateway_response paystackData with
                       | Some g => or_else g "Payment not completed"
                       | None => "Payment not completed"
                       end))
                now) ;;;
           ret (mkVerifyResult (reference transaction) failed
                  (amount transaction) (Some paystackStatus) "Payment failed"))
        (fun error =>
           if is_http_404 error
           then
             transaction_update (by_reference ref)
               (settle failed (Some "Transaction abandoned or not completed") now) ;;;
             ret (mkVerifyResult ref failed (amount transaction) None
                    "Payment was abandoned")
           else
             ret (mkVerifyResult ref pending (amount transaction) None
                    "Unable to verify payment status. Please try again."))
  end.

(** *** Transfers *)

Definition transfer_body (fromUserId toWalletNumber : string) (amount : Q) (now : N)
  (recipientWallet senderWallet : Wallet) : M TransferOutcome :=
  let idempotencyKey := idempotencyKey fromUserId toWalletNumber amount in
  existingTransfer <- transaction_findFirst (completed_with_key idempotencyKey) ;;
  match existingTransfer with
  | Some existingTransfer => ret (isDuplicate (reference existingTransfer))
  | None =>
      freshSenderWallet <- wallet_findUnique (by_userId fromUserId) ;;
      match freshSenderWallet with
      | None => throw (BadRequestException "Insufficient balance")
      | Some freshSenderWallet =>
          if QMicromega.Qlt_bool (balance freshSenderWallet) amount
          then throw (BadRequestException "Insufficient balance")
          else
            wallet_update (balance_and_userId fromUserId (balance freshSenderWallet))
              (decrement amount) ;;;
            wallet_update (by_walletNumber toWalletNumber) (increment amount) ;;;
            let timestamp := now in
            let senderReference := transfer_reference timestamp fromUserId in
            let recipientReference :=
              transfer_reference timestamp (userId recipientWallet) in
            transaction_createMany
              [ mkTransaction senderReference fromUserId (- amount) transfer_out success
                  None None
                  (Some (mkMetadata (Some toWalletNumber) None (Some idempotencyKey)))
                  None;
                mkTransaction recipientReference (userId recipientWallet) amount
                  transfer_in success None None
                  (Some (mkMetadata None (Some (walletNumber senderWallet))
                           (Some idempotencyKey)))
                  None ] ;;;
            ret (notDuplicate senderReference recipientReference)
      end
  end.

Definition transfer (fromUserId toWalletNumber : string) (amount : Q) (now : N)
  : M TransferResult :=
  if Qle_bool amount 0
  then throw (BadRequestException "Amount must be greater than zero")
  else
    recipientWallet <- wallet_findUnique (by_walletNumber toWalletNumber) ;;
    match recipientWallet with
    | None => throw (NotFoundException "Recipient wallet not found")
    | Some recipientWallet =>
        senderWallet <- wallet_findUnique (by_userId fromUserId) ;;
        match senderWallet with
        | None => throw (BadRequestException "Insufficient balance")
        | Some senderWallet =>
            if QMicromega.Qlt_bool (balance senderWallet) amount
            then throw (BadRequestException "Insufficient balance")
            else
              result <- prisma_transaction
                          (transfer_body fromUserId toWalletNumber amount now
                             recipientWallet senderWallet) ;;
              match result with
              | isDuplicate reference =>
                  ret (mkTransferResult "success" "Transfer already processed" reference)
              | notDuplicate senderReference _ =>
                  ret (mkTransferResult "success" "Transfer completed" senderReference)
              end
        end
    end.

(** *** The deposit endpoint (WalletController.deposit) *)

Definition controller_deposit (user : RequestUser) (dto_amount : Q)
  (clock random : nat -> N) (now : N) (gateway : Gateway)
  : M (ApiResponse DepositResult) :=
  result <- initiateDeposit (ru_id user) dto_amount (ru_email user) clock random now
              gateway ;;
  ret (buildSuccessResponse "Deposit initiated successfully" result).

End Service.

End Rounded.

(** * The application (main.ts)

    [bootstrap] creates the application with [NestFactory.create(AppModule)]
    and no options. Nest keeps the unparsed body of a request on
    [req.rawBody] only in an application created with the option
    [rawBody: true]; otherwise the property is undefined. *)

Record NestApplicationOptions : Type := mkNestApplicationOptions
  { opt_rawBody : bool }.

Definition bootstrap_options : NestApplicationOptions :=
  mkNestApplicationOptions false.

(** [req.rawBody] of a request whose body is [body]. *)
Definition req_rawBody (options : NestApplicationOptions) (body : string)
  : option string :=
  if opt_rawBody options then Some body else None.

(** POST wallet/paystack/webhook, as the application serves it. *)
Definition post_paystack_webhook {P : Platform} (this : WalletService)
  (body : string) (signature : option string) (now : N)
  : M (ApiResponse WebhookResult) :=
  paystackWebhook this (req_rawBody bootstrap_options body) signature now.

(** * API keys (api-key.guard.ts, api-key.service.ts)

    The guard in front of the wallet endpoints and the service that issues the
    keys share one table. Its schema is not among the sources: a row has the
    columns the code reads and writes. The two source versions of the guard
    differ only in how the row of a presented key is found: by its SHA-256
    digest, or by [bcrypt.compare] against each active row in turn. *)

Module Keys.

Record User : Type := mkUser
  { user_id : string;
    email : string }.

Record ApiKey : Type := mkApiKey
  { id : string;                 (* primary key *)
    name : string;
    keyHash : string;
    permissions : list string;
    expiresAt : option N;
    userId : string;
    isActive : bool;
    lastUsedAt : option N }.

Record Store : Type := mkStore
  { apiKeys : list ApiKey;
    users : list User }.

Inductive Exn : Type :=
  | BadRequestException (msg : string)
  | NotFoundException (msg : string)
  | ForbiddenException (msg : string)
  | Error (msg : string)
  | TypeError
  | PrismaError (code : string).

(** What the request carries once the guard has let it through. *)
Record AuthUser : Type := mkAuthUser
  { au_id : string;
    au_email : string;
    isApiKey : bool;
    apiKeyId : string }.

(** [bcrypt], the two helpers of common/utils/expiration_parse that the
    service imports (the file among the sources is another version of it), the
    list [VALID_PERMISSIONS] of the DTO, the schema's default for [isActive]
    and [Date.prototype.toISOString]. *)
Class Library : Type :=
  { bcrypt_hash : string -> string -> string;      (* data, then the salt drawn *)
    bcrypt_compare : string -> string -> bool;     (* data, then the stored hash *)
    isValidExpirationFormat : string -> bool;
    parseExpirationDate : string -> N -> N;        (* expiry, then the clock *)
    VALID_PERMISSIONS : list string;
    isActive_default : bool;
    toISOString : N -> string }.

Definition K (A : Type) : Type := Store -> (Exn + A) * Store.

Definition ret {A} (a : A) : K A := fun st => (inr a, st).

Definition throw {A} (e : Exn) : K A := fun st => (inl e, st).

Definition bind {A B} (m : K A) (k : A -> K B) : K B :=
  fun st =>
    match m st with
    | (inl e, st') => (inl e, st')
    | (inr a, st') => k a st'
    end.

Declare Scope keys_scope.
Delimit Scope keys_scope with keys.
Notation "x <- m ;; k" := (bind m (fun x => k))
  (at level 61, m at next level, right associativity) : keys_scope.
Notation "m ;;; k" := (bind m (fun _ => k))
  (at level 61, right associativity) : keys_scope.

Section Guard.

Local Open Scope keys_scope.
Context {P : Platform} {L : Library}.

Definition by_id (i : string) (k : ApiKey) : bool := String.eqb (id k) i.

Definition apiKey_findFirst (where_ : ApiKey -> bool) : K (option ApiKey) :=
  fun st => (inr (find where_ (apiKeys st)), st).

Definition apiKey_findMany (where_ : ApiKey -> bool) : K (list ApiKey) :=
  fun st => (inr (filter where_ (apiKeys st)), st).

Definition apiKey_count (where_ : ApiKey -> bool) : K nat :=
  fun st => (inr (length (filter where_ (apiKeys st))), st).

Definition apiKey_update (where_ : ApiKey -> bool) (data : ApiKey -> ApiKey) : K unit :=
  fun st =>
    match update_first where_ data (apiKeys st) with
    | Some ks => (inr tt, mkStore ks (users st))
    | None => (inl (PrismaError "P2025"), st)
    end.

Definition apiKey_create (k : ApiKey) : K ApiKey :=
  fun st =>
    if existsb (by_id (id k)) (apiKeys st)
    then (inl (PrismaError "P2002"), st)
    else (inr k, mkStore (apiKeys st ++ [k]) (users st)).

(** [include: { user: true }] *)
Definition user_of (k : ApiKey) (st : Store) : option User :=
  find (fun u => String.eqb (user_id u) (userId k)) (users st).

Definition set_lastUsedAt (now : N) (k : ApiKey) : ApiKey :=
  mkApiKey (id k) (name k) (keyHash k) (permissions k) (expiresAt k) (userId k)
    (isActive k) (Some now).

(** [new Date() > apiKeyRecord.expiresAt], for a row that has an expiry *)
Definition has_expired (now : N) (k : ApiKey) : bool :=
  match expiresAt k with
  | Some e => N.ltb e now
  | None => false
  end.

Definition includes (l : list string) (p : string) : bool :=
  existsb (String.eqb p) l.

(** [canActivate] from the point where the row was looked up. [appConfig]
    tells whether the configuration is there; [now] and [now'] are the two
    readings of the clock. *)
Definition check_key_record (apiKeyRecord : option ApiKey)
  (requiredPermissions : option (list string)) (appConfig : bool) (now now' : N)
  : K AuthUser :=
  match apiKeyRecord with
  | None => throw (ForbiddenException "Invalid API key")
  | Some apiKeyRecord =>
      if has_expired now apiKeyRecord
      then throw (BadRequestException "API key has expired")
      else if negb appConfig
      then throw (Error "App configuration not found")
      else if match requiredPermissions with
              | Some (p :: ps) =>
                  negb (forallb (includes (permissions apiKeyRecord)) (p :: ps))
              | _ => false
              end
      then throw (ForbiddenException "Insufficient permissions")
      else
        apiKey_update (by_id (id apiKeyRecord)) (set_lastUsedAt now') ;;;
        fun st =>
          match user_of apiKeyRecord st with
          | None => throw TypeError st
          | Some user =>
              ret (mkAuthUser (userId apiKeyRecord) (email user) true
                     (id apiKeyRecord)) st
          end
  end.

(** The guard that looks the key up by its digest. *)
Definition canActivate_sha256 (requiredPermissions : option (list string))
  (header : option string) (appConfig : bool) (now now' : N) : K AuthUser :=
  match header with
  | None => throw (ForbiddenException "API key is required for this endpoint")
  | Some apiKey =>
      if String.eqb apiKey ""
      then throw (ForbiddenException "API key is required for this endpoint")
      else
        apiKeyRecord <- apiKey_findFirst
                          (fun k => String.eqb (keyHash k) (sha256_hex apiKey)
                                    && isActive k) ;;
        check_key_record apiKeyRecord requiredPermissions appConfig now now'
  end.

(** The guard that compares the key with every active row; the loop stops at
    the first match. *)
Definition canActivate_bcrypt (requiredPermissions : option (list string))
  (header : option string) (appConfig : bool) (now now' : N) : K AuthUser :=
  match header with
  | None => throw (ForbiddenException "API key is required for this endpoint")
  | Some apiKey =>
      if String.eqb apiKey ""
      then throw (ForbiddenException "API key is required for this endpoint")
      else
        allApiKeys <- apiKey_findMany isActive ;;
        let apiKeyRecord :=
          find (fun key => bcrypt_compare apiKey (keyHash key)) allApiKeys in
        check_key_record apiKeyRecord requiredPermissions appConfig now now'
  end.

End Guard.

(** ** ApiKeyService

    The environment hands in what the code draws: the readings of the clock,
    the hexadecimal form of [crypto.randomBytes(32)], the salt of
    [bcrypt.hash] and the primary key the database gives the new row. *)

Section Issuing.

Local Open Scope keys_scope.
Context {L : Library}.

Record CreateApiKeyDto : Type := mkCreateApiKeyDto
  { dto_name : string;
    dto_permissions : option (list string);
    dto_expiry : string }.

Record RolloverApiKeyDto : Type := mkRolloverApiKeyDto
  { expired_key_id : string;
    ro_expiry : string }.

Record IssuedKey : Type := mkIssuedKey
  { api_key : string;
    expires_at : string }.

Definition generateApiKey (randomHex : string) : string :=
  "sk_live_" ++ randomHex.

(** [where: { userId, isActive: true, expiresAt: { gt: new Date() } }] *)
Definition live (u : string) (now : N) (k : ApiKey) : bool :=
  String.eqb (userId k) u && isActive k
  && match expiresAt k with
     | Some e => N.ltb now e
     | None => false
     end.

(** [where: { id, userId }] *)
Definition by_id_and_userId (i u : string) (k : ApiKey) : bool :=
  String.eqb (id k) i && String.eqb (userId k) u.

Definition invalid_permissions (perms : list string) : list string :=
  filter (fun permission => negb (includes VALID_PERMISSIONS permission)) perms.

Definition create (dto : CreateApiKeyDto) (u : string)
  (now now' : N) (randomHex salt newId : string) : K (ApiResponse IssuedKey) :=
  if negb (isValidExpirationFormat (dto_expiry dto))
  then throw (BadRequestException
                "Invalid expiry format. Must be one of: 1H, 1D, 1M, 1Y")
  else
    match dto_permissions dto with
    | None | Some [] =>
        throw (BadRequestException "Permissions must be explicitly assigned")
    | Some perms =>
        match invalid_permissions perms with
        | _ :: _ as invalidPermissions =>
            throw (BadRequestException
                     ("Invalid permissions: "
                      ++ String.concat ", " invalidPermissions
                      ++ ". Valid permissions are: "
                      ++ String.concat ", " VALID_PERMISSIONS))
        | [] =>
            activeKeysCount <- apiKey_count (live u now) ;;
            if (5 <=? activeKeysCount)%nat
            then throw (ForbiddenException
                          "Maximum 5 active API keys allowed per user")
            else
              let apiKey := generateApiKey randomHex in
              let keyHash := bcrypt_hash apiKey salt in
              let expiresAt := parseExpirationDate (dto_expiry dto) now' in
              apiKey_create
                (mkApiKey newId (dto_name dto) keyHash perms (Some expiresAt) u
                   isActive_default None) ;;;
              ret (buildSuccessResponse "API key created successfully"
                     (mkIssuedKey apiKey (toISOString expiresAt)))
        end
    end.

Definition rollover (dto : RolloverApiKeyDto) (u : string)
  (now0 now now' : N) (randomHex salt newId : string)
  : K (ApiResponse IssuedKey) :=
  if negb (isValidExpirationFormat (ro_expiry dto))
  then throw (BadRequestException
                "Invalid expiry format. Must be one of: 1H, 1D, 1M, 1Y")
  else
    expiredKey <- apiKey_findFirst (by_id_and_userId (expired_key_id dto) u) ;;
    match expiredKey with
    | None =>
        throw (NotFoundException
                 "API key not found or does not belong to this user")
    | Some expiredKey =>
        if match expiresAt expiredKey with
           | Some e => N.ltb now0 e
           | None => false
           end
        then throw (BadRequestException "API key has not expired yet")
        else
          activeKeysCount <- apiKey_count (live u now) ;;
          if (5 <=? activeKeysCount)%nat
          then throw (ForbiddenException
                        "Maximum 5 active API keys allowed per user")
          else
            let apiKey := generateApiKey randomHex in
            let keyHash := bcrypt_hash apiKey salt in
            let expiresAt := parseExpirationDate (ro_expiry dto) now' in
            match permissions expiredKey with
            | [] =>
                throw (BadRequestException
                         "Expired key has no permissions to rollover")
            | _ :: _ =>
                match invalid_permissions (permissions expiredKey) with
                | _ :: _ as invalidPermissions =>
                    throw (BadRequestException
                             ("Expired key contains invalid permissions: "
                              ++ String.concat ", " invalidPermissions
                              ++ ". Cannot rollover."))
                | [] =>
                    apiKey_create
                      (mkApiKey newId (name expiredKey) keyHash
                         (permissions expiredKey) (Some expiresAt) u
                         isActive_default None) ;;;
                    ret (buildSuccessResponse "API key rollover successful"
                           (mkIssuedKey apiKey (toISOString expiresAt)))
                end
            end
    end.

Definition set_isActive (b : bool) (k : ApiKey) : ApiKey :=
  mkApiKey (id k) (name k) (keyHash k) (permissions k) (expiresAt k) (userId k)
    b (lastUsedAt k).

Definition remove (i u : string) : K string :=
  apiKey <- apiKey_findFirst (by_id_and_userId i u) ;;
  match apiKey with
  | None => throw (NotFoundException "API key not found")
  | Some _ =>
      apiKey_update (by_id i) (set_isActive false) ;;;
      ret "API key deactivated successfully"
  end.

End Issuing.

End Keys.

(** * Vocabulary of the properties *)

Definition insufficient_balance : Exn := BadRequestException "Insufficient balance".

(** The two rows a completed transfer appends. *)
Definition transfer_out_row {P : Platform} (fromUserId toWalletNumber : string)
  (amount : Q) (now : N) : Transaction :=
  mkTransaction (transfer_reference now fromUserId) fromUserId (- amount)
    transfer_out success None None
    (Some (mkMetadata (Some toWalletNumber) None
             (Some (idempotencyKey fromUserId toWalletNumber amount))))
    None.

Definition transfer_in_row {P : Platform} (fromUserId toWalletNumber : string)
  (amount : Q) (now : N) (recipientWallet senderWallet : Wallet) : Transaction :=
  mkTransaction (transfer_reference now (userId recipientWallet))
    (userId recipientWallet) amount transfer_in success None None
    (Some (mkMetadata None (Some (walletNumber senderWallet))
             (Some (idempotencyKey fromUserId toWalletNumber amount))))
    None.

Definition transfer_completed (reference : string) : TransferResult :=
  mkTransferResult "success" "Transfer completed" reference.

Definition transfer_already_processed (reference : string) : TransferResult :=
  mkTransferResult "success" "Transfer already processed" reference.

Definition unique_violation : Exn := PrismaError "P2002".

(** Why a call of [transfer] throws, in the order of the checks. *)
Inductive transfer_rejection {P : Platform} (fromUserId toWalletNumber : string)
  (amount : Q) (now : N) (db : DB) : Exn -> Prop :=
  | rej_amount :
      amount <= 0 ->
      transfer_rejection fromUserId toWalletNumber amount now db
        (BadRequestException "Amount must be greater than zero")
  | rej_recipient :
      0 < amount ->
      find (by_walletNumber toWalletNumber) (wallets db) = None ->
      transfer_rejection fromUserId toWalletNumber amount now db
        (NotFoundException "Recipient wallet not found")
  | rej_no_sender (Y : Wallet) :
      0 < amount ->
      find (by_walletNumber toWalletNumber) (wallets db) = Some Y ->
      find (by_userId fromUserId) (wallets db) = None ->
      transfer_rejection fromUserId toWalletNumber amount now db insufficient_balance
  | rej_balance (X Y : Wallet) :
      0 < amount ->
      find (by_walletNumber toWalletNumber) (wallets db) = Some Y ->
      find (by_userId fromUserId) (wallets db) = Some X ->
      balance X < amount ->
      transfer_rejection fromUserId toWalletNumber amount now db insufficient_balance
  | rej_reference (X Y : Wallet) :
      0 < amount ->
      find (by_walletNumber toWalletNumber) (wallets db) = Some Y ->
      find (by_userId fromUserId) (wallets db) = Some X ->
      amount <= balance X ->
      find (completed_with_key (idempotencyKey fromUserId toWalletNumber amount))
           (transactions db) = None ->
      userId Y = fromUserId
      \/ find (by_reference (transfer_reference now fromUserId)) (transactions db)
         <> None
      \/ find (by_reference (transfer_reference now (userId Y))) (transactions db)
         <> None ->
      transfer_rejection fromUserId toWalletNumber amount now db unique_violation.

(** What a call of [transfer] can do to the database: nothing and an
    exception, nothing and the reference of an earlier transfer, or the whole
    of a transfer. *)
Inductive transfer_run {P : Platform} (fromUserId toWalletNumber : string)
  (amount : Q) (now : N) (db : DB) : (Exn + TransferResult) * DB -> Prop :=
  | run_rejected (e : Exn) :
      transfer_rejection fromUserId toWalletNumber amount now db e ->
      transfer_run fromUserId toWalletNumber amount now db (inl e, db)
  | run_duplicate (X Y : Wallet) (t : Transaction) :
      find (by_userId fromUserId) (wallets db) = Some X ->
      find (by_walletNumber toWalletNumber) (wallets db) = Some Y ->
      0 < amount -> amount <= balance X ->
      find (completed_with_key (idempotencyKey fromUserId toWalletNumber amount))
           (transactions db) = Some t ->
      transfer_run fromUserId toWalletNumber amount now db
        (inr (transfer_already_processed (reference t)), db)
  | run_completed (X Y : Wallet) (ws1 ws2 : list Wallet) :
      find (by_userId fromUserId) (wallets db) = Some X ->
      find (by_walletNumber toWalletNumber) (wallets db) = Some Y ->
      0 < amount -> amount <= balance X ->
      find (completed_with_key (idempotencyKey fromUserId toWalletNumber amount))
           (transactions db) = None ->
      userId Y <> fromUserId ->
      update_first (by_userId fromUserId) (decrement amount) (wallets db) = Some ws1 ->
      update_first (by_walletNumber toWalletNumber) (increment amount) ws1 = Some ws2 ->
      find (by_reference (transfer_reference now fromUserId)) (transactions db) = None ->
      find (by_reference (transfer_reference now (userId Y))) (transactions db) = None ->
      transfer_run fromUserId toWalletNumber amount now db
        (inr (transfer_completed (transfer_reference now fromUserId)),
         mkDB ws2
           (transactions db ++
              [ transfer_out_row fromUserId toWalletNumber amount now;
                transfer_in_row fromUserId toWalletNumber amount now Y X ])).

(** ** Data to run the service on

    A platform whose hash functions are stand-ins (no property below depends
    on what they compute), a service instance and a small ledger: user u1
    holds 100, user u2 holds nothing. *)

Definition demo_platform : Platform :=
  {| sha256_hex := fun s => s;
     hmac_sha512_hex := fun key payload => key ++ ":" ++ payload;
     number_to_string :=
       fun q => string_of_N (Z.to_N (Qnum q)) ++ "/" ++ string_of_N (Npos (Qden q));
     JSON_parse := fun _ => None;
     walletNumber_default := "" |}.

Definition demo_service : WalletService :=
  new_WalletService (mkAppConfig "sk_test" "https://app.example/callback").

Definition u1_wallet : Wallet := mkWallet "u1" "1000000001" 100.
Definition u2_wallet : Wallet := mkWallet "u2" "1000000002" 0.

Definition demo_db : DB := mkDB [u1_wallet; u2_wallet] [].

Definition demo_transfer : (Exn + TransferResult) * DB :=
  transfer (P := demo_platform) "u1" "1000000002" 40 3000 demo_db.

(** u1 sends to the number of u1's own wallet. *)
Definition demo_self_transfer : (Exn + TransferResult) * DB :=
  transfer (P := demo_platform) "u1" "1000000001" 40 3000 demo_db.

(** ** Operations and executions

    The calls that write to the database, with the inputs the environment
    supplies ([getBalance] and [getWalletDetails] write through
    [getOrCreateWallet]). *)

Inductive Op : Type :=
  | op_getOrCreateWallet (userId : string) (clock random : nat -> N)
  | op_initiateDeposit (userId : string) (amount : Q) (email : string)
      (clock random : nat -> N) (now : N) (gateway : Gateway)
  | op_handleWebhook (event : string) (data : WebhookData) (now : N)
  | op_verifyDepositWithPaystack (ref : string) (now : N) (reply : Exn + VerifyData)
  | op_transfer (fromUserId toWalletNumber : string) (amount : Q) (now : N).

Definition run_op {P : Platform} (this : WalletService) (op : Op) (db : DB) : DB :=
  match op with
  | op_getOrCreateWallet u clock random => snd (getOrCreateWallet u clock random db)
  | op_initiateDeposit u a email clock random now gateway =>
      snd (initiateDeposit this u a email clock random now gateway db)
  | op_handleWebhook event data now => snd (handleWebhook event data now db)
  | op_verifyDepositWithPaystack ref now reply =>
      snd (verifyDepositWithPaystack ref now reply db)
  | op_transfer from to a now => snd (transfer from to a now db)
  end.

Definition run_ops {P : Platform} (this : WalletService) (ops : list Op) (db : DB)
  : DB :=
  fold_left (fun db op => run_op this op db) ops db.

(** The wallet invariant. *)
Definition balances_nonneg (db : DB) : Prop :=
  Forall (fun w => 0 <= balance w) (wallets db).

(** The amount the gateway reports to an operation, if it reports one, is not
    negative. *)
Definition gateway_amount_nonneg (op : Op) : Prop :=
  match op with
  | op_handleWebhook _ data _ => 0 <= wd_amount data
  | op_verifyDepositWithPaystack _ _ (inr data) => 0 <= vd_amount data
  | _ => True
  end.

(** u1 has a deposit of 50 under way. *)
Definition pending_deposit : Transaction :=
  mkTransaction "dep_1000_u1" "u1" 50 deposit pending (Some "access") None None None.

Definition demo_pending_db : DB := mkDB [u1_wallet; u2_wallet] [pending_deposit].

(** A [charge.success] event whose amount is negative. *)
Definition negative_charge : WebhookData :=
  mkWebhookData "dep_1000_u1" (-20000) "success" None.

(** The gateway confirms the deposit of 50 (5000 kobo), then u1 sends 40. *)
Definition demo_ops : list Op :=
  [ op_handleWebhook "charge.success"
      (mkWebhookData "dep_1000_u1" 5000 "success" (Some "Approved")) 2000;
    op_transfer "u1" "1000000002" 40 3000 ].

(** ** Vocabulary of the webhook endpoint *)

(** The body the controller hashes and then parses: the raw request body as
    it arrived, the empty string when there is none. *)
Definition raw_body (rawBody : option string) : string :=
  match rawBody with
  | Some b => b
  | None => ""
  end.

Definition webhookSecret (this : WalletService) : string :=
  or_else (paystackWebhookSecret this) (paystackSecretKey this).

(** ** Data for the deposit scenarios *)

Definition empty_db : DB := mkDB [] [].

(** A gateway that does not answer (the request times out). *)
Definition failing_gateway : Gateway := fun _ => inl (AxiosError None).

Definition answering_gateway : Gateway :=
  fun rq => inr (mkInitializeResponse (rq_reference rq) "https://checkout.example/x" "access").

Definition demo_clock : nat -> N := fun _ => 1700000000123%N.
Definition demo_random : nat -> N := fun _ => 7%N.

Definition demo_failed_deposit : (Exn + DepositResult) * DB :=
  initiateDeposit demo_service "u1" 5000 "u1@example.com" demo_clock demo_random 1000
    failing_gateway empty_db.


(** ** Runs of the two settlement paths *)

Definition status_of (r : string) (db : DB) : option TxStatus :=
  option_map status (find (by_reference r) (transactions db)).

(** The wallets after [upsert] credited user [u] with [a]. *)
Definition credited {P : Platform} (u : string) (a : Q) (ws ws' : list Wallet) : Prop :=
  update_first (by_userId u) (increment a) ws = Some ws'
  \/ (find (by_userId u) ws = None
      /\ ws' = (ws ++ [mkWallet u walletNumber_default a])%list).

Inductive webhook_run {P : Platform} (event : string) (data : WebhookData) (now : N)
  (db : DB) : (Exn + WebhookResult) * DB -> Prop :=
  | wh_ignored :
      prefix "charge." event = false ->
      webhook_run event data now db
        (inr (mkWebhookResult true (Some "Event ignored")), db)
  | wh_unknown :
      prefix "charge." event = true ->
      find (by_reference (wd_reference data)) (transactions db) = None ->
      webhook_run event data now db
        (inl (NotFoundException "Transaction not found"), db)
  | wh_already (t : Transaction) :
      prefix "charge." event = true ->
      find (by_reference (wd_reference data)) (transactions db) = Some t ->
      status t <> pending ->
      webhook_run event data now db
        (inr (mkWebhookResult true (Some "Already processed")), db)
  | wh_settled_failed (t : Transaction) (ts' : list Transaction) :
      prefix "charge." event = true ->
      find (by_reference (wd_reference data)) (transactions db) = Some t ->
      status t = pending ->
      event <> "charge.success" \/ wd_status data <> "success" ->
      update_first (by_reference (wd_reference data))
        (settle failed (wd_gateway_response data) now) (transactions db) = Some ts' ->
      webhook_run event data now db
        (inr (mkWebhookResult true None), mkDB (wallets db) ts')
  | wh_settled_success (t : Transaction) (ts' : list Transaction) (ws' : list Wallet) :
      find (by_reference (wd_reference data)) (transactions db) = Some t ->
      status t = pending ->
      event = "charge.success" -> wd_status data = "success" ->
      update_first (by_reference (wd_reference data))
        (settle success (wd_gateway_response data) now) (transactions db) = Some ts' ->
      credited (tx_userId t) (wd_amount data / 100) (wallets db) ws' ->
      webhook_run event data now db (inr (mkWebhookResult true None), mkDB ws' ts')
  | wh_rolled_back (t : Transaction) :
      find (by_reference (wd_reference data)) (transactions db) = Some t ->
      status t = pending ->
      event = "charge.success" -> wd_status data = "success" ->
      find (by_userId (tx_userId t)) (wallets db) = None ->
      webhook_run event data now db (inl unique_violation, db).

Definition payment_not_completed (gateway_response : option string) : string :=
  match gateway_response with
  | Some g => or_else g "Payment not completed"
  | None => "Payment not completed"
  end.

Definition try_again (ref : string) (t : Transaction) : VerifyResult :=
  mkVerifyResult ref pending (amount t) None
    "Unable to verify payment status. Please try again.".

Inductive poll_run {P : Platform} (ref : string) (now : N) (db : DB)
  : Exn + VerifyData -> (Exn + VerifyResult) * DB -> Prop :=
  | poll_unknown reply :
      find (by_reference ref) (transactions db) = None ->
      poll_run ref now db reply (inl (NotFoundException "Transaction not found"), db)
  | poll_already (t : Transaction) (data : VerifyData) :
      find (by_reference ref) (transactions db) = Some t ->
      status t = success ->
      poll_run ref now db (inr data)
        (inr (mkVerifyResult (reference t) success (amount t) (Some (vd_status data))
                "Transaction already processed"), db)
  | poll_success (t : Transaction) (data : VerifyData) (ts' : list Transaction)
      (ws' : list Wallet) :
      find (by_reference ref) (transactions db) = Some t ->
      status t <> success ->
      vd_status data = "success" ->
      update_first (by_reference ref)
        (settle success (vd_gateway_response data) now) (transactions db) = Some ts' ->
      credited (tx_userId t) (vd_amount data / 100) (wallets db) ws' ->
      poll_run ref now db (inr data)
        (inr (mkVerifyResult (reference t) success (vd_amount data / 100)
                (Some (vd_status data)) "Payment verified and wallet credited"),
         mkDB ws' ts')
  | poll_rolled_back (t : Transaction) (data : VerifyData) :
      find (by_reference ref) (transactions db) = Some t ->
      status t <> success ->
      vd_status data = "success" ->
      find (by_userId (tx_userId t)) (wallets db) = None ->
      poll_run ref now db (inr data) (inr (try_again ref t), db)
  | poll_failed (t : Transaction) (data : VerifyData) (ts' : list Transaction) :
      find (by_reference ref) (transactions db) = Some t ->
      status t <> success ->
      vd_status data <> "success" ->
      update_first (by_reference ref)
        (settle failed (Some (payment_not_completed (vd_gateway_response data))) now)
        (transactions db) = Some ts' ->
      poll_run ref now db (inr data)
        (inr (mkVerifyResult (reference t) failed (amount t) (Some (vd_status data))
                "Payment failed"),
         mkDB (wallets db) ts')
  | poll_abandoned (t : Transaction) (e : Exn) (ts' : list Transaction) :
      find (by_reference ref) (transactions db) = Some t ->
      is_http_404 e = true ->
      update_first (by_reference ref)
        (settle failed (Some "Transaction abandoned or not completed") now)
        (transactions db) = Some ts' ->
      poll_run ref now db (inl e)
        (inr (mkVerifyResult ref failed (amount t) None "Payment was abandoned"),
         mkDB (wallets db) ts')
  | poll_unavailable (t : Transaction) (e : Exn) :
      find (by_reference ref) (transactions db) = Some t ->
      is_http_404 e = false ->
      poll_run ref now db (inl e) (inr (try_again ref t), db).

(** The deposit of u1 was marked failed; the gateway now reports it paid. *)
Definition failed_deposit : Transaction :=
  mkTransaction "dep_1000_u1" "u1" 50 deposit failed (Some "access")
    (Some "Payment not completed") None (Some 1500%N).

Definition demo_failed_db : DB := mkDB [u1_wallet; u2_wallet] [failed_deposit].

Definition paid_5000_kobo : VerifyData := mkVerifyData "success" 5000 (Some "Approved").

Definition approved_5000_kobo : WebhookData :=
  mkWebhookData "dep_1000_u1" 5000 "success" (Some "Approved").

(** The pending deposit of u1 after the gateway's [charge.success]. *)
Definition demo_settled_db : DB :=
  snd (handleWebhook (P := demo_platform) "charge.success" approved_5000_kobo 2000
         demo_pending_db).

(** ** Vocabulary of the duplicate check *)

(** Some successful row carries the key. *)
Definition has_completed (key : string) (db : DB) : Prop :=
  find (completed_with_key key) (transactions db) <> None.

(** Every operation but a verification poll that the gateway answers with
    404 (that one rewrites the status of the row it names to [failed]). *)
Definition keeps_settled (op : Op) : Prop :=
  match op with
  | op_verifyDepositWithPaystack _ _ (inl e) => is_http_404 e = false
  | _ => True
  end.

(** u1 sends 60 of the 100 to u2. *)
Definition demo_transfer_60 {P : Platform} : (Exn + TransferResult) * DB :=
  transfer "u1" "1000000002" 60 3000 demo_db.

(** u1 sends 40, u2 opens a deposit that the gateway confirms, u1 looks up
    the wallet. *)
Definition demo_later_ops : list Op :=
  [ op_initiateDeposit "u2" 10 "u2@example.com" demo_clock demo_random 5000
      answering_gateway;
    op_handleWebhook "charge.success"
      (mkWebhookData "dep_5000_u2" 1000 "success" None) 6000;
    op_getOrCreateWallet "u1" demo_clock demo_random ].

(** ** Vocabulary of the further properties *)

(** The [k]-th wallet number the retry loop tries. *)
Definition candidate (clock random : nat -> N) (k : nat) : string :=
  generateWalletNumber (clock k) (random k).

Definition taken (ws : list Wallet) (n : string) : Prop :=
  find (by_walletNumber n) ws <> None.

(** u2 asks for a wallet while the first two numbers the clock yields are
    those of u1 and u2 in [crowded_db]. *)
Definition crowded_db : DB :=
  mkDB [mkWallet "u1" "000000000107" 0; mkWallet "u3" "000000000207" 0] [].

Definition crowded_clock : nat -> N := fun k => (1700000000001 + N.of_nat k)%N.

(** The unique indexes of the two tables. *)
Definition unique_wallets (ws : list Wallet) : Prop :=
  NoDup (map userId ws) /\ NoDup (map walletNumber ws).

Definition unique_references (ts : list Transaction) : Prop :=
  NoDup (map reference ts).

Definition integrity (db : DB) : Prop :=
  unique_wallets (wallets db) /\ unique_references (transactions db).

(** What of a Transaction row is written once: everything but [status],
    [gatewayResponse] and [completedAt]. *)
Definition same_entry (t t' : Transaction) : Prop :=
  reference t' = reference t /\ tx_userId t' = tx_userId t /\ amount t' = amount t
  /\ type t' = type t /\ paystackReference t' = paystackReference t
  /\ metadata t' = metadata t.

(** What of a Wallet row is written once: the owner and the number. *)
Definition same_wallet (w w' : Wallet) : Prop :=
  userId w' = userId w /\ walletNumber w' = walletNumber w.

(** [l'] holds the rows of [l], in place and up to [R], and then possibly
    more rows. *)
Definition kept {A} (R : A -> A -> Prop) (l l' : list A) : Prop :=
  exists l1 l2, l' = (l1 ++ l2)%list /\ Forall2 R l l1.

(** A platform as [demo_platform], whose [JSON_parse] reads one body. *)
Definition demo_body : string := "{charge.success dep_1000_u1 500000}".

Definition parsing_platform : Platform :=
  {| sha256_hex := fun s => s;
     hmac_sha512_hex := fun key payload => key ++ ":" ++ payload;
     number_to_string :=
       fun q => string_of_N (Z.to_N (Qnum q)) ++ "/" ++ string_of_N (Npos (Qden q));
     JSON_parse :=
       fun body =>
         if String.eqb body demo_body
         then Some (mkWebhookPayload "charge.success"
                      (mkWebhookData "dep_1000_u1" 500000 "success" None))
         else None;
     walletNumber_default := "" |}.

Definition demo_user : RequestUser := mkRequestUser "u1" "u1@example.com".

(** A string of decimal digits. *)
Definition is_digit (c : ascii) : bool :=
  (48 <=? nat_of_ascii c)%nat && (nat_of_ascii c <=? 57)%nat.

Fixpoint all_digits (s : string) : bool :=
  match s with
  | EmptyString => true
  | String c rest => is_digit c && all_digits rest
  end.


(** ** API keys *)

(** The keys of a user that count towards the limit at a given time. *)
Definition live_count (u : string) (now : N) (st : Keys.Store) : nat :=
  length (filter (Keys.live u now) (Keys.apiKeys st)).

Definition key_limit (now : N) (st : Keys.Store) : Prop :=
  forall u, (live_count u now st <= 5)%nat.

(** The primary key of the table. *)
Definition unique_ids (st : Keys.Store) : Prop :=
  NoDup (map Keys.id (Keys.apiKeys st)).

(** A key that is there and switched off. *)
Definition revoked (i : string) (st : Keys.Store) : Prop :=
  (exists k, In k (Keys.apiKeys st) /\ Keys.id k = i)
  /\ forall k, In k (Keys.apiKeys st) -> Keys.id k = i -> Keys.isActive k = false.

(** The calls that reach the table of keys. *)
Inductive KeyOp : Type :=
  | op_create (dto : Keys.CreateApiKeyDto) (u : string) (now now' : N)
      (randomHex salt newId : string)
  | op_rollover (dto : Keys.RolloverApiKeyDto) (u : string) (now0 now now' : N)
      (randomHex salt newId : string)
  | op_remove (i u : string)
  | op_canActivate_sha256 (requiredPermissions : option (list string))
      (header : option string) (appConfig : bool) (now now' : N)
  | op_canActivate_bcrypt (requiredPermissions : option (list string))
      (header : option string) (appConfig : bool) (now now' : N).

Definition run_key_op {P : Platform} {L : Keys.Library} (op : KeyOp)
  (st : Keys.Store) : Keys.Store :=
  match op with
  | op_create dto u now now' randomHex salt newId =>
      snd (Keys.create dto u now now' randomHex salt newId st)
  | op_rollover dto u now0 now now' randomHex salt newId =>
      snd (Keys.rollover dto u now0 now now' randomHex salt newId st)
  | op_remove i u => snd (Keys.remove i u st)
  | op_canActivate_sha256 req header appConfig now now' =>
      snd (Keys.canActivate_sha256 req header appConfig now now' st)
  | op_canActivate_bcrypt req header appConfig now now' =>
      snd (Keys.canActivate_bcrypt req header appConfig now now' st)
  end.

Definition run_key_ops {P : Platform} {L : Keys.Library} (ops : list KeyOp)
  (st : Keys.Store) : Keys.Store :=
  fold_left (fun st op => run_key_op op st) ops st.

(** The time at which a call counts the caller's live keys, for the calls
    that count. *)
Definition counts_at (op : KeyOp) (t : N) : Prop :=
  match op with
  | op_create _ _ now _ _ _ _ => now = t
  | op_rollover _ _ _ now _ _ _ _ => now = t
  | _ => True
  end.

(** A key is within its time and holds what the endpoint requires. *)
Definition in_time (now : N) (k : Keys.ApiKey) : Prop :=
  forall e, Keys.expiresAt k = Some e -> (now <= e)%N.

Definition holds_all (requiredPermissions : option (list string))
  (k : Keys.ApiKey) : Prop :=
  forall ps, requiredPermissions = Some ps ->
  forall p, In p ps -> In p (Keys.permissions k).

(** What the guard leaves behind when it lets a request through with the row
    [k]: the request's user, and the table with the row's [lastUsedAt] set. *)
Definition let_through (k : Keys.ApiKey) (now' : N) (st : Keys.Store)
  (au : Keys.AuthUser) (st' : Keys.Store) : Prop :=
  (exists user,
      find (fun x => String.eqb (Keys.user_id x) (Keys.userId k)) (Keys.users st)
      = Some user
      /\ au = Keys.mkAuthUser (Keys.userId k) (Keys.email user) true (Keys.id k))
  /\ Keys.users st' = Keys.users st
  /\ update_first (Keys.by_id (Keys.id k)) (Keys.set_lastUsedAt now')
       (Keys.apiKeys st) = Some (Keys.apiKeys st').

(** The rows of the users other than [u], in their order. *)
Definition keys_of_others (u : string) (st : Keys.Store) : list Keys.ApiKey :=
  filter (fun k => negb (String.eqb (Keys.userId k) u)) (Keys.apiKeys st).

(** A library to run the key service on: the stored hash is the salt followed
    by the key, a key matches a hash that ends with it, and an expiry string
    is a number of milliseconds. *)
Definition ends_with (s suffix : string) : bool :=
  String.eqb
    (substring (String.length s - String.length suffix) (String.length suffix) s)
    suffix.

Definition demo_library : Keys.Library :=
  {| Keys.bcrypt_hash := fun data salt => salt ++ data;
     Keys.bcrypt_compare := fun data hash => ends_with hash data;
     Keys.isValidExpirationFormat := fun s => negb (String.eqb s "");
     Keys.parseExpirationDate := fun s now => (now + N.of_nat (String.length s) * 3600000)%N;
     Keys.VALID_PERMISSIONS := ["deposit"; "transfer"; "read"];
     Keys.isActive_default := true;
     Keys.toISOString := string_of_N |}.

Definition demo_key : Keys.ApiKey :=
  Keys.mkApiKey "k1" "ci" "sk_live_aa" ["read"; "deposit"] (Some 2000%N) "u1" true None.

Definition demo_other_key : Keys.ApiKey :=
  Keys.mkApiKey "k2" "cron" "sk_live_bb" ["read"] (Some 5000%N) "u2" true None.

Definition demo_keys : Keys.Store :=
  Keys.mkStore [demo_key; demo_other_key]
    [Keys.mkUser "u1" "u1@example.com"; Keys.mkUser "u2" "u2@example.com"].

Definition demo_create_dto : Keys.CreateApiKeyDto :=
  Keys.mkCreateApiKeyDto "deploy" (Some ["read"; "transfer"]) "1D".

Definition demo_rollover_dto : Keys.RolloverApiKeyDto :=
  Keys.mkRolloverApiKeyDto "k1" "1D".

(** The row that [create] and [rollover] add, and what they hand back. *)
Definition created_row {L : Keys.Library} (name : string) (perms : list string)
  (expiry : string) (u : string) (now' : N) (randomHex salt newId : string)
  : Keys.ApiKey :=
  Keys.mkApiKey newId name (Keys.bcrypt_hash (Keys.generateApiKey randomHex) salt)
    perms (Some (Keys.parseExpirationDate expiry now')) u Keys.isActive_default
    None.

Definition issued {L : Keys.Library} (expiry : string) (now' : N)
  (randomHex : string) : Keys.IssuedKey :=
  Keys.mkIssuedKey (Keys.generateApiKey randomHex)
    (Keys.toISOString (Keys.parseExpirationDate expiry now')).

(** [expiredKey.expiresAt > new Date()] *)
Definition has_not_expired (now0 : N) (k : Keys.ApiKey) : bool :=
  match Keys.expiresAt k with
  | Some e => N.ltb now0 e
  | None => false
  end.

(** What a call can do to the table: nothing, rewrite one row without
    touching its identifier, owner or expiry and without switching it on, or
    add a row under a new identifier; [fresh] says what is known of such a
    row. *)
Inductive key_effect (fresh : Keys.ApiKey -> Prop) (st st' : Keys.Store) : Prop :=
  | effect_none : st' = st -> key_effect fresh st st'
  | effect_update (i : string) (f : Keys.ApiKey -> Keys.ApiKey) :
      (forall x, Keys.id (f x) = Keys.id x) ->
      (forall x, Keys.userId (f x) = Keys.userId x) ->
      (forall x, Keys.expiresAt (f x) = Keys.expiresAt x) ->
      (forall x, Keys.isActive (f x) = true -> Keys.isActive x = true) ->
      update_first (Keys.by_id i) f (Keys.apiKeys st) = Some (Keys.apiKeys st') ->
      Keys.users st' = Keys.users st ->
      key_effect fresh st st'
  | effect_new (k : Keys.ApiKey) :
      fresh k ->
      existsb (Keys.by_id (Keys.id k)) (Keys.apiKeys st) = false ->
      Keys.apiKeys st' = (Keys.apiKeys st ++ [k])%list ->
      Keys.users st' = Keys.users st ->
      key_effect fresh st st'.

(** A row that a call adds belongs to a user whom the call counted below the
    limit. *)
Definition counted (op : KeyOp) (st : Keys.Store) (k : Keys.ApiKey) : Prop :=
  forall t, counts_at op t -> (live_count (Keys.userId k) t st < 5)%nat.

Definition demo_create_op : KeyOp :=
  op_create demo_create_dto "u1" 1500 1500 "cc" "s:" "k3".

(** ** The service with its arithmetic: runs and data *)

(** What a call of [Rounded.transfer] can do to the database; the
    rejections are those of [transfer], which compare and do not compute. *)
Inductive rounded_transfer_run {P : Platform} {A : Arithmetic}
  (fromUserId toWalletNumber : string) (amount : Q) (now : N) (db : DB)
  : (Exn + TransferResult) * DB -> Prop :=
  | rounded_rejected (e : Exn) :
      transfer_rejection fromUserId toWalletNumber amount now db e ->
      rounded_transfer_run fromUserId toWalletNumber amount now db (inl e, db)
  | rounded_duplicate (X Y : Wallet) (t : Transaction) :
      find (by_userId fromUserId) (wallets db) = Some X ->
      find (by_walletNumber toWalletNumber) (wallets db) = Some Y ->
      0 < amount -> amount <= balance X ->
      find (completed_with_key (idempotencyKey fromUserId toWalletNumber amount))
           (transactions db) = Some t ->
      rounded_transfer_run fromUserId toWalletNumber amount now db
        (inr (transfer_already_processed (reference t)), db)
  | rounded_completed (X Y : Wallet) (ws1 ws2 : list Wallet) :
      find (by_userId fromUserId) (wallets db) = Some X ->
      find (by_walletNumber toWalletNumber) (wallets db) = Some Y ->
      0 < amount -> amount <= balance X ->
      find (completed_with_key (idempotencyKey fromUserId toWalletNumber amount))
           (transactions db) = None ->
      userId Y <> fromUserId ->
      update_first (by_userId fromUserId) (Rounded.decrement amount) (wallets db)
      = Some ws1 ->
      update_first (by_walletNumber toWalletNumber) (Rounded.increment amount) ws1
      = Some ws2 ->
      find (by_reference (transfer_reference now fromUserId)) (transactions db) = None ->
      find (by_reference (transfer_reference now (userId Y))) (transactions db) = None ->
      rounded_transfer_run fromUserId toWalletNumber amount now db
        (inr (transfer_completed (transfer_reference now fromUserId)),
         mkDB ws2
           (transactions db ++
              [ transfer_out_row fromUserId toWalletNumber amount now;
                transfer_in_row fromUserId toWalletNumber amount now Y X ])).

(** u1 sends 40 of the 100 to u2, in doubles. *)
Definition binary64_transfer : (Exn + TransferResult) * DB :=
  Rounded.transfer (P := demo_platform) (A := binary64) "u1" "1000000002" 40 3000
    demo_db.

(** The doubles that 1.1, 0.1 and 0.2 are read as, and a ledger in which u1
    holds 1.1 and u2 holds 0.1. *)
Definition double_1_1 : Q := round64 (11 # 10).
Definition double_0_1 : Q := round64 (1 # 10).
Definition double_0_2 : Q := round64 (2 # 10).

Definition fractional_db : DB :=
  mkDB [mkWallet "u1" "1000000001" double_1_1;
        mkWallet "u2" "1000000002" double_0_1] [].

(** u1 sends 0.2 to u2. *)
Definition fractional_transfer : (Exn + TransferResult) * DB :=
  Rounded.transfer (P := demo_platform) (A := binary64) "u1" "1000000002"
    double_0_2 3000 fractional_db.

(** u1 opens a deposit of 5000 on an empty ledger, through the service and
    through the endpoint. *)
Definition binary64_deposit : (Exn + DepositResult) * DB :=
  Rounded.initiateDeposit (A := binary64) demo_service "u1" 5000
    "u1@example.com" demo_clock demo_random 1000 answering_gateway empty_db.

Definition binary64_deposit_call : (Exn + ApiResponse DepositResult) * DB :=
  Rounded.controller_deposit (A := binary64) demo_service
    demo_user 5000 demo_clock demo_random 1000 answering_gateway empty_db.

(** The settled deposit of u1 after a poll that the gateway answered with
    404: the row is [failed], the credit of 50 is still on the wallet. *)
Definition abandoned_db : DB :=
  snd (Rounded.verifyDepositWithPaystack (P := demo_platform) (A := binary64)
         "dep_1000_u1" 2500 (inl (AxiosError (Some 404%N)))
         (snd (Rounded.handleWebhook (P := demo_platform) (A := binary64)
                 "charge.success" approved_5000_kobo 2000 demo_pending_db))).
(** * Properties *)

(** ** Lists under [find] and [update_first] *)

Section ListFacts.

Context {A : Type}.
Implicit Types (p q : A -> bool) (f : A -> A) (l : list A).

Lemma update_first_some p f l x :
  find p l = Some x -> exists l', update_first p f l = Some l'.
Proof.
  induction l as [|a l IH]; simpl; [discriminate|].
  destruct (p a); [eauto|].
  intros H. destruct (IH H) as [l' ->]. eauto.
Qed.


Lemma update_first_ext p p' f l x :
  find p l = Some x -> p' x = true ->
  (forall y, p' y = true -> p y = true) ->
  update_first p' f l = update_first p f l.
Proof.
  intros Hf Hx Hsub. induction l as [|a l IH]; simpl in *; [reflexivity|].
  destruct (p a) eqn:Ha.
  - injection Hf as ->. now rewrite Hx.
  - destruct (p' a) eqn:Ha'.
    + apply Hsub in Ha'. congruence.
    + now rewrite (IH Hf).
Qed.

(** The row that [find q] returns is the updated one. *)
Lemma find_update_first_hit p q f l l' x :
  find p l = Some x -> find q l = Some x ->
  update_first p f l = Some l' -> q (f x) = true ->
  find q l' = Some (f x).
Proof.
  revert l'. induction l as [|a l IH]; simpl; intros l' Hp Hq Hu Hqf;
    [discriminate|].
  destruct (p a) eqn:Ha, (q a) eqn:Hb.
  - injection Hp as ->. injection Hu as <-. simpl. now rewrite Hqf.
  - injection Hp as ->. apply find_some in Hq. destruct Hq; congruence.
  - injection Hq as ->. apply find_some in Hp. destruct Hp; congruence.
  - destruct (update_first p f l) as [r|] eqn:Hr; [|discriminate].
    injection Hu as <-. simpl. rewrite Hb. now apply IH.
Qed.

(** The updated row is not one [q] selects: [find q] is unchanged. *)
Lemma find_update_first_miss p q f l l' :
  update_first p f l = Some l' ->
  (forall y, q (f y) = q y) ->
  (forall x, find p l = Some x -> q x = false) ->
  find q l' = find q l.
Proof.
  revert l'. induction l as [|a l IH]; simpl; intros l' Hu Hf Hm;
    [discriminate|].
  destruct (p a) eqn:Ha.
  - injection Hu as <-. simpl.
    rewrite Hf, (Hm a eq_refl). reflexivity.
  - destruct (update_first p f l) as [r|] eqn:Hr; [|discriminate].
    injection Hu as <-. simpl.
    destruct (q a); [reflexivity|]. now apply IH.
Qed.

(** A row that [p] does not select is still what [find q] returns. *)
Lemma find_update_first_other p q f l l' y :
  update_first p f l = Some l' ->
  (forall z, q (f z) = q z) ->
  find q l = Some y -> p y = false ->
  find q l' = Some y.
Proof.
  revert l'. induction l as [|a l IH]; simpl; intros l' Hu Hf Hq Hy;
    [discriminate|].
  destruct (p a) eqn:Ha.
  - injection Hu as <-. simpl. rewrite Hf.
    destruct (q a); [|exact Hq]. injection Hq as ->. congruence.
  - destruct (update_first p f l) as [r|] eqn:Hr; [|discriminate].
    injection Hu as <-. simpl.
    destruct (q a); [exact Hq|]. now apply IH.
Qed.

Lemma Forall_update_first (R : A -> Prop) p f l l' :
  Forall R l -> update_first p f l = Some l' ->
  (forall x, find p l = Some x -> R x -> R (f x)) ->
  Forall R l'.
Proof.
  revert l'. induction l as [|a l IH]; simpl; intros l' HR Hu Hf;
    [discriminate|].
  inversion HR as [|? ? Ra Rl]; subst.
  destruct (p a) eqn:Ha.
  - injection Hu as <-. constructor; auto.
  - destruct (update_first p f l) as [r|] eqn:Hr; [|discriminate].
    injection Hu as <-. constructor; auto.
Qed.

Lemma find_app_none p l l2 :
  find p l = None -> find p (l ++ l2) = find p l2.
Proof.
  induction l as [|a l IH]; simpl; [reflexivity|].
  destruct (p a); [discriminate|]. exact IH.
Qed.

Lemma find_app_some p l l2 x :
  find p l = Some x -> find p (l ++ l2) = Some x.
Proof.
  induction l as [|a l IH]; simpl; [discriminate|].
  destruct (p a); [trivial|]. exact IH.
Qed.

Lemma existsb_false_find p l :
  existsb p l = false -> find p l = None.
Proof.
  induction l as [|a l IH]; simpl; [reflexivity|].
  destruct (p a); simpl; [discriminate|]. exact IH.
Qed.

Lemma find_none_existsb p l :
  find p l = None -> existsb p l = false.
Proof.
  induction l as [|a l IH]; simpl; [reflexivity|].
  destruct (p a); simpl; [discriminate|]. exact IH.
Qed.

End ListFacts.

Lemma find_by_userId u ws w :
  find (by_userId u) ws = Some w -> userId w = u.
Proof.
  intros H. apply find_some in H. destruct H as [_ H].
  now apply String.eqb_eq in H.
Qed.


Lemma find_by_reference r ts t :
  find (by_reference r) ts = Some t -> reference t = r.
Proof.
  intros H. apply find_some in H. destruct H as [_ H].
  now apply String.eqb_eq in H.
Qed.

Lemma Qlt_bool_false x y : QMicromega.Qlt_bool x y = false <-> y <= x.
Proof.
  split; intros H.
  - apply Qnot_lt_le. intros Hlt.
    apply QMicromega.Qlt_bool_iff in Hlt. congruence.
  - destruct (QMicromega.Qlt_bool x y) eqn:E; [|reflexivity].
    apply QMicromega.Qlt_bool_iff in E. apply Qle_not_lt in H. contradiction.
Qed.

Lemma Qle_bool_false x y : Qle_bool x y = false <-> y < x.
Proof.
  split; intros H.
  - apply Qnot_le_lt. intros Hle. apply Qle_bool_iff in Hle. congruence.
  - destruct (Qle_bool x y) eqn:E; [|reflexivity].
    apply Qle_bool_iff in E. apply Qlt_not_le in H. contradiction.
Qed.

(** ** Insufficient funds *)

(** C5. A transfer whose sender holds less than the amount, to a wallet
    number that exists, throws "Insufficient balance" and leaves the database
    as it was: both balances unchanged, no Transaction row added. *)
Theorem transfer_insufficient_balance
  {P : Platform} (db : DB) (fromUserId toWalletNumber : string) (amount : Q)
  (now : N) (X Y : Wallet) :
  find (by_userId fromUserId) (wallets db) = Some X ->
  find (by_walletNumber toWalletNumber) (wallets db) = Some Y ->
  0 <= balance X ->
  balance X < amount ->
  transfer fromUserId toWalletNumber amount now db = (inl insufficient_balance, db).
Proof.
  intros HX HY Hnn Hlt. unfold transfer.
  assert (Hpos : Qle_bool amount 0 = false).
  { apply Qle_bool_false. eapply Qle_lt_trans; eauto. }
  rewrite Hpos. unfold bind, wallet_findUnique. rewrite HY, HX.
  apply QMicromega.Qlt_bool_iff in Hlt. rewrite Hlt. reflexivity.
Qed.

(** ** The runs of [transfer] *)

Lemma balance_and_userId_update u (X : Wallet) f ws :
  find (by_userId u) ws = Some X ->
  update_first (balance_and_userId u (balance X)) f ws
  = update_first (by_userId u) f ws.
Proof.
  intros HX. apply update_first_ext with (x := X); auto.
  - unfold balance_and_userId. apply find_some in HX. destruct HX as [_ ->].
    now rewrite Qeq_bool_refl.
  - intros y Hy. unfold balance_and_userId in Hy.
    now apply andb_true_iff in Hy.
Qed.

Lemma by_walletNumber_decrement n a w :
  by_walletNumber n (decrement a w) = by_walletNumber n w.
Proof. reflexivity. Qed.




(** The recipient row is still the one found by number after the debit,
    whoever the sender is. *)
Lemma find_walletNumber_after_debit u n a ws ws1 Y :
  find (by_walletNumber n) ws = Some Y ->
  update_first (by_userId u) (decrement a) ws = Some ws1 ->
  exists Y1, find (by_walletNumber n) ws1 = Some Y1 /\ userId Y1 = userId Y.
Proof.
  revert ws1. induction ws as [|w ws IH]; simpl; intros ws1 HY Hu; [discriminate|].
  destruct (by_userId u w) eqn:Hw.
  - injection Hu as <-. simpl. rewrite by_walletNumber_decrement.
    destruct (by_walletNumber n w) eqn:Hn.
    + injection HY as <-. eauto.
    + eauto.
  - destruct (update_first (by_userId u) (decrement a) ws) as [r|] eqn:Hr;
      [|discriminate].
    injection Hu as <-. simpl.
    destruct (by_walletNumber n w) eqn:Hn.
    + injection HY as <-. eauto.
    + eapply IH; eauto.
Qed.

Lemma existsb_true_find {A} (p : A -> bool) l :
  existsb p l = true -> find p l <> None.
Proof.
  intros H E. apply find_none_existsb in E. congruence.
Qed.

Lemma transfer_runs {P : Platform} fromUserId toWalletNumber amount now db :
  transfer_run fromUserId toWalletNumber amount now db
    (transfer fromUserId toWalletNumber amount now db).
Proof.
  unfold transfer.
  destruct (Qle_bool amount 0) eqn:Hpos.
  { apply Qle_bool_iff in Hpos. now do 2 constructor. }
  apply Qle_bool_false in Hpos.
  unfold bind at 1. unfold wallet_findUnique at 1.
  destruct (find (by_walletNumber toWalletNumber) (wallets db)) as [Y|] eqn:HY.
  2:{ constructor. now apply rej_recipient. }
  unfold bind at 1. unfold wallet_findUnique at 1.
  destruct (find (by_userId fromUserId) (wallets db)) as [X|] eqn:HX.
  2:{ constructor. now apply rej_no_sender with Y. }
  destruct (QMicromega.Qlt_bool (balance X) amount) eqn:Hbal.
  { apply QMicromega.Qlt_bool_iff in Hbal. constructor.
    now apply rej_balance with X Y. }
  pose proof (proj1 (Qlt_bool_false _ _) Hbal) as Hle.
  unfold bind at 1. unfold prisma_transaction, transfer_body.
  unfold bind at 1. unfold transaction_findFirst.
  destruct (find _ (transactions db)) as [t|] eqn:Hdup.
  { unfold ret. eapply run_duplicate; eauto. }
  unfold bind at 1. unfold wallet_findUnique at 1. rewrite HX, Hbal.
  unfold bind at 1. unfold wallet_update at 1.
  rewrite (balance_and_userId_update _ _ _ _ HX).
  destruct (update_first_some _ (decrement amount) _ _ HX) as [ws1 Hws1].
  rewrite Hws1.
  unfold bind at 1. unfold wallet_update at 1. cbn [wallets transactions].
  destruct (find_walletNumber_after_debit _ _ _ _ _ _ HY Hws1) as (Y1 & HY1 & _).
  destruct (update_first_some _ (increment amount) _ _ HY1) as [ws2 Hws2].
  rewrite Hws2.
  unfold bind at 1. unfold transaction_createMany, prisma_transaction.
  cbn [insert_all]. unfold bind at 1. unfold transaction_create at 1.
  cbn [wallets transactions reference].
  destruct (existsb (by_reference (transfer_reference now fromUserId))
              (transactions db)) eqn:Hs.
  { constructor. apply rej_reference with X Y; auto using existsb_true_find. }
  unfold bind at 1. unfold transaction_create at 1.
  cbn [wallets transactions reference].
  rewrite existsb_app. cbn [existsb]. rewrite orb_false_r.
  destruct (existsb (by_reference (transfer_reference now (userId Y)))
              (transactions db)) eqn:Hr.
  { constructor. apply rej_reference with X Y; auto using existsb_true_find. }
  cbn [orb]. unfold by_reference at 1. cbn [reference].
  destruct (String.eqb (transfer_reference now fromUserId)
              (transfer_reference now (userId Y))) eqn:Hsame.
  { constructor. apply rej_reference with X Y; auto. left.
    apply String.eqb_eq in Hsame. unfold transfer_reference in Hsame.
    symmetry. revert Hsame. generalize (string_of_N now). intros s E.
    cbn in E. injection E as E. revert E.
    induction s as [|c s IH]; cbn; intros E; [now injection E|].
    injection E as E. auto. }
  unfold ret. cbn [wallets transactions].
  rewrite <- app_assoc. cbn [app].
  apply (run_completed fromUserId toWalletNumber amount now db X Y ws1 ws2);
    auto using existsb_false_find.
  intros E. rewrite E, String.eqb_refl in Hsame. discriminate.
Qed.

Lemma by_userId_false u w : userId w <> u -> by_userId u w = false.
Proof. intros H. now apply String.eqb_neq. Qed.


Lemma transfer_insufficient_balance_witness :
  transfer (P := demo_platform) "u1" "1000000002" 200 3000 demo_db
  = (inl insufficient_balance, demo_db).
Proof.
  apply (transfer_insufficient_balance (P := demo_platform) demo_db
           "u1" "1000000002" 200 3000 u1_wallet u2_wallet);
    try reflexivity; cbn; lra.
Defined.

(** ** Reading a run of [transfer] back *)

Ltac same_row :=
  repeat match goal with
  | H1 : ?a = Some ?x, H2 : ?a = Some ?y |- _ =>
      first [ constr_eq x y; clear H2
            | let E := fresh in assert (E : x = y) by congruence;
              first [subst y | subst x]; clear H2 ]
  | H1 : ?a = Some _, H2 : ?a = None |- _ => congruence
  end.

Ltac order_clash :=
  match goal with
  | H1 : ?a < ?b, H2 : ?b <= ?a |- _ => exact (False_ind _ (Qlt_not_le _ _ H1 H2))
  end.

Lemma transfer_when_duplicate {P : Platform} from to amt now db X Y t :
  0 < amt ->
  find (by_walletNumber to) (wallets db) = Some Y ->
  find (by_userId from) (wallets db) = Some X ->
  amt <= balance X ->
  find (completed_with_key (idempotencyKey from to amt)) (transactions db) = Some t ->
  transfer from to amt now db = (inr (transfer_already_processed (reference t)), db).
Proof.
  intros Hpos HY HX Hle Hdup.
  pose proof (transfer_runs from to amt now db) as R.
  destruct (transfer from to amt now db) as [res db'].
  remember (res, db') as out eqn:E.
  destruct R as [e He | X0 Y0 t0 HX0 HY0 Hpos0 Hle0 Hdup0
                | X0 Y0 ws1 ws2 HX0 HY0 Hpos0 Hle0 Hdup0 Hne Hw1 Hw2 Hs Hr];
    injection E as <- <-.
  - destruct He; same_row; try order_clash.
  - same_row. reflexivity.
  - same_row.
Qed.

Lemma transfer_when_short {P : Platform} from to amt now db X Y :
  0 < amt ->
  find (by_walletNumber to) (wallets db) = Some Y ->
  find (by_userId from) (wallets db) = Some X ->
  balance X < amt ->
  transfer from to amt now db = (inl insufficient_balance, db).
Proof.
  intros Hpos HY HX Hlt. unfold transfer.
  rewrite (proj2 (Qle_bool_false _ _) Hpos).
  unfold bind, wallet_findUnique. rewrite HY, HX.
  now rewrite (proj2 (QMicromega.Qlt_bool_iff _ _) Hlt).
Qed.

(** ** Reference collisions *)

(** C9, on the code: a transfer that passes every check and is no duplicate
    still dies on the unique index of [reference], with nothing written, when
    the recipient wallet is the sender's own (both references are then the same
    string) or when a row of the same user and millisecond exists. *)
Theorem transfer_reference_collision
  {P : Platform} (fromUserId toWalletNumber : string) (amt : Q) (now : N)
  (db : DB) (X Y : Wallet) :
  0 < amt ->
  find (by_walletNumber toWalletNumber) (wallets db) = Some Y ->
  find (by_userId fromUserId) (wallets db) = Some X ->
  amt <= balance X ->
  find (completed_with_key (idempotencyKey fromUserId toWalletNumber amt))
       (transactions db) = None ->
  userId Y = fromUserId
  \/ find (by_reference (transfer_reference now fromUserId)) (transactions db) <> None
  \/ find (by_reference (transfer_reference now (userId Y))) (transactions db) <> None ->
  (userId Y = fromUserId ->
   transfer_reference now fromUserId = transfer_reference now (userId Y))
  /\ transfer fromUserId toWalletNumber amt now db = (inl unique_violation, db).
Proof.
  intros Hpos HY HX Hle Hdup Hcol. split.
  { now intros ->. }
  pose proof (transfer_runs fromUserId toWalletNumber amt now db) as R.
  destruct (transfer fromUserId toWalletNumber amt now db) as [res db'].
  remember (res, db') as out eqn:E.
  destruct R as [e He | X0 Y0 t0 HX0 HY0 Hpos0 Hle0 Hdup0
                | X0 Y0 ws1 ws2 HX0 HY0 Hpos0 Hle0 Hdup0 Hne Hw1 Hw2 Hs Hr];
    injection E as <- <-.
  - destruct He; same_row; try order_clash. reflexivity.
  - same_row.
  - same_row. destruct Hcol as [H|[H|H]]; contradiction.
Qed.

Lemma transfer_reference_collision_witness :
  demo_self_transfer = (inl unique_violation, demo_db).
Proof.
  refine (proj2 (transfer_reference_collision (P := demo_platform)
           "u1" "1000000001" 40 3000 demo_db u1_wallet u1_wallet
           _ _ _ _ _ _));
    try reflexivity; try (cbn; lra).
  left. reflexivity.
Defined.

(** ** Retries *)

Lemma completed_with_key_out {P : Platform} from to amt now :
  completed_with_key (idempotencyKey from to amt)
    (transfer_out_row from to amt now) = true.
Proof.
  unfold completed_with_key, transfer_out_row. cbn.
  now rewrite String.eqb_refl.
Qed.




(** ** The wallet invariant *)

Ltac open_service :=
  cbv beta iota zeta delta
    [handleWebhook verifyDepositWithPaystack initiateDeposit getOrCreateWallet
     axios_post axios_get try_catch prisma_transaction bind
     transaction_findUnique transaction_findFirst transaction_update
     transaction_create wallet_upsert wallet_update wallet_create
     wallet_findUnique ret throw].

Ltac split_run :=
  match goal with
  | |- context [match ?x with _ => _ end] =>
      lazymatch x with
      | context [match _ with _ => _ end] => fail
      | _ => destruct x eqn:?
      end
  end.

Lemma credit_nonneg a ws ws' p :
  0 <= a -> Forall (fun w => 0 <= balance w) ws ->
  update_first p (increment a) ws = Some ws' ->
  Forall (fun w => 0 <= balance w) ws'.
Proof.
  intros Ha Hws Hu. eapply Forall_update_first; eauto.
  intros x _ Hx. cbn. lra.
Qed.

Lemma debit_nonneg a ws ws' u X :
  find (by_userId u) ws = Some X -> a <= balance X ->
  Forall (fun w => 0 <= balance w) ws ->
  update_first (by_userId u) (decrement a) ws = Some ws' ->
  Forall (fun w => 0 <= balance w) ws'.
Proof.
  intros HX Ha Hws Hu. eapply Forall_update_first; eauto.
  intros x Hx _. rewrite HX in Hx. injection Hx as <-. cbn. lra.
Qed.

Lemma Forall_snoc {A} (R : A -> Prop) l x :
  Forall R l -> R x -> Forall R (l ++ [x]).
Proof. intros. apply Forall_app. auto. Qed.

Lemma Qdiv_100_nonneg a : 0 <= a -> 0 <= a / 100.
Proof. intros. apply Qle_shift_div_l; lra. Qed.

Ltac nonneg_leaf :=
  cbn [snd fst wallets transactions] in *;
  first
    [ assumption
    | eapply credit_nonneg; [| |eassumption]; auto using Qdiv_100_nonneg
    | apply Forall_snoc; cbn; auto using Qdiv_100_nonneg, Qle_refl ].

Lemma getOrCreateWallet_nonneg u clock random db :
  balances_nonneg db -> balances_nonneg (snd (getOrCreateWallet u clock random db)).
Proof.
  unfold balances_nonneg. intros H. open_service.
  repeat split_run; nonneg_leaf.
Qed.

Lemma initiateDeposit_nonneg this u a email clock random now gateway db :
  balances_nonneg db ->
  balances_nonneg (snd (initiateDeposit this u a email clock random now gateway db)).
Proof.
  unfold balances_nonneg. intros H. open_service.
  repeat split_run; nonneg_leaf.
Qed.

Lemma handleWebhook_nonneg {P : Platform} event data now db :
  0 <= wd_amount data ->
  balances_nonneg db -> balances_nonneg (snd (handleWebhook event data now db)).
Proof.
  unfold balances_nonneg. intros Ha H. open_service.
  repeat split_run; nonneg_leaf.
Qed.

Lemma verifyDepositWithPaystack_nonneg {P : Platform} ref now reply db :
  match reply with inr data => 0 <= vd_amount data | inl _ => True end ->
  balances_nonneg db ->
  balances_nonneg (snd (verifyDepositWithPaystack ref now reply db)).
Proof.
  unfold balances_nonneg. intros Ha H. open_service.
  repeat split_run; nonneg_leaf.
Qed.

Lemma transfer_nonneg {P : Platform} from to amt now db :
  balances_nonneg db -> balances_nonneg (snd (transfer from to amt now db)).
Proof.
  unfold balances_nonneg. intros H.
  destruct (transfer_runs from to amt now db)
    as [e He | X Y t HX HY Hpos Hle Hdup
       | X Y ws1 ws2 HX HY Hpos Hle Hdup Hne Hw1 Hw2 Hs Hr]; cbn; auto.
  eapply credit_nonneg; [| |exact Hw2]; [lra|].
  eapply debit_nonneg; eauto.
Qed.

(** C2, as the code has it. Every operation that writes a balance keeps all
    balances at or above zero, along any execution, as long as the amounts the
    gateway reports are not negative. The only debit is the one of [transfer],
    and the balance it is applied to has been checked against the amount just
    before: the wallets satisfy the invariant already after the debit, before
    the credit. *)
Theorem balances_stay_nonneg
  {P : Platform} (this : WalletService) (ops : list Op) (db : DB) :
  balances_nonneg db ->
  Forall gateway_amount_nonneg ops ->
  balances_nonneg (run_ops this ops db)
  /\ (forall fromUserId amt freshSenderWallet,
        find (by_userId fromUserId) (wallets db) = Some freshSenderWallet ->
        QMicromega.Qlt_bool (balance freshSenderWallet) amt = false ->
        balances_nonneg
          (snd (wallet_update
                  (balance_and_userId fromUserId (balance freshSenderWallet))
                  (decrement amt) db))).
Proof.
  intros Hdb Hops. split.
  - revert db Hdb. induction Hops as [|op ops Hop _ IH]; intros db Hdb; cbn.
    + exact Hdb.
    + apply IH. destruct op; cbn in *.
      * now apply getOrCreateWallet_nonneg.
      * now apply initiateDeposit_nonneg.
      * now apply handleWebhook_nonneg.
      * now apply verifyDepositWithPaystack_nonneg.
      * now apply transfer_nonneg.
  - intros u amt X HX Hb. apply Qlt_bool_false in Hb.
    unfold wallet_update. rewrite (balance_and_userId_update _ _ _ _ HX).
    destruct (update_first_some _ (decrement amt) _ _ HX) as [ws1 Hws1].
    rewrite Hws1. cbn. eapply debit_nonneg; eauto.
Qed.

Lemma balances_stay_nonneg_witness :
  balances_nonneg (run_ops (P := demo_platform) demo_service demo_ops demo_pending_db).
Proof.
  refine (proj1 (balances_stay_nonneg (P := demo_platform) demo_service demo_ops
                   demo_pending_db _ _)).
  - repeat constructor; cbn; lra.
  - repeat constructor; cbn; lra.
Defined.

(** C2 as the spec states it fails: nothing checks the amount of a
    [charge.success] event, so an event of -20000 kobo for the pending deposit
    of u1 takes 200 off a balance of 100. *)
Lemma balances_stay_nonneg_counterexample :
  ~ (forall P : Platform,
       balances_nonneg demo_pending_db ->
       balances_nonneg
         (snd (handleWebhook (P := P) "charge.success" negative_charge 2000
                 demo_pending_db))).
Proof.
  intros H. specialize (H demo_platform).
  assert (H0 : balances_nonneg demo_pending_db) by (repeat constructor; cbn; lra).
  apply H in H0. vm_compute in H0.
  inversion H0 as [|w ws Hw _]. apply Hw. reflexivity.
Qed.

(** ** Initiating a deposit *)

Lemma getOrCreateWallet_runs u clock random db :
  let run := getOrCreateWallet u clock random db in
  transactions (snd run) = transactions db
  /\ ((exists w, find (by_userId u) (wallets db) = Some w
                 /\ run = (inr w, db))
      \/ (find (by_userId u) (wallets db) = None
          /\ run = (inl (BadRequestException "Failed to generate unique wallet number"),
                    db))
      \/ (find (by_userId u) (wallets db) = None
          /\ exists n e, run = (inl e, db) /\ find (by_walletNumber n) (wallets db) <> None)
      \/ (find (by_userId u) (wallets db) = None
          /\ exists n,
               run = (inr (mkWallet u n 0),
                      mkDB (wallets db ++ [mkWallet u n 0]) (transactions db)))).
Proof.
  cbv zeta. open_service.
  destruct (find (by_userId u) (wallets db)) as [w|] eqn:Hw.
  { split; [reflexivity|]. left. eauto. }
  destruct (pick_walletNumber clock random maxAttempts 0 "" (wallets db))
    as [n attempts].
  destruct (Nat.eqb attempts maxAttempts).
  { split; [reflexivity|]. right. left. auto. }
  destruct (existsb _ (wallets db)) eqn:Hex.
  - split; [reflexivity|]. right. right. left. split; [reflexivity|].
    cbn [userId walletNumber] in Hex. apply existsb_exists in Hex.
    destruct Hex as (x & Hin & Hx). apply orb_true_iff in Hx.
    destruct Hx as [Hx|Hx].
    + exfalso. eapply find_none in Hw; eauto. congruence.
    + exists n, (PrismaError "P2002"). split; [reflexivity|].
      intros Hn. eapply find_none in Hn; eauto. congruence.
  - split; [reflexivity|]. right. right. right. split; [reflexivity|]. eauto.
Qed.

(** C7, as the code has it. [initiateDeposit] makes sure the wallet exists,
    then calls the gateway, then records. When the gateway call fails the
    caller gets "Failed to initialize payment" and no Transaction row is
    written: the database is the one the wallet step left, that is the old one
    with, at most, the user's new empty wallet. A row is only ever written
    after the gateway answered, and carries the handle of that answer. *)
Theorem initiateDeposit_gateway_failure
  (this : WalletService) (userId : string) (amt : Q) (email : string)
  (clock random : nat -> N) (now : N) (gateway : Gateway) (db db0 : DB)
  (e : Exn) (w : Wallet) :
  gateway (initialize_request this userId amt email now) = inl e ->
  getOrCreateWallet userId clock random db = (inr w, db0) ->
  initiateDeposit this userId amt email clock random now gateway db
  = (inl (BadRequestException "Failed to initialize payment"), db0)
  /\ transactions db0 = transactions db
  /\ (db0 = db
      \/ exists n, db0 = mkDB (wallets db ++ [mkWallet userId n 0]) (transactions db))
  /\ (forall r db1 gateway',
        initiateDeposit this userId amt email clock random now gateway' db
        = (inr r, db1) ->
        exists response,
          gateway' (initialize_request this userId amt email now) = inr response
          /\ transactions db1
             = (transactions db
                ++ [mkTransaction (deposit_reference now userId) userId amt deposit
                      pending (Some (rs_access_code response)) None None None])%list).
Proof.
  intros Hgw Hwallet.
  destruct (getOrCreateWallet_runs userId clock random db) as [Hts Hcases].
  cbv zeta in Hts, Hcases. rewrite Hwallet in Hts, Hcases. cbn [snd] in Hts.
  split; [|split; [exact Hts|split]].
  - unfold initiateDeposit, bind at 1. rewrite Hwallet.
    unfold try_catch, bind, axios_post. rewrite Hgw. reflexivity.
  - destruct Hcases as [(w0 & _ & E)|[(_ & E)|[(_ & n & e0 & E & _)|(_ & n & E)]]];
      try discriminate.
    + injection E as _ ->. now left.
    + injection E as _ ->. right. eauto.
  - intros r db1 gateway'. unfold initiateDeposit, bind at 1. rewrite Hwallet.
    unfold try_catch, bind, axios_post, transaction_create, ret, throw.
    destruct (gateway' _) as [e'|response]; [discriminate|].
    cbn [reference]. destruct (existsb _ (transactions db0)); [discriminate|].
    intros E. injection E as _ <-. exists response. cbn. now rewrite Hts.
Qed.

Lemma initiateDeposit_gateway_failure_witness :
  demo_failed_deposit
  = (inl (BadRequestException "Failed to initialize payment"),
     mkDB [mkWallet "u1" "000000012307" 0] []).
Proof.
  refine (proj1 (initiateDeposit_gateway_failure demo_service "u1" 5000
                   "u1@example.com" demo_clock demo_random 1000 failing_gateway
                   empty_db (mkDB [mkWallet "u1" "000000012307" 0] [])
                   (AxiosError None) (mkWallet "u1" "000000012307" 0) _ _));
    reflexivity.
Defined.

(** C7 as the spec states it fails: on an empty database the call whose
    gateway request times out has already written the wallet of u1. *)
Lemma initiateDeposit_gateway_failure_counterexample :
  fst demo_failed_deposit = inl (BadRequestException "Failed to initialize payment")
  /\ snd demo_failed_deposit <> empty_db.
Proof.
  split; [reflexivity|]. vm_compute. discriminate.
Qed.

Lemma by_reference_settle r s g now t :
  by_reference r (settle s g now t) = by_reference r t.
Proof. reflexivity. Qed.

(** ** The runs of [handleWebhook] and [verifyDepositWithPaystack] *)

Lemma not_pending_terminal s : is_terminal s = true <-> s <> pending.
Proof. destruct s; cbn; split; congruence. Qed.

Lemma handleWebhook_runs {P : Platform} event data now db :
  webhook_run event data now db (handleWebhook event data now db).
Proof.
  unfold handleWebhook.
  destruct (prefix "charge." event) eqn:Hpre; cbn [negb]; [|now constructor].
  open_service.
  destruct (find (by_reference (wd_reference data)) (transactions db)) as [t|] eqn:Ht;
    [|now constructor].
  destruct (is_terminal (status t)) eqn:Hterm.
  { apply wh_already with t; auto. now apply not_pending_terminal. }
  assert (Hp : status t = pending) by (destruct (status t); cbn in Hterm; congruence).
  destruct (String.eqb event "charge.success" && String.eqb (wd_status data) "success")
    eqn:Hok.
  - apply andb_true_iff in Hok. destruct Hok as [He Hs].
    apply String.eqb_eq in He, Hs.
    destruct (update_first_some _ (settle success (wd_gateway_response data) now)
                _ _ Ht) as [ts' Hts].
    rewrite Hts. cbn [wallets transactions].
    destruct (find (by_userId (tx_userId t)) (wallets db)) as [w|] eqn:Hw.
    + destruct (update_first_some _ (increment (wd_amount data / 100)) _ _ Hw)
        as [ws' Hws].
      rewrite Hws. apply wh_settled_success with t; auto. now left.
    + cbn [userId walletNumber].
      destruct (existsb _ (wallets db)) eqn:Hex.
      * now apply wh_rolled_back with t.
      * apply wh_settled_success with t; auto. right. auto.
  - destruct (update_first_some _ (settle failed (wd_gateway_response data) now)
                _ _ Ht) as [ts' Hts].
    rewrite Hts. apply wh_settled_failed with t; auto.
    apply andb_false_iff in Hok. destruct Hok as [H|H]; apply String.eqb_neq in H; auto.
Qed.

Lemma verifyDepositWithPaystack_runs {P : Platform} ref now reply db :
  poll_run ref now db reply (verifyDepositWithPaystack ref now reply db).
Proof.
  open_service.
  destruct (find (by_reference ref) (transactions db)) as [t|] eqn:Ht;
    [|now constructor].
  destruct reply as [e|data].
  - destruct (is_http_404 e) eqn:H404.
    + destruct (update_first_some _
                  (settle failed (Some "Transaction abandoned or not completed") now)
                  _ _ Ht) as [ts' Hts].
      rewrite Hts. now apply poll_abandoned.
    + now apply poll_unavailable.
  - destruct (TxStatus_eqb (status t) success) eqn:Hst.
    { assert (Hs : status t = success)
        by (destruct (status t); cbn in Hst; congruence).
      rewrite Hs. now apply poll_already. }
    assert (Hns : status t <> success) by (intros E; rewrite E in Hst; discriminate).
    destruct (String.eqb (vd_status data) "success") eqn:Hok.
    + apply String.eqb_eq in Hok.
      destruct (update_first_some _ (settle success (vd_gateway_response data) now)
                  _ _ Ht) as [ts' Hts].
      rewrite Hts. cbn [wallets transactions].
      destruct (find (by_userId (tx_userId t)) (wallets db)) as [w|] eqn:Hw.
      * destruct (update_first_some _ (increment (vd_amount data / 100)) _ _ Hw)
          as [ws' Hws].
        rewrite Hws. apply poll_success; auto. now left.
      * cbn [userId walletNumber].
        destruct (existsb _ (wallets db)) eqn:Hex.
        -- cbn [is_http_404]. now apply poll_rolled_back.
        -- apply poll_success; auto. right. auto.
    + apply String.eqb_neq in Hok.
      destruct (update_first_some _
                  (settle failed
                     (Some (payment_not_completed (vd_gateway_response data))) now)
                  _ _ Ht) as [ts' Hts].
      unfold payment_not_completed in Hts. rewrite Hts. now apply poll_failed.
Qed.

(** ** Terminal states *)

Lemma status_of_settled ws ws' ts ts' ref s g now t :
  find (by_reference ref) ts = Some t ->
  update_first (by_reference ref) (settle s g now) ts = Some ts' ->
  status_of ref (mkDB ws' ts') = Some s
  /\ forall r, r <> ref -> status_of r (mkDB ws' ts') = status_of r (mkDB ws ts).
Proof.
  intros Ht Hu. unfold status_of. cbn [transactions]. split.
  - assert (H : find (by_reference ref) ts' = Some (settle s g now t)).
    { apply find_update_first_hit with (p := by_reference ref) (l := ts); auto.
      rewrite by_reference_settle. apply find_some in Ht. tauto. }
    now rewrite H.
  - intros r Hr.
    assert (H : find (by_reference r) ts' = find (by_reference r) ts).
    { apply find_update_first_miss
        with (p := by_reference ref) (f := settle s g now); auto.
      intros x Hx. rewrite Ht in Hx. injection Hx as <-.
      apply find_by_reference in Ht. apply String.eqb_neq. congruence. }
    now rewrite H.
Qed.

(** ** The duplicate check over time *)

Lemma find_update_first_grows {A} (p q : A -> bool) f l l' :
  find q l <> None ->
  update_first p f l = Some l' ->
  (forall x, find p l = Some x -> q x = true -> q (f x) = true) ->
  find q l' <> None.
Proof.
  revert l'. induction l as [|a l IH]; simpl; intros l' Hq Hu Hf; [discriminate|].
  destruct (p a) eqn:Ha.
  - injection Hu as <-. simpl. destruct (q a) eqn:Hb.
    + rewrite (Hf a eq_refl Hb). discriminate.
    + destruct (q (f a)); [discriminate|exact Hq].
  - destruct (update_first p f l) as [r|] eqn:Hr; [|discriminate].
    injection Hu as <-. simpl.
    destruct (q a); [discriminate|]. now apply IH.
Qed.

Lemma completed_with_key_success key t :
  completed_with_key key t = true -> status t = success.
Proof.
  unfold completed_with_key. intros H. apply andb_true_iff in H.
  destruct H as [_ H]. destruct (status t); cbn in H; congruence.
Qed.


Lemma settle_keeps_completed key s g now ts ts' ref t :
  find (by_reference ref) ts = Some t ->
  status t <> success ->
  find (completed_with_key key) ts <> None ->
  update_first (by_reference ref) (settle s g now) ts = Some ts' ->
  find (completed_with_key key) ts' <> None.
Proof.
  intros Ht Hs Hq Hu. eapply find_update_first_grows; eauto.
  intros x Hx Hc. rewrite Ht in Hx. injection Hx as <-.
  apply completed_with_key_success in Hc. contradiction.
Qed.

Lemma initiateDeposit_transactions this u a email clock random now gateway db :
  let run := initiateDeposit this u a email clock random now gateway db in
  transactions (snd run) = transactions db
  \/ exists row, transactions (snd run) = (transactions db ++ [row])%list.
Proof.
  cbv zeta.
  remember (initiateDeposit this u a email clock random now gateway db) as run eqn:E.
  unfold initiateDeposit, bind at 1 in E.
  destruct (getOrCreateWallet_runs u clock random db) as [Hts _].
  cbv zeta in Hts.
  destruct (getOrCreateWallet u clock random db) as [[e|w] db0]; cbn [snd] in Hts.
  { subst run. now left. }
  unfold try_catch, bind, axios_post, transaction_create, ret, throw in E.
  destruct (gateway _) as [e'|response].
  { subst run. now left. }
  destruct (existsb _ (transactions db0)); subst run; cbn [snd transactions].
  - now left.
  - right. rewrite Hts. eauto.
Qed.

Lemma run_op_keeps_completed {P : Platform} this key op db :
  keeps_settled op -> has_completed key db -> has_completed key (run_op this op db).
Proof.
  unfold has_completed. intros Hop H. destruct op; cbn [run_op keeps_settled] in *.
  - destruct (getOrCreateWallet_runs userId0 clock random db) as [-> _]. exact H.
  - destruct (initiateDeposit_transactions this userId0 amount0 email clock random
                now gateway db) as [->|[row ->]]; [exact H|].
    destruct (find _ (transactions db)) eqn:E; [|contradiction].
    erewrite find_app_some; eauto.
  - destruct (handleWebhook_runs event data now db)
      as [Hpre | Hpre Ht | t Hpre Ht Hs | t ts' Hpre Ht Hs Hno Hts
         | t ts' ws' Ht Hs He Hd Hts Hws | t Ht Hs He Hd Hw];
      cbn [snd transactions]; auto;
      eapply settle_keeps_completed; eauto; congruence.
  - destruct (verifyDepositWithPaystack_runs ref now reply db)
      as [reply Ht | t d Ht Hs | t d ts' ws' Ht Hs Hd Hts Hws
         | t d Ht Hs Hd Hw | t d ts' Ht Hs Hd Hts
         | t e ts' Ht H404 Hts | t e Ht H404];
      cbn [snd transactions]; auto;
      try (eapply settle_keeps_completed; eauto; fail).
    congruence.
  - destruct (transfer_runs fromUserId toWalletNumber amount0 now db)
      as [e He | X Y t HX HY Hpos Hle Hdup
         | X Y ws1 ws2 HX HY Hpos Hle Hdup Hne Hw1 Hw2 Hs Hr];
      cbn [snd transactions]; auto.
    destruct (find _ (transactions db)) eqn:E; [|contradiction].
    erewrite find_app_some; eauto.
Qed.

Lemma run_ops_keep_completed {P : Platform} this key ops db :
  Forall keeps_settled ops -> has_completed key db ->
  has_completed key (run_ops this ops db).
Proof.
  intros Hops. revert db. induction Hops as [|op ops Hop _ IH]; intros db H; cbn.
  - exact H.
  - apply IH. now apply run_op_keeps_completed.
Qed.

(** C10, as the code has it. The idempotency key is computed from
    [fromUserId], [toWalletNumber] and [amount] alone, and the duplicate check
    accepts any successful row that carries it, whatever its age. So once a
    transfer has completed, and whatever operations follow (other than a
    verification poll answered with 404), the same call moves no money at
    whatever time it is made: when the pre-checks pass it returns success with
    the reference of the successful row that carries the key, and when the
    sender's balance no longer covers the amount it throws "Insufficient
    balance". *)
Theorem transfer_dedup_has_no_window
  {P : Platform} (this : WalletService) (fromUserId toWalletNumber : string)
  (amt : Q) (now0 now : N) (db0 db1 : DB) (ref : string) (ops : list Op) :
  transfer fromUserId toWalletNumber amt now0 db0
  = (inr (transfer_completed ref), db1) ->
  Forall keeps_settled ops ->
  exists t,
    find (completed_with_key (idempotencyKey fromUserId toWalletNumber amt))
         (transactions (run_ops this ops db1)) = Some t
    /\ status t = success
    /\ snd (transfer fromUserId toWalletNumber amt now (run_ops this ops db1))
       = run_ops this ops db1
    /\ (forall X Y,
          find (by_walletNumber toWalletNumber) (wallets (run_ops this ops db1)) = Some Y ->
          find (by_userId fromUserId) (wallets (run_ops this ops db1)) = Some X ->
          (amt <= balance X ->
           fst (transfer fromUserId toWalletNumber amt now (run_ops this ops db1))
           = inr (transfer_already_processed (reference t)))
          /\ (balance X < amt ->
              fst (transfer fromUserId toWalletNumber amt now (run_ops this ops db1))
              = inl insufficient_balance))
    /\ (ops = [] -> reference t = ref).
Proof.
  intros Hrun Hops.
  pose proof (transfer_runs fromUserId toWalletNumber amt now0 db0) as R.
  rewrite Hrun in R. remember (inr (transfer_completed ref), db1) as out eqn:E.
  destruct R as [e He | X0 Y0 t0 HX0 HY0 Hpos Hle Hdup
                | X0 Y0 ws1 ws2 HX0 HY0 Hpos Hle Hdup Hne Hw1 Hw2 Hs Hr];
    try discriminate.
  injection E as <- <-.
  set (key := idempotencyKey fromUserId toWalletNumber amt) in *.
  set (db1 := mkDB ws2 _) in *.
  assert (H1 : find (completed_with_key key) (transactions db1)
               = Some (transfer_out_row fromUserId toWalletNumber amt now0)).
  { unfold db1. cbn [transactions]. rewrite (find_app_none _ _ _ Hdup). cbn [find].
    unfold key. now rewrite completed_with_key_out. }
  assert (Hhas : has_completed key (run_ops this ops db1)).
  { apply run_ops_keep_completed; auto. unfold has_completed. congruence. }
  unfold has_completed in Hhas.
  destruct (find (completed_with_key key) (transactions (run_ops this ops db1)))
    as [t|] eqn:Ht; [clear Hhas|contradiction].
  exists t. split; [reflexivity|]. split.
  { apply find_some in Ht. destruct Ht as [_ Ht].
    now apply completed_with_key_success in Ht. }
  split; [|split].
  - destruct (transfer_runs fromUserId toWalletNumber amt now (run_ops this ops db1))
      as [e He | X Y t' HX HY Hpos' Hle' Hdup'
         | X Y ws1' ws2' HX HY Hpos' Hle' Hdup' Hne' Hw1' Hw2' Hs' Hr'];
      try reflexivity.
    fold key in Hdup'. congruence.
  - intros X Y HY HX. split; intros Hb.
    + now rewrite (transfer_when_duplicate _ _ _ now _ X Y t Hpos HY HX Hb Ht).
    + now rewrite (transfer_when_short _ _ _ now _ X Y Hpos HY HX Hb).
  - intros ->. cbn [run_ops fold_left] in Ht. rewrite H1 in Ht.
    now injection Ht as <-.
Qed.

Lemma transfer_dedup_has_no_window_witness :
  transfer (P := demo_platform) "u1" "1000000002" 40 9000
    (run_ops (P := demo_platform) demo_service demo_later_ops (snd demo_transfer))
  = (inr (transfer_already_processed "txf_3000_u1"),
     run_ops (P := demo_platform) demo_service demo_later_ops (snd demo_transfer)).
Proof.
  destruct (transfer_dedup_has_no_window (P := demo_platform) demo_service
              "u1" "1000000002" 40 3000 9000 demo_db (snd demo_transfer)
              "txf_3000_u1" demo_later_ops eq_refl)
    as (t & Ht & _ & Hsnd & Hres & _).
  { repeat constructor. }
  vm_compute in Ht. injection Ht as <-.
  edestruct (Hres _ _ eq_refl eq_refl) as [Hyes _].
  apply injective_projections; [|exact Hsnd].
  apply Hyes. vm_compute. discriminate.
Defined.

(** C10 as the spec states it fails: u1 holds 100 and sends 60 to u2; the
    same call made later finds 40 on the wallet and is refused before the
    duplicate check is reached. *)
Lemma transfer_dedup_has_no_window_counterexample :
  ~ (forall P : Platform,
       fst (demo_transfer_60 (P := P)) = inr (transfer_completed "txf_3000_u1") ->
       fst (transfer (P := P) "u1" "1000000002" 60 9000
              (snd (demo_transfer_60 (P := P))))
       = inr (transfer_already_processed "txf_3000_u1")).
Proof.
  intros H. specialize (H demo_platform eq_refl). vm_compute in H. discriminate.
Qed.

(** ** Further properties of the settlement paths *)

(** X2. A verification poll that fails otherwise than with a 404 leaves the
    database as it is and reports the transaction as still pending. *)
Theorem poll_transient_error_keeps_pending
  {P : Platform} (ref : string) (now : N) (e : Exn) (db : DB) (t : Transaction) :
  find (by_reference ref) (transactions db) = Some t ->
  is_http_404 e = false ->
  verifyDepositWithPaystack ref now (inl e) db = (inr (try_again ref t), db).
Proof.
  intros Ht He. open_service. rewrite Ht, He. reflexivity.
Qed.

Lemma poll_transient_error_keeps_pending_witness :
  verifyDepositWithPaystack (P := demo_platform) "dep_1000_u1" 3000
    (inl (AxiosError (Some 503%N))) demo_pending_db
  = (inr (try_again "dep_1000_u1" pending_deposit), demo_pending_db).
Proof.
  apply (poll_transient_error_keeps_pending (P := demo_platform)); reflexivity.
Defined.

(** X3. A verification poll that the gateway answers with 404 marks the
    transaction [failed], whatever its status was, and leaves the wallets
    alone. *)
Theorem poll_not_found_marks_failed
  {P : Platform} (ref : string) (now : N) (e : Exn) (db : DB) (t : Transaction) :
  find (by_reference ref) (transactions db) = Some t ->
  is_http_404 e = true ->
  exists db',
    verifyDepositWithPaystack ref now (inl e) db
    = (inr (mkVerifyResult ref failed (amount t) None "Payment was abandoned"), db')
    /\ status_of ref db' = Some failed
    /\ wallets db' = wallets db.
Proof.
  intros Ht He.
  destruct (update_first_some _
              (settle failed (Some "Transaction abandoned or not completed") now)
              _ _ Ht) as [ts' Hts].
  exists (mkDB (wallets db) ts'). split; [|split; [|reflexivity]].
  - open_service. rewrite Ht, He, Hts. reflexivity.
  - now destruct (status_of_settled (wallets db) (wallets db) _ _ _ _ _ _ _ Ht Hts).
Qed.

Lemma poll_not_found_marks_failed_witness :
  status_of "dep_1000_u1"
    (snd (verifyDepositWithPaystack (P := demo_platform) "dep_1000_u1" 3000
            (inl (AxiosError (Some 404%N))) demo_settled_db))
  = Some failed.
Proof.
  destruct (poll_not_found_marks_failed (P := demo_platform) "dep_1000_u1" 3000
              (AxiosError (Some 404%N)) demo_settled_db
              (settle success (Some "Approved") 2000 pending_deposit)
              eq_refl eq_refl)
    as (db' & Hrun & Hs & _).
  rewrite Hrun. exact Hs.
Defined.

(** ** Wallets on demand *)

Lemma pick_walletNumber_exhausted clock random ws left attempts wn :
  (forall j, (attempts <= j < attempts + left)%nat -> taken ws (candidate clock random j)) ->
  snd (pick_walletNumber clock random left attempts wn ws) = (attempts + left)%nat.
Proof.
  revert attempts wn. induction left as [|left IH]; intros attempts wn Hall; cbn.
  - lia.
  - fold (candidate clock random attempts).
    destruct (find (by_walletNumber (candidate clock random attempts)) ws) eqn:E.
    + rewrite IH; [lia|]. intros j Hj. apply Hall. lia.
    + exfalso. apply (Hall attempts); [lia|exact E].
Qed.

Lemma pick_walletNumber_first_free clock random ws left attempts wn k :
  (attempts <= k < attempts + left)%nat ->
  (forall j, (attempts <= j < k)%nat -> taken ws (candidate clock random j)) ->
  find (by_walletNumber (candidate clock random k)) ws = None ->
  pick_walletNumber clock random left attempts wn ws = (candidate clock random k, k).
Proof.
  revert attempts wn. induction left as [|left IH]; intros attempts wn Hk Hbefore Hfree;
    [lia|].
  cbn. fold (candidate clock random attempts).
  destruct (find (by_walletNumber (candidate clock random attempts)) ws) eqn:E.
  - assert (attempts <> k) by (intros ->; congruence).
    apply IH; [lia| |exact Hfree]. intros j Hj. apply Hbefore. lia.
  - destruct (Nat.eq_dec attempts k) as [->|Hne]; [reflexivity|].
    exfalso. apply (Hbefore attempts); [lia|exact E].
Qed.

(** X4. The retry loop of [getOrCreateWallet], for a user who has no wallet:
    the wallet gets the first of the five candidate numbers that no wallet
    carries, with balance 0, and it is appended to the table; when all five
    candidates are taken the call throws "Failed to generate unique wallet
    number" and writes nothing. *)
Theorem getOrCreateWallet_retry_loop
  (u : string) (clock random : nat -> N) (db : DB) :
  find (by_userId u) (wallets db) = None ->
  (forall k,
     (k < 5)%nat ->
     (forall j, (j < k)%nat -> taken (wallets db) (candidate clock random j)) ->
     find (by_walletNumber (candidate clock random k)) (wallets db) = None ->
     getOrCreateWallet u clock random db
     = (inr (mkWallet u (candidate clock random k) 0),
        mkDB (wallets db ++ [mkWallet u (candidate clock random k) 0])
          (transactions db)))
  /\ ((forall j, (j < 5)%nat -> taken (wallets db) (candidate clock random j)) ->
      getOrCreateWallet u clock random db
      = (inl (BadRequestException "Failed to generate unique wallet number"), db)).
Proof.
  intros Hnone. split.
  - intros k Hk Hbefore Hfree.
    unfold getOrCreateWallet, bind, wallet_findUnique. rewrite Hnone.
    rewrite (pick_walletNumber_first_free clock random (wallets db) maxAttempts 0 ""
               k); [|unfold maxAttempts; lia|intros j Hj; apply Hbefore; lia|exact Hfree].
    replace (Nat.eqb k maxAttempts) with false
      by (symmetry; apply Nat.eqb_neq; unfold maxAttempts; lia).
    unfold wallet_create. cbn [userId walletNumber].
    replace (existsb _ (wallets db)) with false; [reflexivity|].
    symmetry. apply not_true_is_false. intros Hex.
    apply existsb_exists in Hex. destruct Hex as (x & Hin & Hx).
    apply orb_true_iff in Hx. destruct Hx as [Hx|Hx].
    + eapply find_none in Hnone; eauto. congruence.
    + eapply find_none in Hfree; eauto. congruence.
  - intros Hall.
    unfold getOrCreateWallet, bind, wallet_findUnique. rewrite Hnone.
    pose proof (pick_walletNumber_exhausted clock random (wallets db) maxAttempts 0 ""
                  (fun j Hj => Hall j (proj2 Hj))) as Hpick.
    destruct (pick_walletNumber clock random maxAttempts 0 "" (wallets db))
      as [n attempts]. cbn in Hpick. subst attempts. reflexivity.
Qed.

Lemma getOrCreateWallet_retry_loop_witness :
  getOrCreateWallet "u2" crowded_clock demo_random crowded_db
  = (inr (mkWallet "u2" "000000000307" 0),
     mkDB (wallets crowded_db ++ [mkWallet "u2" "000000000307" 0]) []).
Proof.
  destruct (getOrCreateWallet_retry_loop "u2" crowded_clock demo_random crowded_db
              eq_refl) as [Hfirst _].
  apply (Hfirst 2%nat); [lia| |reflexivity].
  intros j Hj. assert (j = 0 \/ j = 1)%nat as [->| ->] by lia; vm_compute; discriminate.
Defined.

Lemma find_snoc_hit {A} (p : A -> bool) l x :
  find p l = None -> p x = true -> find p (l ++ [x]) = Some x.
Proof.
  intros Hn Hx. rewrite (find_app_none _ _ _ Hn). cbn. now rewrite Hx.
Qed.

Lemma find_snoc_miss {A} (p : A -> bool) l x :
  p x = false -> find p (l ++ [x]) = find p l.
Proof.
  intros Hx. induction l as [|a l IH]; cbn.
  - now rewrite Hx.
  - destruct (p a); [reflexivity|exact IH].
Qed.

(** X5. Looking a wallet up after it was handed out: once
    [getOrCreateWallet] has returned a wallet for a user, every later call for
    that user, whatever the clock and the random numbers, returns the very same
    wallet and writes nothing, [getBalance] reports its balance and number, and
    the call that handed it out left the wallets of all other users as they
    were. *)
Theorem getOrCreateWallet_lookup_round_trip
  (u : string) (clock random clock' random' : nat -> N) (db db1 : DB) (w : Wallet) :
  getOrCreateWallet u clock random db = (inr w, db1) ->
  userId w = u
  /\ find (by_userId u) (wallets db1) = Some w
  /\ getOrCreateWallet u clock' random' db1 = (inr w, db1)
  /\ getBalance u clock' random' db1
     = (inr (mkBalanceResult (balance w) (walletNumber w)), db1)
  /\ (forall v, v <> u ->
        find (by_userId v) (wallets db1) = find (by_userId v) (wallets db)).
Proof.
  intros Hrun.
  destruct (getOrCreateWallet_runs u clock random db) as [_ Hcases].
  cbv zeta in Hcases. rewrite Hrun in Hcases.
  assert (Hfound : find (by_userId u) (wallets db1) = Some w
                   /\ forall v, v <> u ->
                        find (by_userId v) (wallets db1) = find (by_userId v) (wallets db)).
  { destruct Hcases as [(w0 & Hw0 & E)|[(_ & E)|[(_ & n & e0 & E & _)|(Hn & n & E)]]];
      try discriminate.
    - injection E as -> ->. auto.
    - injection E as -> ->. cbn [wallets]. split.
      + apply find_snoc_hit; [exact Hn|]. unfold by_userId. cbn.
        apply String.eqb_refl.
      + intros v Hv. apply find_snoc_miss. unfold by_userId. cbn.
        apply String.eqb_neq. congruence. }
  destruct Hfound as [Hw Hothers].
  assert (Hagain : getOrCreateWallet u clock' random' db1 = (inr w, db1)).
  { unfold getOrCreateWallet, bind, wallet_findUnique. now rewrite Hw. }
  split; [now apply find_by_userId in Hw|]. split; [exact Hw|].
  split; [exact Hagain|]. split; [|exact Hothers].
  unfold getBalance, bind at 1. now rewrite Hagain.
Qed.

Lemma getOrCreateWallet_lookup_round_trip_witness :
  getBalance "u1" crowded_clock demo_random
    (snd (getOrCreateWallet "u1" demo_clock demo_random empty_db))
  = (inr (mkBalanceResult 0 "000000012307"),
     snd (getOrCreateWallet "u1" demo_clock demo_random empty_db)).
Proof.
  destruct (getOrCreateWallet_lookup_round_trip "u1" demo_clock demo_random
              crowded_clock demo_random empty_db
              (snd (getOrCreateWallet "u1" demo_clock demo_random empty_db))
              (mkWallet "u1" "000000012307" 0) eq_refl)
    as (_ & _ & _ & Hbalance & _).
  exact Hbalance.
Defined.

(** ** When a transfer goes through *)

(** X6. [transfer] returns (rather than throws) exactly when the amount is
    positive, the recipient number and the sender's wallet exist, the sender's
    balance covers the amount, and either a successful row already carries the
    idempotency key or the transfer is to another user and neither of its two
    references is in use. *)
Theorem transfer_returns_exactly_when
  {P : Platform} (fromUserId toWalletNumber : string) (amt : Q) (now : N) (db : DB) :
  (exists r, fst (transfer fromUserId toWalletNumber amt now db) = inr r)
  <-> (0 < amt
       /\ exists X Y,
            find (by_userId fromUserId) (wallets db) = Some X
            /\ find (by_walletNumber toWalletNumber) (wallets db) = Some Y
            /\ amt <= balance X
            /\ (find (completed_with_key (idempotencyKey fromUserId toWalletNumber amt))
                     (transactions db) <> None
                \/ (userId Y <> fromUserId
                    /\ find (by_reference (transfer_reference now fromUserId))
                            (transactions db) = None
                    /\ find (by_reference (transfer_reference now (userId Y)))
                            (transactions db) = None))).
Proof.
  pose proof (transfer_runs fromUserId toWalletNumber amt now db) as R.
  split.
  - intros [r Hr].
    destruct (transfer fromUserId toWalletNumber amt now db) as [res db'].
    cbn in Hr. subst res. remember (inr r, db') as out eqn:E.
    destruct R as [e He | X Y t HX HY Hpos Hle Hdup
                  | X Y ws1 ws2 HX HY Hpos Hle Hdup Hne Hw1 Hw2 Hs Hr];
      try discriminate.
    + split; [exact Hpos|]. exists X, Y. repeat split; auto. left. congruence.
    + split; [exact Hpos|]. exists X, Y. repeat split; auto.
  - intros (Hpos & X & Y & HX & HY & Hle & Hok).
    destruct (transfer fromUserId toWalletNumber amt now db) as [res db'].
    remember (res, db') as out eqn:E.
    destruct R as [e He | X0 Y0 t HX0 HY0 Hpos0 Hle0 Hdup
                  | X0 Y0 ws1 ws2 HX0 HY0 Hpos0 Hle0 Hdup Hne Hw1 Hw2 Hs Hr];
      injection E as <- <-; cbn; eauto.
    exfalso. destruct He; same_row; try order_clash.
    destruct Hok as [Hk|(Hne & Hs & Hr)]; [contradiction|].
    match goal with H : _ \/ _ \/ _ |- _ => destruct H as [H|[H|H]]; contradiction end.
Qed.

(** ** The wallets after [initiateDeposit] *)

Lemma initiateDeposit_wallets this u a email clock random now gateway db :
  wallets (snd (initiateDeposit this u a email clock random now gateway db))
  = wallets (snd (getOrCreateWallet u clock random db)).
Proof.
  unfold initiateDeposit, bind at 1.
  destruct (getOrCreateWallet u clock random db) as [[e|w] db0]; [reflexivity|].
  unfold try_catch, bind, axios_post, transaction_create, ret, throw.
  destruct (gateway _) as [e'|response]; [reflexivity|].
  destruct (existsb _ (transactions db0)); reflexivity.
Qed.

(** ** The unique indexes *)

Lemma map_update_first {A B} (key : A -> B) p f l l' :
  (forall x, key (f x) = key x) ->
  update_first p f l = Some l' -> map key l' = map key l.
Proof.
  intros Hk. revert l'. induction l as [|a l IH]; cbn; intros l' Hu; [discriminate|].
  destruct (p a).
  - injection Hu as <-. cbn. now rewrite Hk.
  - destruct (update_first p f l) as [r|]; [|discriminate].
    injection Hu as <-. cbn. now rewrite (IH r eq_refl).
Qed.

Lemma NoDup_snoc {B} (l : list B) x : NoDup l -> ~ In x l -> NoDup (l ++ [x]).
Proof.
  intros Hl Hx. induction Hl as [|y l Hy Hl IH]; cbn.
  - constructor; [intros []|constructor].
  - constructor.
    + rewrite in_app_iff. cbn. intros [H|[H|[]]]; [contradiction|].
      subst. apply Hx. now left.
    + apply IH. intros H. apply Hx. now right.
Qed.

Lemma existsb_false_not_in {A} (key : A -> string) k l :
  existsb (fun x => String.eqb (key x) k) l = false -> ~ In k (map key l).
Proof.
  intros He Hin. apply in_map_iff in Hin. destruct Hin as (x & Hk & Hin).
  assert (existsb (fun x => String.eqb (key x) k) l = true).
  { apply existsb_exists. exists x. split; [exact Hin|]. now apply String.eqb_eq. }
  congruence.
Qed.

Lemma unique_wallets_update p (f : Wallet -> Wallet) ws ws' :
  (forall x, userId (f x) = userId x) ->
  (forall x, walletNumber (f x) = walletNumber x) ->
  unique_wallets ws -> update_first p f ws = Some ws' -> unique_wallets ws'.
Proof.
  intros Hfu Hfn [Hu Hn] Hup. unfold unique_wallets.
  rewrite (map_update_first userId _ _ _ _ Hfu Hup).
  rewrite (map_update_first walletNumber _ _ _ _ Hfn Hup).
  now split.
Qed.

Lemma unique_wallets_add ws w :
  unique_wallets ws ->
  existsb (fun x => by_userId (userId w) x || by_walletNumber (walletNumber w) x) ws
  = false ->
  unique_wallets (ws ++ [w]).
Proof.
  intros [Hu Hn] He. unfold unique_wallets. rewrite !map_app. cbn.
  split; apply NoDup_snoc; auto.
  - apply existsb_false_not_in.
    apply not_true_is_false. intros Ht.
    apply existsb_exists in Ht. destruct Ht as (x & Hin & Hx).
    assert (existsb (fun x => by_userId (userId w) x || by_walletNumber (walletNumber w) x)
              ws = true).
    { apply existsb_exists. exists x. split; [exact Hin|].
      unfold by_userId. now rewrite Hx. }
    congruence.
  - apply existsb_false_not_in.
    apply not_true_is_false. intros Ht.
    apply existsb_exists in Ht. destruct Ht as (x & Hin & Hx).
    assert (existsb (fun x => by_userId (userId w) x || by_walletNumber (walletNumber w) x)
              ws = true).
    { apply existsb_exists. exists x. split; [exact Hin|].
      unfold by_walletNumber. rewrite Hx. apply orb_true_r. }
    congruence.
Qed.

Lemma unique_references_settle p s g now ts ts' :
  unique_references ts -> update_first p (settle s g now) ts = Some ts' ->
  unique_references ts'.
Proof.
  unfold unique_references. intros H Hu.
  now rewrite (map_update_first reference p (settle s g now) ts ts'
                 (fun x => eq_refl) Hu).
Qed.

Lemma unique_references_add ts t :
  unique_references ts -> existsb (by_reference (reference t)) ts = false ->
  unique_references (ts ++ [t]).
Proof.
  unfold unique_references. intros H He. rewrite map_app. cbn.
  apply NoDup_snoc; auto. now apply existsb_false_not_in.
Qed.

Ltac integrity_leaf :=
  cbn [snd fst wallets transactions] in *;
  first
    [ assumption
    | split; cbn [wallets transactions];
      repeat first
        [ assumption
        | eapply unique_wallets_add; [|eassumption]
        | eapply unique_wallets_update; [| | |eassumption];
          [reflexivity|reflexivity|]
        | eapply unique_references_add; [|eassumption]
        | eapply unique_references_settle; [|eassumption] ] ].

Lemma getOrCreateWallet_integrity u clock random db :
  integrity db -> integrity (snd (getOrCreateWallet u clock random db)).
Proof.
  intros H. pose proof H as [Hw Ht]. open_service.
  repeat split_run; integrity_leaf.
Qed.

Lemma initiateDeposit_integrity this u a email clock random now gateway db :
  integrity db ->
  integrity (snd (initiateDeposit this u a email clock random now gateway db)).
Proof.
  intros H. unfold initiateDeposit, bind at 1.
  pose proof (getOrCreateWallet_integrity u clock random db H) as H0.
  destruct (getOrCreateWallet u clock random db) as [[e|w] db0]; [exact H0|].
  cbn [snd] in H0. clear H. pose proof H0 as [Hw Ht]. open_service.
  repeat split_run; integrity_leaf.
Qed.

Lemma handleWebhook_integrity {P : Platform} event data now db :
  integrity db -> integrity (snd (handleWebhook event data now db)).
Proof.
  intros H. pose proof H as [Hw Ht]. open_service.
  repeat split_run; integrity_leaf.
Qed.

Lemma verifyDepositWithPaystack_integrity {P : Platform} ref now reply db :
  integrity db -> integrity (snd (verifyDepositWithPaystack ref now reply db)).
Proof.
  intros H. pose proof H as [Hw Ht]. open_service.
  repeat split_run; integrity_leaf.
Qed.

Lemma find_none_not_in r ts :
  find (by_reference r) ts = None -> ~ In r (map reference ts).
Proof.
  intros H. apply existsb_false_not_in with (key := reference).
  now apply find_none_existsb in H.
Qed.

Lemma transfer_reference_inj now u v :
  transfer_reference now u = transfer_reference now v -> u = v.
Proof.
  unfold transfer_reference. generalize (string_of_N now). intros s E.
  cbn in E. injection E as E. revert E.
  induction s as [|c s IH]; cbn; intros E; [now injection E|].
  injection E as E. auto.
Qed.

Lemma transfer_integrity {P : Platform} from to amt now db :
  integrity db -> integrity (snd (transfer from to amt now db)).
Proof.
  intros H. pose proof H as [Hw Ht].
  destruct (transfer_runs from to amt now db)
    as [e He | X Y t HX HY Hpos Hle Hdup
       | X Y ws1 ws2 HX HY Hpos Hle Hdup Hne Hw1 Hw2 Hs Hr]; cbn [snd]; auto.
  split; cbn [wallets transactions].
  - eapply unique_wallets_update; [| | |exact Hw2]; try reflexivity.
    eapply unique_wallets_update; [| | |exact Hw1]; try reflexivity. exact Hw.
  - replace (transactions db
             ++ [transfer_out_row from to amt now; transfer_in_row from to amt now Y X])%list
      with ((transactions db ++ [transfer_out_row from to amt now])
            ++ [transfer_in_row from to amt now Y X])%list
      by (now rewrite <- app_assoc).
    apply unique_references_add; [apply unique_references_add|].
    + exact Ht.
    + now apply find_none_existsb.
    + rewrite existsb_app. cbn [existsb reference transfer_in_row transfer_out_row].
      rewrite (find_none_existsb _ _ Hr). cbn [orb]. rewrite orb_false_r.
      unfold by_reference. cbn [reference]. apply String.eqb_neq.
      intros E. apply transfer_reference_inj in E. congruence.
Qed.

(** X8. The unique indexes hold along every execution: if no two wallets
    share a user or a number and no two transactions share a reference, the
    same is true after any sequence of operations. *)
Theorem integrity_is_kept
  {P : Platform} (this : WalletService) (ops : list Op) (db : DB) :
  integrity db -> integrity (run_ops this ops db).
Proof.
  revert db. induction ops as [|op ops IH]; intros db H; cbn; [exact H|].
  apply IH. destruct op; cbn [run_op].
  - now apply getOrCreateWallet_integrity.
  - now apply initiateDeposit_integrity.
  - now apply handleWebhook_integrity.
  - now apply verifyDepositWithPaystack_integrity.
  - now apply transfer_integrity.
Qed.

Lemma integrity_is_kept_witness :
  integrity (run_ops (P := demo_platform) demo_service demo_ops demo_pending_db).
Proof.
  apply (integrity_is_kept (P := demo_platform)).
  repeat split; cbn; repeat constructor; cbn; intuition discriminate.
Defined.

(** ** Rows are written once *)

Section Kept.

Context {A : Type} (R : A -> A -> Prop).
Hypothesis R_refl : forall x, R x x.
Hypothesis R_trans : forall x y z, R x y -> R y z -> R x z.

Lemma Forall2_same (l : list A) : Forall2 R l l.
Proof. induction l; constructor; auto. Qed.

Lemma kept_refl l : kept R l l.
Proof. exists l, []. split; [now rewrite app_nil_r|apply Forall2_same]. Qed.

Lemma kept_more l new : kept R l (l ++ new).
Proof. exists l, new. split; [reflexivity|apply Forall2_same]. Qed.

Lemma kept_update_first p f l l' :
  (forall x, R x (f x)) -> update_first p f l = Some l' -> kept R l l'.
Proof.
  intros Hf Hu. exists l', []. split; [now rewrite app_nil_r|].
  revert l' Hu. induction l as [|a l IH]; cbn; intros l' Hu; [discriminate|].
  destruct (p a).
  - injection Hu as <-. constructor; [apply Hf|apply Forall2_same].
  - destruct (update_first p f l) as [r|]; [|discriminate].
    injection Hu as <-. constructor; auto.
Qed.

Lemma Forall2_trans (l1 l2 l3 : list A) :
  Forall2 R l1 l2 -> Forall2 R l2 l3 -> Forall2 R l1 l3.
Proof.
  intros H. revert l3. induction H; intros l3 H3; inversion H3; subst;
    constructor; eauto.
Qed.

Lemma kept_trans l1 l2 l3 : kept R l1 l2 -> kept R l2 l3 -> kept R l1 l3.
Proof.
  intros (a & b & -> & Hab) (c & d & -> & Hcd).
  apply Forall2_app_inv_l in Hcd. destruct Hcd as (c1 & c2 & Hc1 & Hc2 & ->).
  exists c1, (c2 ++ d)%list. split; [now rewrite app_assoc|].
  eapply Forall2_trans; eauto.
Qed.

Lemma kept_find (q : A -> bool) l l' x :
  (forall y z, R y z -> q z = q y) ->
  kept R l l' -> find q l = Some x ->
  exists x', find q l' = Some x' /\ R x x'.
Proof.
  intros Hq (l1 & l2 & -> & H12) Hx.
  assert (H : exists x', find q l1 = Some x' /\ R x x').
  { revert Hx. induction H12 as [|a b l l1 Hab H12 IH]; cbn; [discriminate|].
    rewrite (Hq a b Hab). destruct (q a).
    - intros E. injection E as <-. eauto.
    - exact IH. }
  destruct H as (x' & Hx' & HR). exists x'. split; [|exact HR].
  now apply find_app_some.
Qed.

End Kept.

Lemma same_entry_refl t : same_entry t t.
Proof. repeat split. Qed.

Lemma same_entry_trans t1 t2 t3 : same_entry t1 t2 -> same_entry t2 t3 -> same_entry t1 t3.
Proof. unfold same_entry. intuition congruence. Qed.

Lemma same_wallet_refl w : same_wallet w w.
Proof. now split. Qed.

Lemma same_wallet_trans w1 w2 w3 : same_wallet w1 w2 -> same_wallet w2 w3 -> same_wallet w1 w3.
Proof. unfold same_wallet. intuition congruence. Qed.

Lemma kept_settle p s g now ts ts' :
  update_first p (settle s g now) ts = Some ts' -> kept same_entry ts ts'.
Proof.
  apply kept_update_first; [apply same_entry_refl|]. intros x. repeat split.
Qed.

Lemma kept_credited {P : Platform} u a ws ws' :
  credited u a ws ws' -> kept same_wallet ws ws'.
Proof.
  intros [Hu|[_ ->]].
  - eapply kept_update_first; eauto using same_wallet_refl. intros x. now split.
  - apply kept_more, same_wallet_refl.
Qed.

Lemma run_op_keeps_rows {P : Platform} this op db :
  kept same_entry (transactions db) (transactions (run_op this op db))
  /\ kept same_wallet (wallets db) (wallets (run_op this op db)).
Proof.
  pose proof (kept_refl same_entry same_entry_refl) as Te.
  pose proof (kept_refl same_wallet same_wallet_refl) as Tw.
  destruct op; cbn [run_op].
  - destruct (getOrCreateWallet_runs userId0 clock random db) as [-> Hcases].
    cbv zeta in Hcases. split; [apply Te|].
    destruct Hcases as [(w0 & _ & ->)|[(_ & ->)|[(_ & n & e0 & -> & _)|(_ & n & ->)]]];
      cbn [snd wallets]; auto.
    apply kept_more, same_wallet_refl.
  - split.
    + destruct (initiateDeposit_transactions this userId0 amount0 email clock random
                  now gateway db) as [->|[row ->]]; [apply Te|].
      apply kept_more, same_entry_refl.
    + rewrite initiateDeposit_wallets.
      destruct (getOrCreateWallet_runs userId0 clock random db) as [_ Hcases].
      cbv zeta in Hcases.
      destruct Hcases as [(w0 & _ & ->)|[(_ & ->)|[(_ & n & e0 & -> & _)|(_ & n & ->)]]];
        cbn [snd wallets]; auto.
      apply kept_more, same_wallet_refl.
  - destruct (handleWebhook_runs event data now db)
      as [Hpre | Hpre Ht | t Hpre Ht Hs | t ts' Hpre Ht Hs Hno Hts
         | t ts' ws' Ht Hs He Hd Hts Hws | t Ht Hs He Hd Hw];
      cbn [snd wallets transactions]; auto;
      split; eauto using kept_settle, kept_credited.
  - destruct (verifyDepositWithPaystack_runs ref now reply db)
      as [reply Ht | t d Ht Hs | t d ts' ws' Ht Hs Hd Hts Hws
         | t d Ht Hs Hd Hw | t d ts' Ht Hs Hd Hts
         | t e ts' Ht H404 Hts | t e Ht H404];
      cbn [snd wallets transactions]; auto;
      split; eauto using kept_settle, kept_credited.
  - destruct (transfer_runs fromUserId toWalletNumber amount0 now db)
      as [e He | X Y t HX HY Hpos Hle Hdup
         | X Y ws1 ws2 HX HY Hpos Hle Hdup Hne Hw1 Hw2 Hs Hr];
      cbn [snd wallets transactions]; auto.
    split; [apply kept_more, same_entry_refl|].
    apply (kept_trans same_wallet same_wallet_trans _ ws1).
    + eapply kept_update_first; eauto using same_wallet_refl. intros x. now split.
    + eapply kept_update_first; eauto using same_wallet_refl. intros x. now split.
Qed.

Lemma run_ops_keep_rows {P : Platform} this ops db :
  kept same_entry (transactions db) (transactions (run_ops this ops db))
  /\ kept same_wallet (wallets db) (wallets (run_ops this ops db)).
Proof.
  revert db. induction ops as [|op ops IH]; intros db; cbn.
  - split; [apply kept_refl, same_entry_refl|apply kept_refl, same_wallet_refl].
  - destruct (run_op_keeps_rows this op db) as [T1 W1].
    destruct (IH (run_op this op db)) as [T2 W2]. split.
    + eapply kept_trans; eauto using same_entry_trans.
    + eapply kept_trans; eauto using same_wallet_trans.
Qed.

(** X9. Nothing is deleted and the ledger is written once. Along every
    execution a Transaction row found under a reference is still found under
    it, with the same user, amount, type, gateway handle and metadata (only
    status, gateway response and completion time can differ); a wallet found
    under a user, or under a number, is still found under it, with the same
    owner and number. *)
Theorem rows_are_written_once
  {P : Platform} (this : WalletService) (ops : list Op) (db : DB) :
  (forall r t,
     find (by_reference r) (transactions db) = Some t ->
     exists t',
       find (by_reference r) (transactions (run_ops this ops db)) = Some t'
       /\ same_entry t t')
  /\ (forall u w,
        find (by_userId u) (wallets db) = Some w ->
        exists w',
          find (by_userId u) (wallets (run_ops this ops db)) = Some w'
          /\ same_wallet w w')
  /\ (forall n w,
        find (by_walletNumber n) (wallets db) = Some w ->
        exists w',
          find (by_walletNumber n) (wallets (run_ops this ops db)) = Some w'
          /\ same_wallet w w').
Proof.
  destruct (run_ops_keep_rows this ops db) as [T W].
  split; [|split].
  - intros r t Ht. eapply kept_find; eauto.
    intros y z (Hr & _). unfold by_reference. now rewrite Hr.
  - intros u w Hw. eapply kept_find; eauto.
    intros y z (Hu & _). unfold by_userId. now rewrite Hu.
  - intros n w Hw. eapply kept_find; eauto.
    intros y z (_ & Hn). unfold by_walletNumber. now rewrite Hn.
Qed.

(** ** What a settlement leaves alone *)

Lemma by_reference_false r t : reference t <> r -> by_reference r t = false.
Proof. intros H. now apply String.eqb_neq. Qed.

Lemma settle_frame ref s g now ts ts' t r :
  find (by_reference ref) ts = Some t ->
  update_first (by_reference ref) (settle s g now) ts = Some ts' ->
  r <> ref ->
  find (by_reference r) ts' = find (by_reference r) ts.
Proof.
  intros Ht Hu Hr.
  apply find_update_first_miss with (p := by_reference ref) (f := settle s g now);
    auto.
  intros x Hx. rewrite Ht in Hx. injection Hx as <-.
  apply by_reference_false. apply find_by_reference in Ht. congruence.
Qed.

Lemma credited_frame {P : Platform} u a ws ws' v :
  credited u a ws ws' -> v <> u -> find (by_userId v) ws' = find (by_userId v) ws.
Proof.
  intros [Hu|[_ ->]] Hv.
  - apply find_update_first_miss with (p := by_userId u) (f := increment a); auto.
    intros x Hx. apply by_userId_false. apply find_by_userId in Hx. congruence.
  - apply find_snoc_miss. apply by_userId_false. cbn. congruence.
Qed.

(** X10. A settlement touches one transaction and one wallet. After
    [handleWebhook], and after [verifyDepositWithPaystack] whatever the gateway
    replied, every transaction other than the one named is exactly as it was,
    and so is the wallet of every user other than the owner of the named
    transaction; when no transaction has the reference, nothing changes at
    all. *)
Theorem settlement_frame {P : Platform} (db : DB) (now : N) :
  (forall event data,
     (forall r, r <> wd_reference data ->
        find (by_reference r) (transactions (snd (handleWebhook event data now db)))
        = find (by_reference r) (transactions db))
     /\ (forall t v,
           find (by_reference (wd_reference data)) (transactions db) = Some t ->
           v <> tx_userId t ->
           find (by_userId v) (wallets (snd (handleWebhook event data now db)))
           = find (by_userId v) (wallets db))
     /\ (find (by_reference (wd_reference data)) (transactions db) = None ->
         snd (handleWebhook event data now db) = db))
  /\ (forall ref reply,
        (forall r, r <> ref ->
           find (by_reference r)
                (transactions (snd (verifyDepositWithPaystack ref now reply db)))
           = find (by_reference r) (transactions db))
        /\ (forall t v,
              find (by_reference ref) (transactions db) = Some t ->
              v <> tx_userId t ->
              find (by_userId v)
                   (wallets (snd (verifyDepositWithPaystack ref now reply db)))
              = find (by_userId v) (wallets db))
        /\ (find (by_reference ref) (transactions db) = None ->
            snd (verifyDepositWithPaystack ref now reply db) = db)).
Proof.
  split.
  - intros event data.
    destruct (handleWebhook_runs event data now db)
      as [Hpre | Hpre Ht | t Hpre Ht Hs | t ts' Hpre Ht Hs Hno Hts
         | t ts' ws' Ht Hs He Hd Hts Hws | t Ht Hs He Hd Hw];
      cbn [snd wallets transactions];
      (split; [intros r Hr|split; [intros t0 v Ht0 Hv|intros Hnone]]);
      try reflexivity; try congruence;
      try (eapply settle_frame; eauto; fail).
    rewrite Ht in Ht0. injection Ht0 as <-. eapply credited_frame; eauto.
  - intros ref reply.
    destruct (verifyDepositWithPaystack_runs ref now reply db)
      as [reply Ht | t d Ht Hs | t d ts' ws' Ht Hs Hd Hts Hws
         | t d Ht Hs Hd Hw | t d ts' Ht Hs Hd Hts
         | t e ts' Ht H404 Hts | t e Ht H404];
      cbn [snd wallets transactions];
      (split; [intros r Hr|split; [intros t0 v Ht0 Hv|intros Hnone]]);
      try reflexivity; try congruence;
      try (eapply settle_frame; eauto; fail).
    rewrite Ht in Ht0. injection Ht0 as <-. eapply credited_frame; eauto.
Qed.

(** X11. The two settlement paths agree. For a pending transaction, a
    verification poll that the gateway answers with status [success] leaves
    exactly the database that the [charge.success] webhook with the same
    amount and gateway response leaves; with any other status, both mark the
    transaction [failed] and neither touches a wallet. *)
Theorem poll_and_webhook_agree
  {P : Platform} (ref : string) (kobo : Q) (g : option string) (now : N)
  (db : DB) (t : Transaction) :
  find (by_reference ref) (transactions db) = Some t ->
  status t = pending ->
  snd (verifyDepositWithPaystack ref now (inr (mkVerifyData "success" kobo g)) db)
  = snd (handleWebhook "charge.success" (mkWebhookData ref kobo "success" g) now db)
  /\ forall s,
       s <> "success" ->
       let polled := snd (verifyDepositWithPaystack ref now
                            (inr (mkVerifyData s kobo g)) db) in
       let notified := snd (handleWebhook "charge.success"
                              (mkWebhookData ref kobo s g) now db) in
       status_of ref polled = Some failed /\ status_of ref notified = Some failed
       /\ wallets polled = wallets db /\ wallets notified = wallets db.
Proof.
  intros Ht Hp. split.
  - unfold handleWebhook.
    replace (prefix "charge." "charge.success") with true by reflexivity.
    open_service. cbn [negb wd_reference wd_status wd_amount wd_gateway_response
                         vd_status vd_amount vd_gateway_response].
    rewrite Ht, Hp. cbn [TxStatus_eqb is_terminal orb].
    replace (String.eqb "charge.success" "charge.success") with true by reflexivity.
    replace (String.eqb "success" "success") with true by reflexivity. cbn [andb].
    destruct (update_first _ _ (transactions db)) as [ts'|]; [|reflexivity].
    cbn [wallets transactions].
    destruct (find _ (wallets db)) as [w|].
    + destruct (update_first _ _ (wallets db)); reflexivity.
    + destruct (existsb _ (wallets db)); reflexivity.
  - intros s Hs. cbv zeta.
    pose proof (verifyDepositWithPaystack_runs ref now (inr (mkVerifyData s kobo g)) db)
      as R1.
    pose proof (handleWebhook_runs "charge.success" (mkWebhookData ref kobo s g) now db)
      as R2.
    remember (inr (mkVerifyData s kobo g)) as reply eqn:Er.
    destruct R1 as [reply Ht1 | t1 d Ht1 Hs1 | t1 d ts1 ws1 Ht1 Hs1 Hd1 Hts1 Hws1
                   | t1 d Ht1 Hs1 Hd1 Hw1 | t1 d ts1 Ht1 Hs1 Hd1 Hts1
                   | t1 e ts1 Ht1 H404 Hts1 | t1 e Ht1 H404];
      try discriminate; try injection Er as ->; cbn [vd_status] in *;
      try congruence.
    destruct R2 as [Hpre | Hpre Ht2 | t2 Hpre Ht2 Hs2 | t2 ts2 Hpre Ht2 Hs2 Hno Hts2
                   | t2 ts2 ws2 Ht2 Hs2 He Hd2 Hts2 Hws2 | t2 Ht2 Hs2 He Hd2 Hw2];
      cbn [wd_reference wd_status] in *; try discriminate; try congruence.
    cbn [snd wallets].
    destruct (status_of_settled (wallets db) (wallets db) _ _ _ _ _ _ _ Ht1 Hts1)
      as [H1 _].
    destruct (status_of_settled (wallets db) (wallets db) _ _ _ _ _ _ _ Ht2 Hts2)
      as [H2 _].
    auto.
Qed.

Lemma poll_and_webhook_agree_witness :
  snd (verifyDepositWithPaystack (P := demo_platform) "dep_1000_u1" 2000
         (inr (mkVerifyData "success" 5000 (Some "Approved"))) demo_pending_db)
  = demo_settled_db.
Proof.
  exact (proj1 (poll_and_webhook_agree (P := demo_platform) "dep_1000_u1" 5000
                  (Some "Approved") 2000 demo_pending_db pending_deposit
                  eq_refl eq_refl)).
Defined.

(** ** The shape of a wallet number *)

Lemma length_string_of_uint d :
  String.length (NilEmpty.string_of_uint d) = Decimal.nb_digits d.
Proof. induction d; cbn; congruence. Qed.

Lemma all_digits_string_of_uint d : all_digits (NilEmpty.string_of_uint d) = true.
Proof. induction d; cbn; auto. Qed.

Lemma of_uint_acc_bound d acc :
  (N.pos (Pos.of_uint_acc d acc)
   < (N.pos acc + 1) * 10 ^ N.of_nat (Decimal.nb_digits d))%N.
Proof.
  revert acc. induction d as [|d IH|d IH|d IH|d IH|d IH|d IH|d IH|d IH|d IH|d IH];
    intros acc; cbn [Pos.of_uint_acc Decimal.nb_digits];
    [cbn; lia| | | | | | | | | | ];
    rewrite Nat2N.inj_succ, N.pow_succ_r';
    (eapply N.lt_le_trans; [apply IH|]);
    assert (0 < 10 ^ N.of_nat (Decimal.nb_digits d))%N
      by (apply N.neq_0_lt_0, N.pow_nonzero; lia);
    nia.
Qed.

Lemma of_uint_bound d :
  (Pos.of_uint d < 10 ^ N.of_nat (Decimal.nb_digits d))%N.
Proof.
  induction d as [|d IH|d IH|d IH|d IH|d IH|d IH|d IH|d IH|d IH|d IH];
    cbn [Pos.of_uint Decimal.nb_digits];
    [cbn; lia| | | | | | | | | | ];
    rewrite Nat2N.inj_succ, N.pow_succ_r';
    assert (0 < 10 ^ N.of_nat (Decimal.nb_digits d))%N
      by (apply N.neq_0_lt_0, N.pow_nonzero; lia);
    try (pose proof (of_uint_acc_bound d 1); pose proof (of_uint_acc_bound d 2);
         pose proof (of_uint_acc_bound d 3); pose proof (of_uint_acc_bound d 4);
         pose proof (of_uint_acc_bound d 5); pose proof (of_uint_acc_bound d 6);
         pose proof (of_uint_acc_bound d 7); pose proof (of_uint_acc_bound d 8);
         pose proof (of_uint_acc_bound d 9)); nia.
Qed.

Lemma string_of_N_digits n : all_digits (string_of_N n) = true.
Proof.
  unfold string_of_N, NilZero.string_of_uint.
  destruct (N.to_uint n) as [|d|d|d|d|d|d|d|d|d|d]; [reflexivity|..];
    match goal with
    | |- all_digits (NilEmpty.string_of_uint ?u) = true =>
        exact (all_digits_string_of_uint u)
    end.
Qed.

Lemma length_string_of_N n :
  (10 ^ 9 <= n)%N -> (10 <= String.length (string_of_N n))%nat.
Proof.
  intros Hn. unfold string_of_N.
  pose proof (of_uint_bound (N.to_uint n)) as Hb.
  change (Pos.of_uint (N.to_uint n)) with (N.of_uint (N.to_uint n)) in Hb.
  rewrite DecimalN.Unsigned.of_to in Hb.
  assert (Hd : (10 <= Decimal.nb_digits (N.to_uint n))%nat).
  { destruct (Nat.le_gt_cases 10 (Decimal.nb_digits (N.to_uint n))) as [H|H]; [exact H|].
    exfalso.
    assert (10 ^ N.of_nat (Decimal.nb_digits (N.to_uint n)) <= 10 ^ 9)%N
      by (apply N.pow_le_mono_r; lia).
    lia. }
  unfold NilZero.string_of_uint.
  destruct (N.to_uint n) as [|d|d|d|d|d|d|d|d|d|d]; [cbn in Hd; lia|..];
    match goal with
    | |- (10 <= String.length (NilEmpty.string_of_uint ?u))%nat =>
        rewrite (length_string_of_uint u); exact Hd
    end.
Qed.

Lemma length_substring n m s :
  (n + m <= String.length s)%nat -> String.length (substring n m s) = m.
Proof.
  revert n m. induction s as [|c s IH]; intros n m H; cbn in H.
  - assert (n = 0 /\ m = 0)%nat as [-> ->] by lia. reflexivity.
  - destruct n as [|n]; cbn.
    + destruct m as [|m]; [reflexivity|]. cbn. f_equal.
      apply (IH 0%nat m). cbn. lia.
    + apply IH. lia.
Qed.

Lemma all_digits_substring n m s :
  all_digits s = true -> all_digits (substring n m s) = true.
Proof.
  revert n m. induction s as [|c s IH]; intros n m H.
  - destruct n, m; reflexivity.
  - cbn in H. apply andb_true_iff in H. destruct H as [Hc Hs].
    destruct n as [|n]; cbn.
    + destruct m as [|m]; [reflexivity|]. cbn. now rewrite Hc, (IH 0%nat m Hs).
    + now apply IH.
Qed.

Lemma all_digits_append s1 s2 :
  all_digits s1 = true -> all_digits s2 = true -> all_digits (s1 ++ s2) = true.
Proof.
  induction s1 as [|c s1 IH]; cbn; [auto|].
  intros H1 H2. apply andb_true_iff in H1. destruct H1 as [-> H1]. now apply IH.
Qed.

Lemma length_append s1 s2 :
  String.length (s1 ++ s2) = (String.length s1 + String.length s2)%nat.
Proof. induction s1 as [|c s1 IH]; cbn; congruence. Qed.

Lemma two_digit_suffix r :
  (r < 100)%N ->
  String.length (padStart 2 "0" (string_of_N r)) = 2%nat
  /\ all_digits (padStart 2 "0" (string_of_N r)) = true.
Proof.
  intros Hr. destruct r as [|p]; [now vm_compute|].
  do 7 (destruct p as [p|p|]; try lia; try (now vm_compute)).
Qed.

(** X13. The shape of a wallet number. Whenever the clock reads at least
    10^9 milliseconds and the random draw is below 100, as
    [Math.floor(Math.random() * 100)] is, [generateWalletNumber] yields a
    string of exactly 12 decimal digits. *)
Theorem generateWalletNumber_has_12_digits (now random100 : N) :
  (10 ^ 9 <= now)%N -> (random100 < 100)%N ->
  String.length (generateWalletNumber now random100) = 12%nat
  /\ all_digits (generateWalletNumber now random100) = true.
Proof.
  intros Hnow Hr. unfold generateWalletNumber.
  destruct (two_digit_suffix random100 Hr) as [Hlen Hdig].
  pose proof (length_string_of_N now Hnow) as Hl.
  split.
  - rewrite length_append, Hlen. unfold slice_last.
    rewrite length_substring; lia.
  - apply all_digits_append; [|exact Hdig].
    unfold slice_last. apply all_digits_substring, string_of_N_digits.
Qed.

Lemma generateWalletNumber_has_12_digits_witness :
  String.length (generateWalletNumber 1700000000123 7) = 12%nat
  /\ all_digits (generateWalletNumber 1700000000123 7) = true.
Proof.
  apply generateWalletNumber_has_12_digits; [vm_compute; discriminate|reflexivity].
Defined.

(** ** The API-key guard and the key service *)

Section UpdateFacts.

Context {A : Type}.
Implicit Types (p q : A -> bool) (f : A -> A) (l : list A).

Lemma filter_update_first_le p q f l l' :
  update_first p f l = Some l' ->
  (forall x, q (f x) = true -> q x = true) ->
  (length (filter q l') <= length (filter q l))%nat.
Proof.
  intros Hu Hq. revert l' Hu.
  induction l as [|a l IH]; cbn; intros l' Hu; [discriminate|].
  destruct (p a).
  - injection Hu as <-. cbn. destruct (q (f a)) eqn:E.
    + rewrite (Hq a E). cbn. lia.
    + destruct (q a); cbn; lia.
  - destruct (update_first p f l) as [r|]; [|discriminate].
    injection Hu as <-. cbn. specialize (IH r eq_refl).
    destruct (q a); cbn; lia.
Qed.

Lemma filter_update_first_same p q f l l' :
  update_first p f l = Some l' ->
  (forall x, p x = true -> q x = false) ->
  (forall x, q (f x) = q x) ->
  filter q l' = filter q l.
Proof.
  intros Hu Hp Hq. revert l' Hu.
  induction l as [|a l IH]; cbn; intros l' Hu; [discriminate|].
  destruct (p a) eqn:Ha.
  - injection Hu as <-. cbn. now rewrite Hq, (Hp a Ha).
  - destruct (update_first p f l) as [r|]; [|discriminate].
    injection Hu as <-. cbn. now rewrite (IH r eq_refl).
Qed.

Lemma update_first_in p f l l' y :
  update_first p f l = Some l' -> In y l' ->
  In y l \/ exists x, In x l /\ p x = true /\ y = f x.
Proof.
  revert l'. induction l as [|a l IH]; cbn; intros l' Hu Hy; [discriminate|].
  destruct (p a) eqn:Ha.
  - injection Hu as <-. destruct Hy as [<-|Hy]; [right|left]; eauto.
  - destruct (update_first p f l) as [r|]; [|discriminate].
    injection Hu as <-. destruct Hy as [<-|Hy]; [now left; left|].
    destruct (IH r eq_refl Hy) as [H|(x & Hx & Hp & ->)]; [now left; right|].
    right. eauto.
Qed.

(** With a key that identifies rows, [update_first] by that key rewrites a
    row that [find] by a finer clause returned. *)
Lemma update_first_found {B} (key : A -> B) p q f l l' x :
  NoDup (map key l) ->
  (forall y z, p y = true -> p z = true -> key y = key z) ->
  find q l = Some x -> p x = true ->
  update_first p f l = Some l' ->
  exists l1 l2, l = (l1 ++ x :: l2)%list /\ l' = (l1 ++ f x :: l2)%list.
Proof.
  intros Hnd Hkey Hq Hpx. revert l' Hnd Hq.
  induction l as [|a l IH]; cbn; intros l' Hnd Hq Hu; [discriminate|].
  inversion Hnd as [|? ? Ha Hl]; subst.
  destruct (p a) eqn:Hpa.
  - injection Hu as <-.
    destruct (q a) eqn:Hqa.
    + injection Hq as ->. exists [], l. now split.
    + exfalso. apply Ha. apply find_some in Hq. destruct Hq as [Hin _].
      rewrite (Hkey a x Hpa Hpx). now apply in_map.
  - destruct (update_first p f l) as [r|] eqn:Hr; [|discriminate].
    injection Hu as <-.
    destruct (q a) eqn:Hqa; [injection Hq as ->; congruence|].
    destruct (IH r Hl Hq eq_refl) as (l1 & l2 & -> & ->).
    exists (a :: l1), l2. now split.
Qed.

End UpdateFacts.

Ltac open_keys :=
  cbv beta iota zeta delta
    [Keys.bind Keys.ret Keys.throw Keys.apiKey_findFirst Keys.apiKey_findMany
     Keys.apiKey_count Keys.apiKey_update Keys.apiKey_create
     Keys.check_key_record Keys.canActivate_sha256 Keys.canActivate_bcrypt
     Keys.create Keys.rollover Keys.remove Keys.user_of].

Section KeyFacts.

Context {P : Platform} {L : Keys.Library}.

Lemma has_expired_in_time now k :
  Keys.has_expired now k = false <-> in_time now k.
Proof.
  unfold Keys.has_expired, in_time. destruct (Keys.expiresAt k) as [e|].
  - rewrite N.ltb_ge. split.
    + intros H e' E. now injection E as <-.
    + intros H. now apply H.
  - split; [discriminate|reflexivity].
Qed.

Lemma required_holds_all req k :
  match req with
  | Some (p :: ps) =>
      negb (forallb (Keys.includes (Keys.permissions k)) (p :: ps))
  | _ => false
  end = false <-> holds_all req k.
Proof.
  unfold holds_all. destruct req as [[|p ps]|].
  - split; [|reflexivity]. intros _ ps E. injection E as <-. contradiction.
  - rewrite negb_false_iff, forallb_forall. split.
    + intros H qs E q Hq. injection E as <-.
      specialize (H q Hq). unfold Keys.includes in H.
      apply existsb_exists in H. destruct H as (x & Hx & E).
      apply String.eqb_eq in E. now subst.
    + intros H q Hq. unfold Keys.includes. apply existsb_exists.
      exists q. split; [now apply (H _ eq_refl)|apply String.eqb_refl].
  - split; [discriminate|reflexivity].
Qed.

(** What [check_key_record] does, outcome by outcome. *)
Lemma check_key_record_returns rec req cfg now now' st au st' :
  Keys.check_key_record rec req cfg now now' st = (inr au, st') <->
  exists k, rec = Some k /\ in_time now k /\ cfg = true /\ holds_all req k
            /\ let_through k now' st au st'.
Proof.
  unfold let_through. open_keys.
  destruct rec as [k|]; [|split; [discriminate|intros (k & E & _); discriminate]].
  pose proof (has_expired_in_time now k) as Ht.
  pose proof (required_holds_all req k) as Hr.
  destruct (Keys.has_expired now k).
  { split; [discriminate|]. intros (k' & E & H & _). injection E as <-.
    apply Ht in H. discriminate. }
  destruct cfg; cbn [negb];
    [|split; [discriminate|intros (k' & _ & _ & E & _); discriminate]].
  destruct (match req with Some (p :: ps) => _ | _ => false end).
  { split; [discriminate|]. intros (k' & E & _ & _ & H & _). injection E as <-.
    apply Hr in H. discriminate. }
  destruct (update_first _ _ (Keys.apiKeys st)) as [ks|] eqn:Hu.
  - cbn [Keys.users Keys.apiKeys].
    destruct (find _ (Keys.users st)) as [user|] eqn:Hf.
    + split.
      * intros E. injection E as <- <-. exists k. cbn.
        repeat split; try tauto; eauto.
      * intros (k' & E & _ & _ & _ & (user' & Hu' & ->) & Hus & Hks).
        injection E as <-. rewrite Hf in Hu'. injection Hu' as <-.
        rewrite Hu in Hks. injection Hks as ->.
        destruct st' as [ks' us']. cbn in *. now subst.
    + split; [discriminate|].
      intros (k' & E & _ & _ & _ & (user' & Hu' & _) & _).
      injection E as <-. congruence.
  - split; [discriminate|].
    intros (k' & E & _ & _ & _ & _ & _ & Hks). injection E as <-. congruence.
Qed.

Lemma check_key_record_refuses rec req cfg now now' st e st' :
  Keys.check_key_record rec req cfg now now' st = (inl e, st') ->
  e <> Keys.TypeError -> st' = st.
Proof.
  open_keys. destruct rec as [k|]; [|now intros E; injection E as <- <-].
  destruct (Keys.has_expired now k); [now intros E; injection E as <- <-|].
  destruct (negb cfg); [now intros E; injection E as <- <-|].
  destruct (match req with Some (p :: ps) => _ | _ => false end);
    [now intros E; injection E as <- <-|].
  destruct (update_first _ _ (Keys.apiKeys st)) as [ks|];
    [|now intros E; injection E as <- <-].
  cbn [Keys.users]. destruct (find _ (Keys.users st)); [discriminate|].
  intros E. injection E as <- <-. congruence.
Qed.

(** Whatever the outcome, the guard writes at most one [lastUsedAt]. *)
Lemma check_key_record_writes rec req cfg now now' st :
  let st' := snd (Keys.check_key_record rec req cfg now now' st) in
  st' = st
  \/ exists k, Keys.users st' = Keys.users st
               /\ update_first (Keys.by_id (Keys.id k)) (Keys.set_lastUsedAt now')
                    (Keys.apiKeys st) = Some (Keys.apiKeys st').
Proof.
  open_keys. destruct rec as [k|]; [|now left].
  destruct (Keys.has_expired now k); [now left|].
  destruct (negb cfg); [now left|].
  destruct (match req with Some (p :: ps) => _ | _ => false end); [now left|].
  destruct (update_first _ _ (Keys.apiKeys st)) as [ks|] eqn:Hu; [|now left].
  cbn [Keys.users]. right. exists k.
  destruct (find _ (Keys.users st)); cbn; now rewrite Hu.
Qed.

End KeyFacts.

(** X14. The guard that looks a key up by its SHA-256 digest lets a request
    through only with a key of the header that is not empty, for an active
    row whose stored hash is the digest of that key, that is within its time
    at the first reading of the clock and holds every permission the
    endpoint requires; the request then carries that row's owner and
    identifier, and the only write is the row's [lastUsedAt]. *)
Theorem canActivate_sha256_lets_through_only
  {P : Platform} {L : Keys.Library}
  (requiredPermissions : option (list string)) (header : option string)
  (appConfig : bool) (now now' : N) (st st' : Keys.Store) (au : Keys.AuthUser) :
  Keys.canActivate_sha256 requiredPermissions header appConfig now now' st
  = (inr au, st') ->
  exists apiKey k,
    header = Some apiKey /\ apiKey <> ""
    /\ In k (Keys.apiKeys st)
    /\ Keys.isActive k = true
    /\ Keys.keyHash k = sha256_hex apiKey
    /\ in_time now k
    /\ holds_all requiredPermissions k
    /\ let_through k now' st au st'.
Proof.
  unfold Keys.canActivate_sha256.
  destruct header as [apiKey|]; [|discriminate].
  destruct (String.eqb apiKey "") eqn:He; [discriminate|].
  apply String.eqb_neq in He.
  unfold Keys.bind, Keys.apiKey_findFirst. intros H.
  apply check_key_record_returns in H.
  destruct H as (k & Hf & Ht & _ & Hr & Hl).
  apply find_some in Hf. destruct Hf as [Hin Hk].
  apply andb_prop in Hk. destruct Hk as [Hh Ha]. apply String.eqb_eq in Hh.
  exists apiKey, k. repeat split; auto; apply Hl.
Qed.

Lemma canActivate_sha256_lets_through_only_witness :
  exists apiKey k,
    Some "sk_live_aa" = Some apiKey /\ apiKey <> ""
    /\ In k (Keys.apiKeys demo_keys)
    /\ Keys.isActive k = true
    /\ Keys.keyHash k = @sha256_hex demo_platform apiKey
    /\ in_time 1000 k
    /\ holds_all (Some ["read"]) k
    /\ let_through k 1001 demo_keys
         (Keys.mkAuthUser "u1" "u1@example.com" true "k1")
         (Keys.mkStore [Keys.set_lastUsedAt 1001 demo_key; demo_other_key]
            (Keys.users demo_keys)).
Proof.
  apply (@canActivate_sha256_lets_through_only demo_platform demo_library
           (Some ["read"]) (Some "sk_live_aa") true 1000%N 1001%N).
  reflexivity.
Defined.

(** X15. The guard that compares the key with each active row lets a request
    through only with a key of the header that is not empty, for an active
    row whose stored hash [bcrypt.compare] accepts for that key, that is
    within its time and holds every permission the endpoint requires; the
    request then carries that row's owner and identifier, and the only write
    is the row's [lastUsedAt]. *)
Theorem canActivate_bcrypt_lets_through_only
  {P : Platform} {L : Keys.Library}
  (requiredPermissions : option (list string)) (header : option string)
  (appConfig : bool) (now now' : N) (st st' : Keys.Store) (au : Keys.AuthUser) :
  Keys.canActivate_bcrypt requiredPermissions header appConfig now now' st
  = (inr au, st') ->
  exists apiKey k,
    header = Some apiKey /\ apiKey <> ""
    /\ In k (Keys.apiKeys st)
    /\ Keys.isActive k = true
    /\ Keys.bcrypt_compare apiKey (Keys.keyHash k) = true
    /\ in_time now k
    /\ holds_all requiredPermissions k
    /\ let_through k now' st au st'.
Proof.
  unfold Keys.canActivate_bcrypt.
  destruct header as [apiKey|]; [|discriminate].
  destruct (String.eqb apiKey "") eqn:He; [discriminate|].
  apply String.eqb_neq in He.
  unfold Keys.bind, Keys.apiKey_findMany. intros H.
  apply check_key_record_returns in H.
  destruct H as (k & Hf & Ht & _ & Hr & Hl).
  apply find_some in Hf. destruct Hf as [Hin Hk].
  apply filter_In in Hin. destruct Hin as [Hin Ha].
  exists apiKey, k. repeat split; auto; apply Hl.
Qed.

Lemma canActivate_bcrypt_lets_through_only_witness :
  exists apiKey k,
    Some "sk_live_bb" = Some apiKey /\ apiKey <> ""
    /\ In k (Keys.apiKeys demo_keys)
    /\ Keys.isActive k = true
    /\ @Keys.bcrypt_compare demo_library apiKey (Keys.keyHash k) = true
    /\ in_time 1000 k
    /\ holds_all None k
    /\ let_through k 1001 demo_keys
         (Keys.mkAuthUser "u2" "u2@example.com" true "k2")
         (Keys.mkStore [demo_key; Keys.set_lastUsedAt 1001 demo_other_key]
            (Keys.users demo_keys)).
Proof.
  apply (@canActivate_bcrypt_lets_through_only demo_platform demo_library
           None (Some "sk_live_bb") true 1000%N 1001%N).
  reflexivity.
Defined.

(** X16. A request the guard turns away leaves the table of keys as it was:
    whichever of the two guards runs, when it throws (a missing, unknown or
    expired key, a missing configuration, a permission the key lacks) nothing
    has been written. The one throw that comes after the write is the
    TypeError of a row without its user, which the foreign key rules out. *)
Theorem refused_request_writes_nothing
  {P : Platform} {L : Keys.Library}
  (requiredPermissions : option (list string)) (header : option string)
  (appConfig : bool) (now now' : N) (st : Keys.Store) :
  match Keys.canActivate_sha256 requiredPermissions header appConfig now now' st
  with
  | (inl Keys.TypeError, _) | (inr _, _) => True
  | (inl _, st') => st' = st
  end
  /\ match Keys.canActivate_bcrypt requiredPermissions header appConfig now now' st
     with
     | (inl Keys.TypeError, _) | (inr _, _) => True
     | (inl _, st') => st' = st
     end.
Proof.
  split.
  - unfold Keys.canActivate_sha256.
    destruct header as [apiKey|]; [|reflexivity].
    destruct (String.eqb apiKey ""); [reflexivity|].
    unfold Keys.bind, Keys.apiKey_findFirst.
    destruct (Keys.check_key_record _ _ _ _ _ st) as [[e|au] st'] eqn:E;
      [|exact I].
    pose proof (check_key_record_refuses _ _ _ _ _ _ _ _ E) as H.
    destruct e; try exact I; apply H; discriminate.
  - unfold Keys.canActivate_bcrypt.
    destruct header as [apiKey|]; [|reflexivity].
    destruct (String.eqb apiKey ""); [reflexivity|].
    unfold Keys.bind, Keys.apiKey_findMany.
    destruct (Keys.check_key_record _ _ _ _ _ st) as [[e|au] st'] eqn:E;
      [|exact I].
    pose proof (check_key_record_refuses _ _ _ _ _ _ _ _ E) as H.
    destruct e; try exact I; apply H; discriminate.
Qed.

Section IssuingFacts.

Context {P : Platform} {L : Keys.Library}.

Lemma count_lt_5 (n : nat) : (5 <=? n)%nat = false <-> (n < 5)%nat.
Proof. rewrite Nat.leb_gt. reflexivity. Qed.

Lemma create_runs dto u now now' randomHex salt newId st r st' :
  Keys.create dto u now now' randomHex salt newId st = (inr r, st') <->
  Keys.isValidExpirationFormat (Keys.dto_expiry dto) = true
  /\ exists perms,
       Keys.dto_permissions dto = Some perms /\ perms <> []
       /\ Keys.invalid_permissions perms = []
       /\ (live_count u now st < 5)%nat
       /\ existsb (Keys.by_id newId) (Keys.apiKeys st) = false
       /\ r = buildSuccessResponse "API key created successfully"
                (issued (Keys.dto_expiry dto) now' randomHex)
       /\ st' = Keys.mkStore
                  (Keys.apiKeys st
                   ++ [created_row (Keys.dto_name dto) perms (Keys.dto_expiry dto)
                         u now' randomHex salt newId])
                  (Keys.users st).
Proof.
  unfold live_count, created_row, issued. open_keys.
  destruct (Keys.isValidExpirationFormat (Keys.dto_expiry dto)); cbn [negb];
    [|split; [discriminate|intros [E _]; discriminate]].
  destruct (Keys.dto_permissions dto) as [[|p ps]|];
    try (split; [discriminate|intros (_ & ? & E & H & _); congruence]).
  destruct (Keys.invalid_permissions (p :: ps)) eqn:Hinv;
    [|split; [discriminate|intros (_ & ? & E & _ & H & _);
                            injection E as <-; congruence]].
  pose proof (count_lt_5 (length (filter (Keys.live u now) (Keys.apiKeys st))))
    as Hc.
  destruct (5 <=? _)%nat.
  { split; [discriminate|]. intros (_ & ? & _ & _ & _ & H & _).
    apply Hc in H. discriminate. }
  cbn [Keys.id].
  destruct (existsb (Keys.by_id newId) (Keys.apiKeys st)).
  { split; [discriminate|]. intros (_ & ? & _ & _ & _ & _ & H & _).
    discriminate. }
  split.
  - intros E. injection E as <- <-. split; [reflexivity|].
    exists (p :: ps). repeat split; try congruence. now apply Hc.
  - intros (_ & ? & E & _ & _ & _ & _ & -> & ->). now injection E as <-.
Qed.

Lemma create_fails dto u now now' randomHex salt newId st e st' :
  Keys.create dto u now now' randomHex salt newId st = (inl e, st') -> st' = st.
Proof.
  open_keys.
  destruct (negb _); [now intros E; injection E as <- <-|].
  destruct (Keys.dto_permissions dto) as [[|p ps]|];
    try (now intros E; injection E as <- <-).
  destruct (Keys.invalid_permissions (p :: ps));
    [|now intros E; injection E as <- <-].
  destruct (5 <=? _)%nat; [now intros E; injection E as <- <-|].
  destruct (existsb _ _); [now intros E; injection E as <- <-|discriminate].
Qed.

Lemma rollover_runs dto u now0 now now' randomHex salt newId st r st' :
  Keys.rollover dto u now0 now now' randomHex salt newId st = (inr r, st') <->
  Keys.isValidExpirationFormat (Keys.ro_expiry dto) = true
  /\ exists old,
       find (Keys.by_id_and_userId (Keys.expired_key_id dto) u) (Keys.apiKeys st)
       = Some old
       /\ has_not_expired now0 old = false
       /\ (live_count u now st < 5)%nat
       /\ Keys.permissions old <> []
       /\ Keys.invalid_permissions (Keys.permissions old) = []
       /\ existsb (Keys.by_id newId) (Keys.apiKeys st) = false
       /\ r = buildSuccessResponse "API key rollover successful"
                (issued (Keys.ro_expiry dto) now' randomHex)
       /\ st' = Keys.mkStore
                  (Keys.apiKeys st
                   ++ [created_row (Keys.name old) (Keys.permissions old)
                         (Keys.ro_expiry dto) u now' randomHex salt newId])
                  (Keys.users st).
Proof.
  unfold live_count, created_row, issued, has_not_expired. open_keys.
  destruct (Keys.isValidExpirationFormat (Keys.ro_expiry dto)); cbn [negb];
    [|split; [discriminate|intros [E _]; discriminate]].
  destruct (find _ (Keys.apiKeys st)) as [old|];
    [|split; [discriminate|intros (_ & ? & E & _); discriminate]].
  destruct (match Keys.expiresAt old with Some e => _ | None => false end)
    eqn:Hexp.
  { split; [discriminate|]. intros (_ & ? & E & H & _).
    injection E as <-. congruence. }
  pose proof (count_lt_5 (length (filter (Keys.live u now) (Keys.apiKeys st))))
    as Hc.
  destruct (5 <=? _)%nat.
  { split; [discriminate|]. intros (_ & ? & _ & _ & H & _).
    apply Hc in H. discriminate. }
  destruct (Keys.permissions old) as [|p ps] eqn:Hp.
  { split; [discriminate|]. intros (_ & ? & E & _ & _ & H & _).
    injection E as <-. congruence. }
  destruct (Keys.invalid_permissions (p :: ps)) eqn:Hinv.
  2:{ split; [discriminate|]. intros (_ & ? & E & _ & _ & _ & H & _).
      injection E as <-. rewrite Hp in H. congruence. }
  cbn [Keys.id].
  destruct (existsb (Keys.by_id newId) (Keys.apiKeys st)).
  { split; [discriminate|]. intros (_ & ? & _ & _ & _ & _ & _ & H & _).
    discriminate. }
  split.
  - intros E. injection E as <- <-. split; [reflexivity|].
    exists old. rewrite Hp. repeat split; try congruence. now apply Hc.
  - intros (_ & ? & E & _ & _ & _ & _ & _ & -> & ->). injection E as <-.
    now rewrite Hp.
Qed.

Lemma rollover_fails dto u now0 now now' randomHex salt newId st e st' :
  Keys.rollover dto u now0 now now' randomHex salt newId st = (inl e, st') ->
  st' = st.
Proof.
  open_keys.
  destruct (negb _); [now intros E; injection E as <- <-|].
  destruct (find _ (Keys.apiKeys st)) as [old|];
    [|now intros E; injection E as <- <-].
  destruct (match Keys.expiresAt old with Some e => _ | None => false end);
    [now intros E; injection E as <- <-|].
  destruct (5 <=? _)%nat; [now intros E; injection E as <- <-|].
  destruct (Keys.permissions old) as [|p ps];
    [now intros E; injection E as <- <-|].
  destruct (Keys.invalid_permissions (p :: ps));
    [|now intros E; injection E as <- <-].
  destruct (existsb _ _); [now intros E; injection E as <- <-|discriminate].
Qed.

Lemma remove_runs i u st m st' :
  Keys.remove i u st = (inr m, st') <->
  exists k ks,
    find (Keys.by_id_and_userId i u) (Keys.apiKeys st) = Some k
    /\ update_first (Keys.by_id i) (Keys.set_isActive false) (Keys.apiKeys st)
       = Some ks
    /\ m = "API key deactivated successfully"
    /\ st' = Keys.mkStore ks (Keys.users st).
Proof.
  open_keys.
  destruct (find _ (Keys.apiKeys st)) as [k|];
    [|split; [discriminate|intros (? & ? & E & _); discriminate]].
  destruct (update_first _ _ (Keys.apiKeys st)) as [ks|].
  - split.
    + intros E. injection E as <- <-. exists k, ks. now repeat split.
    + intros (? & ? & _ & E & -> & ->). now injection E as <-.
  - split; [discriminate|]. intros (? & ? & _ & E & _). discriminate.
Qed.

Lemma remove_fails i u st e st' :
  Keys.remove i u st = (inl e, st') -> st' = st.
Proof.
  open_keys.
  destruct (find _ (Keys.apiKeys st)) as [k|];
    [|now intros E; injection E as <- <-].
  destruct (update_first _ _ (Keys.apiKeys st)) as [ks|];
    [discriminate|now intros E; injection E as <- <-].
Qed.

Lemma guard_effect fresh rec req cfg now now' st :
  key_effect fresh st (snd (Keys.check_key_record rec req cfg now now' st)).
Proof.
  destruct (check_key_record_writes rec req cfg now now' st) as [E|(k & Hu & Hk)].
  - now apply effect_none.
  - eapply effect_update with (f := Keys.set_lastUsedAt now'); eauto.
Qed.

Lemma run_key_op_effect op st :
  key_effect (counted op st) st (run_key_op op st).
Proof.
  destruct op; cbn [run_key_op].
  - destruct (Keys.create dto u now now' randomHex salt newId st) as [[e|r] st']
      eqn:E; cbn [snd].
    + apply effect_none. eapply create_fails; eauto.
    + apply create_runs in E.
      destruct E as (_ & perms & _ & _ & _ & Hc & Hid & _ & ->).
      eapply effect_new; cbn; eauto; [|exact Hid].
      intros t <-. exact Hc.
  - destruct (Keys.rollover dto u now0 now now' randomHex salt newId st)
      as [[e|r] st'] eqn:E; cbn [snd].
    + apply effect_none. eapply rollover_fails; eauto.
    + apply rollover_runs in E.
      destruct E as (_ & old & _ & _ & Hc & _ & _ & Hid & _ & ->).
      eapply effect_new; cbn; eauto; [|exact Hid].
      intros t <-. exact Hc.
  - destruct (Keys.remove i u st) as [[e|r] st'] eqn:E; cbn [snd].
    + apply effect_none. eapply remove_fails; eauto.
    + apply remove_runs in E. destruct E as (k & ks & _ & Hu & _ & ->).
      eapply effect_update with (f := Keys.set_isActive false); cbn; eauto.
      discriminate.
  - unfold Keys.canActivate_sha256.
    destruct header as [apiKey|]; [|now apply effect_none].
    destruct (String.eqb apiKey ""); [now apply effect_none|].
    unfold Keys.bind, Keys.apiKey_findFirst. apply guard_effect.
  - unfold Keys.canActivate_bcrypt.
    destruct header as [apiKey|]; [|now apply effect_none].
    destruct (String.eqb apiKey ""); [now apply effect_none|].
    unfold Keys.bind, Keys.apiKey_findMany. apply guard_effect.
Qed.

End IssuingFacts.

Section KeyInvariants.

Context {P : Platform} {L : Keys.Library}.

Lemma existsb_by_id_false i l :
  existsb (Keys.by_id i) l = false <-> ~ In i (map Keys.id l).
Proof.
  induction l as [|a l IH]; cbn; [tauto|].
  unfold Keys.by_id at 1. rewrite orb_false_iff, IH, String.eqb_neq. tauto.
Qed.

Lemma revoked_effect fresh st st' i :
  key_effect fresh st st' -> revoked i st -> revoked i st'.
Proof.
  intros He [(k & Hk & Hi) Hoff].
  destruct He as [->|j f Hid Hu He Ha Hup Hus|k' _ Hnew Happ Hus].
  - split; eauto.
  - split.
    + assert (H : In i (map Keys.id (Keys.apiKeys st'))).
      { rewrite (map_update_first Keys.id _ _ _ _ Hid Hup).
        apply in_map_iff. eauto. }
      apply in_map_iff in H. destruct H as (y & Hy & Hin). eauto.
    + intros y Hy Hyi.
      destruct (update_first_in _ _ _ _ _ Hup Hy) as [Hin|(x & Hx & _ & ->)];
        [eauto|].
      rewrite Hid in Hyi. specialize (Hoff x Hx Hyi).
      destruct (Keys.isActive (f x)) eqn:E; [|reflexivity].
      apply Ha in E. congruence.
  - unfold revoked. rewrite Happ. split.
    + exists k. split; [apply in_or_app; now left|exact Hi].
    + intros y Hy Hyi. apply in_app_or in Hy. destruct Hy as [Hy|[<-|[]]];
        [eauto|].
      exfalso. apply existsb_by_id_false in Hnew. apply Hnew.
      rewrite Hyi, <- Hi. now apply in_map.
Qed.

Lemma run_key_ops_revoked ops st i :
  revoked i st -> revoked i (run_key_ops ops st).
Proof.
  revert st. induction ops as [|op ops IH]; cbn; intros st H; [exact H|].
  apply IH. eapply revoked_effect; [apply run_key_op_effect|exact H].
Qed.

Lemma find_unique_key {A B} (key : A -> B) (p q : A -> bool) l x :
  NoDup (map key l) ->
  (forall y z, p y = true -> p z = true -> key y = key z) ->
  find q l = Some x -> p x = true -> find p l = Some x.
Proof.
  intros Hnd Hkey Hq Hpx. induction l as [|a l IH]; cbn in *; [discriminate|].
  inversion Hnd as [|? ? Ha Hl]; subst.
  destruct (q a) eqn:Hqa.
  - injection Hq as ->. now rewrite Hpx.
  - destruct (p a) eqn:Hpa; [|now apply IH].
    exfalso. apply Ha. apply find_some in Hq. destruct Hq as [Hin _].
    rewrite (Hkey a x Hpa Hpx). now apply in_map.
Qed.

Lemma by_id_key i y z :
  Keys.by_id i y = true -> Keys.by_id i z = true -> Keys.id y = Keys.id z.
Proof.
  unfold Keys.by_id. rewrite !String.eqb_eq. congruence.
Qed.

Lemma by_id_and_userId_true i u k :
  Keys.by_id_and_userId i u k = true <-> Keys.id k = i /\ Keys.userId k = u.
Proof.
  unfold Keys.by_id_and_userId. now rewrite andb_true_iff, !String.eqb_eq.
Qed.

(** With unique identifiers, [remove] rewrites the caller's own row. *)
Lemma remove_rewrites i u st m st1 :
  unique_ids st -> Keys.remove i u st = (inr m, st1) ->
  exists l1 k l2,
    Keys.apiKeys st = (l1 ++ k :: l2)%list
    /\ Keys.id k = i /\ Keys.userId k = u
    /\ find (Keys.by_id_and_userId i u) (Keys.apiKeys st) = Some k
    /\ st1 = Keys.mkStore (l1 ++ Keys.set_isActive false k :: l2) (Keys.users st).
Proof.
  intros Hnd H. apply remove_runs in H.
  destruct H as (k & ks & Hf & Hu & _ & ->).
  pose proof (find_some _ _ Hf) as [_ Hk].
  pose proof Hk as Hk'. apply by_id_and_userId_true in Hk'.
  destruct Hk' as [Hi Hu'].
  destruct (update_first_found Keys.id (Keys.by_id i)
              (Keys.by_id_and_userId i u) (Keys.set_isActive false)
              (Keys.apiKeys st) ks k Hnd (by_id_key i) Hf)
    as (l1 & l2 & E1 & E2); auto.
  { unfold Keys.by_id. now apply String.eqb_eq. }
  exists l1, k, l2. subst ks. auto.
Qed.

Lemma remove_revokes i u st m st1 :
  unique_ids st -> Keys.remove i u st = (inr m, st1) -> revoked i st1.
Proof.
  intros Hnd H.
  destruct (remove_rewrites _ _ _ _ _ Hnd H) as (l1 & k & l2 & E & Hi & _ & _ & ->).
  unfold unique_ids in Hnd. rewrite E, map_app in Hnd. cbn [map] in Hnd.
  apply NoDup_remove_2 in Hnd.
  split; cbn [Keys.apiKeys].
  - exists (Keys.set_isActive false k). split; [|exact Hi].
    apply in_or_app. right. now left.
  - intros y Hy Hyi. apply in_app_or in Hy. destruct Hy as [Hy|[<-|Hy]];
      [|reflexivity|]; exfalso; apply Hnd; rewrite Hi, <- Hyi;
      apply in_or_app; [left|right]; now apply in_map.
Qed.

Lemma canActivate_sha256_row req header cfg now now' st au st' :
  Keys.canActivate_sha256 req header cfg now now' st = (inr au, st') ->
  exists k, In k (Keys.apiKeys st) /\ Keys.isActive k = true
            /\ Keys.apiKeyId au = Keys.id k.
Proof.
  unfold Keys.canActivate_sha256.
  destruct header as [apiKey|]; [|discriminate].
  destruct (String.eqb apiKey ""); [discriminate|].
  unfold Keys.bind, Keys.apiKey_findFirst. intros H.
  apply check_key_record_returns in H.
  destruct H as (k & Hf & _ & _ & _ & (user & _ & ->) & _).
  apply find_some in Hf. destruct Hf as [Hin Hk].
  apply andb_prop in Hk. exists k. tauto.
Qed.

Lemma canActivate_bcrypt_row req header cfg now now' st au st' :
  Keys.canActivate_bcrypt req header cfg now now' st = (inr au, st') ->
  exists k, In k (Keys.apiKeys st) /\ Keys.isActive k = true
            /\ Keys.apiKeyId au = Keys.id k.
Proof.
  unfold Keys.canActivate_bcrypt.
  destruct header as [apiKey|]; [|discriminate].
  destruct (String.eqb apiKey ""); [discriminate|].
  unfold Keys.bind, Keys.apiKey_findMany. intros H.
  apply check_key_record_returns in H.
  destruct H as (k & Hf & _ & _ & _ & (user & _ & ->) & _).
  apply find_some in Hf. destruct Hf as [Hin _].
  apply filter_In in Hin. exists k. tauto.
Qed.

Lemma live_later u t t' k :
  (t <= t')%N -> Keys.live u t' k = true -> Keys.live u t k = true.
Proof.
  unfold Keys.live. intros Ht. rewrite !andb_true_iff.
  intros [H1 H2]. split; [exact H1|].
  destruct (Keys.expiresAt k) as [e|]; [|discriminate].
  apply N.ltb_lt in H2. apply N.ltb_lt. lia.
Qed.

Lemma filter_length_mono {A} (p q : A -> bool) l :
  (forall x, q x = true -> p x = true) ->
  (length (filter q l) <= length (filter p l))%nat.
Proof.
  intros H. induction l as [|a l IH]; cbn; [lia|].
  destruct (q a) eqn:E.
  - rewrite (H a E). cbn. lia.
  - destruct (p a); cbn; lia.
Qed.

Lemma filter_length_bound {A} (p : A -> bool) l :
  (length (filter p l) <= length l)%nat.
Proof.
  induction l as [|a l IH]; cbn; [lia|]. destruct (p a); cbn; lia.
Qed.

Lemma key_limit_later t t' st :
  (t <= t')%N -> key_limit t st -> key_limit t' st.
Proof.
  intros Ht H u. specialize (H u). unfold live_count in *.
  pose proof (filter_length_mono (Keys.live u t) (Keys.live u t')
                (Keys.apiKeys st) (fun k => live_later u t t' k Ht)).
  lia.
Qed.

Lemma key_limit_few t st :
  (length (Keys.apiKeys st) <= 5)%nat -> key_limit t st.
Proof.
  intros H u. unfold live_count.
  pose proof (filter_length_bound (Keys.live u t) (Keys.apiKeys st)). lia.
Qed.

Lemma invalid_permissions_nil perms :
  Keys.invalid_permissions perms = []
  <-> forall p, In p perms -> In p Keys.VALID_PERMISSIONS.
Proof.
  unfold Keys.invalid_permissions. induction perms as [|a l IH]; cbn.
  - split; [contradiction|reflexivity].
  - destruct (Keys.includes Keys.VALID_PERMISSIONS a) eqn:E; cbn.
    + rewrite IH. unfold Keys.includes in E. apply existsb_exists in E.
      destruct E as (x & Hx & E). apply String.eqb_eq in E. subst x.
      split; [intros H p [<-|Hp]; auto|auto].
    + split; [discriminate|]. intros H. exfalso.
      assert (Ha : In a Keys.VALID_PERMISSIONS) by (apply H; now left).
      unfold Keys.includes in E.
      assert (E' : existsb (String.eqb a) Keys.VALID_PERMISSIONS = true).
      { apply existsb_exists. exists a. split; [exact Ha|apply String.eqb_refl]. }
      congruence.
Qed.

Lemma has_not_expired_false now0 k :
  has_not_expired now0 k = false
  <-> forall e, Keys.expiresAt k = Some e -> (e <= now0)%N.
Proof.
  unfold has_not_expired. destruct (Keys.expiresAt k) as [e|].
  - rewrite N.ltb_ge. split.
    + intros H e' E. now injection E as <-.
    + intros H. now apply H.
  - split; [discriminate|reflexivity].
Qed.

Lemma find_none_all {A} (p : A -> bool) l :
  (forall x, In x l -> p x = false) -> find p l = None.
Proof.
  intros H. induction l as [|a l IH]; cbn; [reflexivity|].
  rewrite (H a (or_introl eq_refl)). apply IH. intros x Hx. apply H. now right.
Qed.

Lemma update_first_snoc {A} (p : A -> bool) f l x :
  (forall y, In y l -> p y = false) -> p x = true ->
  update_first p f (l ++ [x]) = Some (l ++ [f x])%list.
Proof.
  intros H Hx. induction l as [|a l IH]; cbn.
  - now rewrite Hx.
  - rewrite (H a (or_introl eq_refl)), IH; [reflexivity|].
    intros y Hy. apply H. now right.
Qed.

End KeyInvariants.

Lemma unique_ids_demo_keys : unique_ids demo_keys.
Proof.
  unfold unique_ids. cbn. constructor; [intros [H|[]]; discriminate|].
  constructor; [intros []|constructor].
Qed.

Lemma find_before_unique {A B} (key : A -> B) (q : A -> bool) l1 k l2 :
  NoDup (map key (l1 ++ k :: l2)) ->
  find q (l1 ++ k :: l2) = Some k -> find q l1 = None.
Proof.
  intros Hnd Hf. destruct (find q l1) as [y|] eqn:E; [|reflexivity].
  exfalso. rewrite (find_app_some _ _ _ _ E) in Hf. injection Hf as ->.
  apply find_some in E. destruct E as [Hin _].
  rewrite map_app in Hnd. cbn [map] in Hnd. apply NoDup_remove_2 in Hnd.
  apply Hnd. apply in_or_app. left. now apply in_map.
Qed.

(** X17. A key that [remove] has switched off stays out: with unique
    identifiers in the table, after a successful [remove] and whatever calls
    of the key service and of the guards follow, neither guard lets a request
    through with that key. *)
Theorem removed_key_is_refused_for_good
  {P : Platform} {L : Keys.Library}
  (i u m : string) (st st1 : Keys.Store) (ops : list KeyOp)
  (requiredPermissions : option (list string)) (header : option string)
  (appConfig : bool) (now now' : N) :
  unique_ids st ->
  Keys.remove i u st = (inr m, st1) ->
  (forall au st3,
      Keys.canActivate_sha256 requiredPermissions header appConfig now now'
        (run_key_ops ops st1) = (inr au, st3) ->
      Keys.apiKeyId au <> i)
  /\ (forall au st3,
         Keys.canActivate_bcrypt requiredPermissions header appConfig now now'
           (run_key_ops ops st1) = (inr au, st3) ->
         Keys.apiKeyId au <> i).
Proof.
  intros Hnd Hr.
  pose proof (run_key_ops_revoked ops st1 i (remove_revokes _ _ _ _ _ Hnd Hr))
    as [_ Hoff].
  split; intros au st3 H.
  - apply canActivate_sha256_row in H. destruct H as (k & Hin & Ha & ->).
    intros E. specialize (Hoff k Hin E). congruence.
  - apply canActivate_bcrypt_row in H. destruct H as (k & Hin & Ha & ->).
    intros E. specialize (Hoff k Hin E). congruence.
Qed.

Lemma removed_key_is_refused_for_good_witness :
  (forall au st3,
      @Keys.canActivate_sha256 demo_platform
        (Some ["read"]) (Some "sk_live_aa") true 1000 1001
        (@run_key_ops demo_platform demo_library [demo_create_op]
           (snd (Keys.remove "k1" "u1" demo_keys))) = (inr au, st3) ->
      Keys.apiKeyId au <> "k1")
  /\ (forall au st3,
         @Keys.canActivate_bcrypt demo_library
           (Some ["read"]) (Some "sk_live_aa") true 1000 1001
           (@run_key_ops demo_platform demo_library [demo_create_op]
              (snd (Keys.remove "k1" "u1" demo_keys))) = (inr au, st3) ->
         Keys.apiKeyId au <> "k1").
Proof.
  apply (@removed_key_is_refused_for_good demo_platform demo_library
           "k1" "u1" "API key deactivated successfully" demo_keys).
  - exact unique_ids_demo_keys.
  - reflexivity.
Defined.

(** X18. [remove] reaches the caller's own keys only: with unique
    identifiers in the table, whatever identifier a user passes and whatever
    the outcome, the rows of every other user and the users are as they
    were. *)
Theorem remove_spares_other_users (i u : string) (st : Keys.Store) :
  unique_ids st ->
  keys_of_others u (snd (Keys.remove i u st)) = keys_of_others u st
  /\ Keys.users (snd (Keys.remove i u st)) = Keys.users st.
Proof.
  intros Hnd. destruct (Keys.remove i u st) as [[e|m] st1] eqn:E; cbn [snd].
  - apply remove_fails in E. now subst.
  - destruct (remove_rewrites _ _ _ _ _ Hnd E)
      as (l1 & k & l2 & El & _ & Hu & _ & ->).
    unfold keys_of_others. cbn [Keys.apiKeys Keys.users]. rewrite El.
    split; [|reflexivity].
    rewrite !filter_app. cbn [filter Keys.set_isActive Keys.userId].
    now rewrite Hu, String.eqb_refl.
Qed.

Lemma remove_spares_other_users_witness :
  keys_of_others "u2" (snd (Keys.remove "k1" "u2" demo_keys))
  = keys_of_others "u2" demo_keys
  /\ Keys.users (snd (Keys.remove "k1" "u2" demo_keys)) = Keys.users demo_keys.
Proof.
  apply (remove_spares_other_users "k1" "u2" demo_keys).
  exact unique_ids_demo_keys.
Defined.

(** X19. The limit of five live keys is kept by calls that run one at a
    time, each from its first statement to its last with no other call in
    between (two calls of [create] that overlap can both count four keys and
    both insert). Count a user's live keys as [create] does (active, with an
    expiry in the future). If no user has more than five at time [t], then
    after a call of the key service or of a guard that counts at a time [t']
    not before [t], if it counts, no user has more than five at [t']. *)
Theorem key_limit_is_kept
  {P : Platform} {L : Keys.Library} (op : KeyOp) (t t' : N) (st : Keys.Store) :
  key_limit t st -> (t <= t')%N -> counts_at op t' ->
  key_limit t' (run_key_op op st).
Proof.
  intros Hl Ht Hc. pose proof (key_limit_later t t' st Ht Hl) as Hl'.
  destruct (run_key_op_effect op st)
    as [->|j f Hid Hu He Ha Hup Hus|k Hfresh Hnew Happ Hus].
  - exact Hl'.
  - intros u. unfold live_count.
    pose proof (filter_update_first_le (Keys.by_id j) (Keys.live u t') f
                  (Keys.apiKeys st) _ Hup) as H.
    specialize (Hl' u). unfold live_count in Hl'.
    enough (length (filter (Keys.live u t') (Keys.apiKeys (run_key_op op st)))
            <= length (filter (Keys.live u t') (Keys.apiKeys st)))%nat by lia.
    apply H. intros x. unfold Keys.live. rewrite Hu, He, !andb_true_iff.
    intros [[H1 H2] H3]. auto.
  - intros u. unfold live_count. rewrite Happ, filter_app, length_app.
    cbn [filter]. specialize (Hl' u). unfold live_count in Hl'.
    destruct (Keys.live u t' k) eqn:E; cbn [length]; [|lia].
    specialize (Hfresh t' Hc). unfold live_count in Hfresh.
    unfold Keys.live in E. rewrite !andb_true_iff in E.
    destruct E as [[E _] _]. apply String.eqb_eq in E. rewrite E in Hfresh.
    lia.
Qed.

Lemma key_limit_is_kept_witness :
  key_limit 1500
    (@run_key_op demo_platform demo_library demo_create_op demo_keys).
Proof.
  apply (@key_limit_is_kept demo_platform demo_library demo_create_op
           1000%N 1500%N demo_keys).
  - apply key_limit_few. cbn. lia.
  - lia.
  - reflexivity.
Defined.

(** X20. When [rollover] issues a key. It returns exactly when the expiry
    string is well formed, the caller owns a row with the given identifier
    whose expiry is not in the future, the caller has fewer than five live
    keys, the old row's permissions are not empty and all valid, and the new
    identifier is free; it then adds one row with the old row's name and
    permissions and hands back the new key. Whether the old row is active
    plays no part. *)
Theorem rollover_returns_exactly_when
  {L : Keys.Library} (dto : Keys.RolloverApiKeyDto) (u : string)
  (now0 now now' : N) (randomHex salt newId : string) (st st' : Keys.Store)
  (r : ApiResponse Keys.IssuedKey) :
  Keys.rollover dto u now0 now now' randomHex salt newId st = (inr r, st') <->
  Keys.isValidExpirationFormat (Keys.ro_expiry dto) = true
  /\ exists old,
       find (Keys.by_id_and_userId (Keys.expired_key_id dto) u) (Keys.apiKeys st)
       = Some old
       /\ (forall e, Keys.expiresAt old = Some e -> (e <= now0)%N)
       /\ (live_count u now st < 5)%nat
       /\ Keys.permissions old <> []
       /\ (forall p, In p (Keys.permissions old) -> In p Keys.VALID_PERMISSIONS)
       /\ ~ In newId (map Keys.id (Keys.apiKeys st))
       /\ r = buildSuccessResponse "API key rollover successful"
                (issued (Keys.ro_expiry dto) now' randomHex)
       /\ st' = Keys.mkStore
                  (Keys.apiKeys st
                   ++ [created_row (Keys.name old) (Keys.permissions old)
                         (Keys.ro_expiry dto) u now' randomHex salt newId])
                  (Keys.users st).
Proof.
  rewrite rollover_runs. split.
  - intros (Hv & old & Hf & He & Hc & Hp & Hi & Hn & Hr & Hs).
    split; [exact Hv|]. exists old.
    rewrite <- has_not_expired_false, <- invalid_permissions_nil,
      <- existsb_by_id_false. auto 10.
  - intros (Hv & old & Hf & He & Hc & Hp & Hi & Hn & Hr & Hs).
    split; [exact Hv|]. exists old.
    rewrite has_not_expired_false, invalid_permissions_nil,
      existsb_by_id_false. auto 10.
Qed.

(** X21. Switching a key off does not stop its rollover. With unique
    identifiers in the table, if [rollover] of a key issues a new key, then
    it issues the same key, in a row with the schema's default for
    [isActive], also after [remove] has switched the old key off. *)
Theorem revoked_key_still_rolls_over
  {L : Keys.Library} (dto : Keys.RolloverApiKeyDto) (u m : string)
  (now0 now now' : N) (randomHex salt newId : string)
  (st st1 st2 : Keys.Store) (r : ApiResponse Keys.IssuedKey) :
  unique_ids st ->
  Keys.remove (Keys.expired_key_id dto) u st = (inr m, st1) ->
  Keys.rollover dto u now0 now now' randomHex salt newId st = (inr r, st2) ->
  exists row,
    Keys.apiKeys st2 = (Keys.apiKeys st ++ [row])%list
    /\ Keys.isActive row = Keys.isActive_default
    /\ Keys.rollover dto u now0 now now' randomHex salt newId st1
       = (inr r, Keys.mkStore (Keys.apiKeys st1 ++ [row]) (Keys.users st1)).
Proof.
  intros Hnd Hrm Hro. apply rollover_runs in Hro.
  destruct Hro as (Hv & old & Hf & He & Hc & Hp & Hi & Hn & -> & ->).
  destruct (remove_rewrites _ _ _ _ _ Hnd Hrm)
    as (l1 & k & l2 & El & Hki & Hku & Hfk & ->).
  rewrite Hf in Hfk. injection Hfk as ->.
  eexists. split; [reflexivity|]. split; [reflexivity|].
  apply rollover_runs. split; [exact Hv|].
  exists (Keys.set_isActive false k). cbn [Keys.apiKeys Keys.users].
  assert (Hq : Keys.by_id_and_userId (Keys.expired_key_id dto) u k = true)
    by now apply by_id_and_userId_true.
  repeat split; auto.
  - rewrite El in Hf. unfold unique_ids in Hnd. rewrite El in Hnd.
    rewrite (find_app_none _ _ _ (find_before_unique Keys.id _ _ _ _ Hnd Hf)).
    cbn [find]. unfold Keys.by_id_and_userId in *. cbn [Keys.id Keys.userId Keys.set_isActive].
    now rewrite Hq.
  - unfold live_count in *. cbn [Keys.apiKeys]. rewrite El in Hc.
    rewrite filter_app, length_app in *. cbn [filter] in *.
    replace (Keys.live u now (Keys.set_isActive false k)) with false.
    2:{ unfold Keys.live. cbn [Keys.isActive Keys.set_isActive].
        now rewrite andb_false_r. }
    destruct (Keys.live u now k); cbn [length] in Hc; lia.
  - apply existsb_by_id_false. apply existsb_by_id_false in Hn.
    rewrite El in Hn. rewrite map_app in *. exact Hn.
Qed.

Lemma revoked_key_still_rolls_over_witness :
  exists row,
    Keys.apiKeys
      (snd (@Keys.rollover demo_library demo_rollover_dto "u1" 3000 3000 3000
              "dd" "s:" "k3" demo_keys))
    = (Keys.apiKeys demo_keys ++ [row])%list
    /\ Keys.isActive row = @Keys.isActive_default demo_library
    /\ @Keys.rollover demo_library demo_rollover_dto "u1" 3000 3000 3000
         "dd" "s:" "k3" (snd (Keys.remove "k1" "u1" demo_keys))
       = (inr (buildSuccessResponse "API key rollover successful"
                 (@issued demo_library "1D" 3000 "dd")),
          Keys.mkStore
            (Keys.apiKeys (snd (Keys.remove "k1" "u1" demo_keys)) ++ [row])
            (Keys.users (snd (Keys.remove "k1" "u1" demo_keys)))).
Proof.
  apply (@revoked_key_still_rolls_over demo_library demo_rollover_dto "u1"
           "API key deactivated successfully" 3000%N 3000%N 3000%N
           "dd" "s:" "k3" demo_keys).
  - exact unique_ids_demo_keys.
  - reflexivity.
  - reflexivity.
Defined.

(** X22. A key that [create] issues opens the door. Let [create] return a
    key, the schema make new rows active, [bcrypt.compare] accept the key
    against its own hash and against no hash of an active row that was there
    before, and the caller be among the users. Then the guard that compares
    hashes lets through a request that carries the key, at any time up to
    the key's expiry and for any required permissions among those the key
    was created with, as the caller and under the new row's identifier. *)
Theorem created_key_authenticates
  {L : Keys.Library} (dto : Keys.CreateApiKeyDto) (u : string) (now now' : N)
  (randomHex salt newId : string) (st st1 : Keys.Store)
  (r : ApiResponse Keys.IssuedKey)
  (requiredPermissions : option (list string)) (t t' : N) (user : Keys.User) :
  Keys.create dto u now now' randomHex salt newId st = (inr r, st1) ->
  Keys.isActive_default = true ->
  Keys.bcrypt_compare (Keys.generateApiKey randomHex)
    (Keys.bcrypt_hash (Keys.generateApiKey randomHex) salt) = true ->
  (forall k, In k (Keys.apiKeys st) -> Keys.isActive k = true ->
             Keys.bcrypt_compare (Keys.generateApiKey randomHex) (Keys.keyHash k)
             = false) ->
  find (fun x => String.eqb (Keys.user_id x) u) (Keys.users st) = Some user ->
  (t <= Keys.parseExpirationDate (Keys.dto_expiry dto) now')%N ->
  (forall ps, requiredPermissions = Some ps ->
   forall p, In p ps ->
   exists perms, Keys.dto_permissions dto = Some perms /\ In p perms) ->
  exists key row,
    ar_data r = Some key
    /\ Keys.apiKeys st1 = (Keys.apiKeys st ++ [row])%list
    /\ Keys.canActivate_bcrypt requiredPermissions (Some (Keys.api_key key))
         true t t' st1
       = (inr (Keys.mkAuthUser u (Keys.email user) true newId),
          Keys.mkStore (Keys.apiKeys st ++ [Keys.set_lastUsedAt t' row])
            (Keys.users st)).
Proof.
  intros Hc Hdef Hown Hothers Huser Ht Hreq. apply create_runs in Hc.
  destruct Hc as (_ & perms & Hperms & _ & _ & _ & Hid & -> & ->).
  eexists _, _. split; [reflexivity|]. split; [reflexivity|].
  unfold issued. cbn [Keys.api_key].
  unfold Keys.canActivate_bcrypt.
  replace (String.eqb (Keys.generateApiKey randomHex) "") with false
    by reflexivity.
  unfold Keys.bind, Keys.apiKey_findMany. cbn [Keys.apiKeys fst snd].
  unfold created_row. rewrite filter_app. cbn [filter Keys.isActive].
  rewrite Hdef.
  rewrite find_app_none.
  2:{ apply find_none_all. intros x Hx. apply filter_In in Hx.
      destruct Hx as [Hx Ha]. now apply Hothers. }
  cbn [find Keys.keyHash]. rewrite Hown.
  apply check_key_record_returns. eexists. split; [reflexivity|].
  split; [|split; [reflexivity|split]].
  - intros e E. cbn in E. now injection E as <-.
  - intros ps Eps p Hp. cbn [Keys.permissions].
    destruct (Hreq ps Eps p Hp) as (perms' & E' & Hin). congruence.
  - unfold let_through. cbn [Keys.userId Keys.id Keys.users Keys.apiKeys].
    split; [eauto|]. split; [reflexivity|].
    apply (update_first_snoc (Keys.by_id newId)).
    + intros y Hy. apply existsb_by_id_false in Hid.
      unfold Keys.by_id. apply String.eqb_neq. intros E. apply Hid.
      rewrite <- E. now apply in_map.
    + unfold Keys.by_id. cbn. apply String.eqb_refl.
Qed.

Lemma created_key_authenticates_witness :
  exists key row,
    ar_data
      (buildSuccessResponse "API key created successfully"
         (@issued demo_library "1D" 1000 "cc"))
    = Some key
    /\ Keys.apiKeys
         (snd (@Keys.create demo_library demo_create_dto "u1" 1000 1000 "cc"
                 "s:" "k3" demo_keys))
       = (Keys.apiKeys demo_keys ++ [row])%list
    /\ @Keys.canActivate_bcrypt demo_library (Some ["transfer"])
         (Some (Keys.api_key key)) true 5000 5001
         (snd (@Keys.create demo_library demo_create_dto "u1" 1000 1000 "cc"
                 "s:" "k3" demo_keys))
       = (inr (Keys.mkAuthUser "u1" "u1@example.com" true "k3"),
          Keys.mkStore (Keys.apiKeys demo_keys ++ [Keys.set_lastUsedAt 5001 row])
            (Keys.users demo_keys)).
Proof.
  apply (@created_key_authenticates demo_library demo_create_dto "u1"
           1000%N 1000%N "cc" "s:" "k3" demo_keys
           (snd (@Keys.create demo_library demo_create_dto "u1" 1000 1000 "cc"
                   "s:" "k3" demo_keys))
           (buildSuccessResponse "API key created successfully"
              (@issued demo_library "1D" 1000 "cc"))
           (Some ["transfer"]) 5000%N 5001%N
           (Keys.mkUser "u1" "u1@example.com")).
  - reflexivity.
  - reflexivity.
  - reflexivity.
  - intros k [<-|[<-|[]]] _; reflexivity.
  - reflexivity.
  - vm_compute. discriminate.
  - intros ps E p Hp. injection E as <-. destruct Hp as [<-|[]].
    exists ["read"; "transfer"]. split; [reflexivity|]. right. now left.
Defined.


(** ** The service with its arithmetic *)

(** The embedding with exact arithmetic is [Rounded] at [exact_arithmetic]. *)
Lemma exact_service {P : Platform} (this : WalletService) :
  Rounded.transfer (A := exact_arithmetic) = transfer
  /\ Rounded.handleWebhook (A := exact_arithmetic) = handleWebhook
  /\ Rounded.verifyDepositWithPaystack (A := exact_arithmetic)
     = verifyDepositWithPaystack
  /\ Rounded.initiateDeposit (A := exact_arithmetic) this = initiateDeposit this.
Proof. repeat split. Qed.

Section RoundedFacts.

Context {P : Platform} {A : Arithmetic}.

Lemma by_walletNumber_rounded_decrement n a w :
  by_walletNumber n (Rounded.decrement a w) = by_walletNumber n w.
Proof. reflexivity. Qed.

Lemma by_walletNumber_rounded_increment n a w :
  by_walletNumber n (Rounded.increment a w) = by_walletNumber n w.
Proof. reflexivity. Qed.

Lemma by_userId_rounded_decrement u a w :
  by_userId u (Rounded.decrement a w) = by_userId u w.
Proof. reflexivity. Qed.

Lemma by_userId_rounded_increment u a w :
  by_userId u (Rounded.increment a w) = by_userId u w.
Proof. reflexivity. Qed.

Lemma find_walletNumber_after_rounded_debit u n a ws ws1 Y :
  find (by_walletNumber n) ws = Some Y ->
  update_first (by_userId u) (Rounded.decrement a) ws = Some ws1 ->
  exists Y1, find (by_walletNumber n) ws1 = Some Y1 /\ userId Y1 = userId Y.
Proof.
  revert ws1. induction ws as [|w ws IH]; simpl; intros ws1 HY Hu; [discriminate|].
  destruct (by_userId u w) eqn:Hw.
  - injection Hu as <-. simpl. rewrite by_walletNumber_rounded_decrement.
    destruct (by_walletNumber n w) eqn:Hn.
    + injection HY as <-. eauto.
    + eauto.
  - destruct (update_first (by_userId u) (Rounded.decrement a) ws) as [r|] eqn:Hr;
      [|discriminate].
    injection Hu as <-. simpl.
    destruct (by_walletNumber n w) eqn:Hn.
    + injection HY as <-. eauto.
    + eapply IH; eauto.
Qed.

Lemma rounded_transfer_runs fromUserId toWalletNumber amount now db :
  rounded_transfer_run fromUserId toWalletNumber amount now db
    (Rounded.transfer fromUserId toWalletNumber amount now db).
Proof.
  unfold Rounded.transfer.
  destruct (Qle_bool amount 0) eqn:Hpos.
  { apply Qle_bool_iff in Hpos. now do 2 constructor. }
  apply Qle_bool_false in Hpos.
  unfold bind at 1. unfold wallet_findUnique at 1.
  destruct (find (by_walletNumber toWalletNumber) (wallets db)) as [Y|] eqn:HY.
  2:{ constructor. now apply rej_recipient. }
  unfold bind at 1. unfold wallet_findUnique at 1.
  destruct (find (by_userId fromUserId) (wallets db)) as [X|] eqn:HX.
  2:{ constructor. now apply rej_no_sender with Y. }
  destruct (QMicromega.Qlt_bool (balance X) amount) eqn:Hbal.
  { apply QMicromega.Qlt_bool_iff in Hbal. constructor.
    now apply rej_balance with X Y. }
  pose proof (proj1 (Qlt_bool_false _ _) Hbal) as Hle.
  unfold bind at 1. unfold prisma_transaction, Rounded.transfer_body.
  unfold bind at 1. unfold transaction_findFirst.
  destruct (find _ (transactions db)) as [t|] eqn:Hdup.
  { unfold ret. eapply rounded_duplicate; eauto. }
  unfold bind at 1. unfold wallet_findUnique at 1. rewrite HX, Hbal.
  unfold bind at 1. unfold wallet_update at 1.
  rewrite (balance_and_userId_update _ _ _ _ HX).
  destruct (update_first_some _ (Rounded.decrement amount) _ _ HX) as [ws1 Hws1].
  rewrite Hws1.
  unfold bind at 1. unfold wallet_update at 1. cbn [wallets transactions].
  destruct (find_walletNumber_after_rounded_debit _ _ _ _ _ _ HY Hws1)
    as (Y1 & HY1 & _).
  destruct (update_first_some _ (Rounded.increment amount) _ _ HY1) as [ws2 Hws2].
  rewrite Hws2.
  unfold bind at 1. unfold transaction_createMany, prisma_transaction.
  cbn [insert_all]. unfold bind at 1. unfold transaction_create at 1.
  cbn [wallets transactions reference].
  destruct (existsb (by_reference (transfer_reference now fromUserId))
              (transactions db)) eqn:Hs.
  { constructor. apply rej_reference with X Y; auto using existsb_true_find. }
  unfold bind at 1. unfold transaction_create at 1.
  cbn [wallets transactions reference].
  rewrite existsb_app. cbn [existsb]. rewrite orb_false_r.
  destruct (existsb (by_reference (transfer_reference now (userId Y)))
              (transactions db)) eqn:Hr.
  { constructor. apply rej_reference with X Y; auto using existsb_true_find. }
  cbn [orb]. unfold by_reference at 1. cbn [reference].
  destruct (String.eqb (transfer_reference now fromUserId)
              (transfer_reference now (userId Y))) eqn:Hsame.
  { constructor. apply rej_reference with X Y; auto. left.
    apply String.eqb_eq in Hsame. unfold transfer_reference in Hsame.
    symmetry. revert Hsame. generalize (string_of_N now). intros s E.
    cbn in E. injection E as E. revert E.
    induction s as [|c s IH]; cbn; intros E; [now injection E|].
    injection E as E. auto. }
  unfold ret. cbn [wallets transactions].
  rewrite <- app_assoc. cbn [app].
  apply (rounded_completed fromUserId toWalletNumber amount now db X Y ws1 ws2);
    auto using existsb_false_find.
  intros E. rewrite E, String.eqb_refl in Hsame. discriminate.
Qed.

Lemma rounded_transfer_wallets u n a ws ws1 ws2 X Y :
  find (by_userId u) ws = Some X ->
  find (by_walletNumber n) ws = Some Y ->
  userId Y <> u ->
  update_first (by_userId u) (Rounded.decrement a) ws = Some ws1 ->
  update_first (by_walletNumber n) (Rounded.increment a) ws1 = Some ws2 ->
  find (by_userId u) ws2 = Some (Rounded.decrement a X)
  /\ find (by_walletNumber n) ws2 = Some (Rounded.increment a Y)
  /\ forall v, v <> u -> v <> userId Y ->
       find (by_userId v) ws2 = find (by_userId v) ws.
Proof.
  intros HX HY Hne H1 H2.
  assert (HX1 : find (by_userId u) ws1 = Some (Rounded.decrement a X)).
  { eapply find_update_first_hit; eauto.
    rewrite by_userId_rounded_decrement. apply find_some in HX. tauto. }
  assert (HY1 : find (by_walletNumber n) ws1 = Some Y).
  { eapply find_update_first_other; eauto using by_walletNumber_rounded_decrement.
    now apply by_userId_false. }
  repeat split.
  - rewrite <- HX1.
    eapply find_update_first_miss; eauto using by_userId_rounded_increment.
    intros x Hx. rewrite HY1 in Hx. injection Hx as <-. now apply by_userId_false.
  - eapply find_update_first_hit; eauto.
    rewrite by_walletNumber_rounded_increment. apply find_some in HY. tauto.
  - intros v Hv1 Hv2.
    transitivity (find (by_userId v) ws1).
    + eapply find_update_first_miss; eauto using by_userId_rounded_increment.
      intros x Hx. rewrite HY1 in Hx. injection Hx as <-.
      apply by_userId_false. congruence.
    + eapply find_update_first_miss; eauto using by_userId_rounded_decrement.
      intros x Hx. rewrite HX in Hx. injection Hx as <-.
      apply by_userId_false. apply find_by_userId in HX. congruence.
Qed.

Lemma rounded_transfer_when_short from to amt now db X Y :
  0 < amt ->
  find (by_walletNumber to) (wallets db) = Some Y ->
  find (by_userId from) (wallets db) = Some X ->
  balance X < amt ->
  Rounded.transfer from to amt now db = (inl insufficient_balance, db).
Proof.
  intros Hpos HY HX Hlt. unfold Rounded.transfer.
  rewrite (proj2 (Qle_bool_false _ _) Hpos).
  unfold bind, wallet_findUnique. rewrite HY, HX.
  now rewrite (proj2 (QMicromega.Qlt_bool_iff _ _) Hlt).
Qed.

End RoundedFacts.

(** C3, as the code has it. A completed (non-duplicate) transfer of [amt]
    from the wallet X of [fromUserId] to the wallet Y numbered
    [toWalletNumber] replaces the balance of X by the difference of that
    balance and [amt] and the balance of Y by the sum of that balance and
    [amt], each as the arithmetic of the numbers computes it, leaves the
    wallets of all other users alone and appends exactly two rows, a
    [transfer_out] of [- amt] on the sender and a [transfer_in] of [amt] on
    the recipient, with the same idempotency key and amounts that sum to
    zero. The unit is atomic: a call that does not complete leaves the
    database exactly as it was. *)
Theorem transfer_debits_and_credits
  {P : Platform} {A : Arithmetic} (fromUserId toWalletNumber : string) (amt : Q)
  (now : N) (db db' : DB) (res : Exn + TransferResult) :
  Rounded.transfer fromUserId toWalletNumber amt now db = (res, db') ->
  (forall ref, res = inr (transfer_completed ref) ->
     exists X Y row_out row_in,
       find (by_userId fromUserId) (wallets db) = Some X
       /\ find (by_walletNumber toWalletNumber) (wallets db) = Some Y
       /\ find (by_userId fromUserId) (wallets db')
          = Some (mkWallet (userId X) (walletNumber X) (num_sub (balance X) amt))
       /\ find (by_walletNumber toWalletNumber) (wallets db')
          = Some (mkWallet (userId Y) (walletNumber Y) (num_add (balance Y) amt))
       /\ (forall v, v <> fromUserId -> v <> userId Y ->
             find (by_userId v) (wallets db') = find (by_userId v) (wallets db))
       /\ transactions db' = (transactions db ++ [row_out; row_in])%list
       /\ (type row_out = transfer_out /\ tx_userId row_out = fromUserId
           /\ amount row_out = - amt /\ status row_out = success)
       /\ (type row_in = transfer_in /\ tx_userId row_in = userId Y
           /\ amount row_in = amt /\ status row_in = success)
       /\ amount row_out + amount row_in == 0
       /\ (exists key md_out md_in,
             metadata row_out = Some md_out /\ metadata row_in = Some md_in
             /\ idempotency_key md_out = Some key
             /\ idempotency_key md_in = Some key)
       /\ reference row_out = ref /\ reference row_in <> ref)
  /\ ((forall ref, res <> inr (transfer_completed ref)) -> db' = db).
Proof.
  intros Hrun.
  pose proof (rounded_transfer_runs fromUserId toWalletNumber amt now db) as R.
  rewrite Hrun in R. remember (res, db') as out eqn:E.
  destruct R as [e He | X Y t HX HY Hpos Hle Hdup
                | X Y ws1 ws2 HX HY Hpos Hle Hdup Hne Hw1 Hw2 Hs Hr];
    injection E as <- <-.
  - split; [intros r Hc; discriminate|reflexivity].
  - split; [intros r Hc; discriminate|reflexivity].
  - split.
    + intros r Hc. injection Hc as <-.
      destruct (rounded_transfer_wallets _ _ _ _ _ _ _ _ HX HY Hne Hw1 Hw2)
        as (A1 & A2 & A3).
      exists X, Y, (transfer_out_row fromUserId toWalletNumber amt now),
        (transfer_in_row fromUserId toWalletNumber amt now Y X).
      cbn [wallets transactions]. repeat split; auto.
      * cbn. ring.
      * eexists _, _, _. cbn. repeat split.
      * cbn. unfold transfer_reference. intros E.
        apply Hne. revert E. generalize (string_of_N now). intros s E.
        cbn in E. injection E as E. revert E.
        induction s as [|c s IH]; cbn; intros E; [now injection E|].
        injection E as E. auto.
    + intros Hn. exfalso. eapply Hn. reflexivity.
Qed.

Lemma transfer_debits_and_credits_witness :
  fst binary64_transfer = inr (transfer_completed "txf_3000_u1")
  /\ exists X Y,
       find (by_userId "u1") (wallets (snd binary64_transfer)) = Some X
       /\ balance X == 60
       /\ find (by_walletNumber "1000000002") (wallets (snd binary64_transfer)) = Some Y
       /\ balance Y == 40
       /\ length (transactions (snd binary64_transfer)) = 2%nat.
Proof.
  split; [reflexivity|].
  destruct (transfer_debits_and_credits (P := demo_platform) (A := binary64)
              "u1" "1000000002" 40 3000 demo_db (snd binary64_transfer)
              (fst binary64_transfer))
    as [Hdone _]; [reflexivity|].
  destruct (Hdone "txf_3000_u1" eq_refl)
    as (X & Y & ro & ri & HX & HY & HX' & HY' & _ & Hts & _).
  injection HX as <-. injection HY as <-.
  eexists _, _. split; [exact HX'|]. split; [reflexivity|].
  split; [exact HY'|]. split; [reflexivity|].
  rewrite Hts. reflexivity.
Defined.

(** C3 as the spec states it fails: u1 holds 1.1 and sends 0.2 to u2, who
    holds 0.1. The transfer completes; the balance of u1 has not gone down by
    the amount, nor has the balance of u2 gone up by it, and the two balances
    together hold 3/2^55 more than before. *)
Lemma transfer_debits_and_credits_counterexample :
  fst fractional_transfer = inr (transfer_completed "txf_3000_u1")
  /\ exists X' Y',
       find (by_userId "u1") (wallets (snd fractional_transfer)) = Some X'
       /\ find (by_userId "u2") (wallets (snd fractional_transfer)) = Some Y'
       /\ ~ double_1_1 - balance X' == double_0_2
       /\ ~ balance Y' - double_0_1 == double_0_2
       /\ balance X' + balance Y' - (double_1_1 + double_0_1)
          == 3 # (2 ^ 55).
Proof.
  split; [vm_compute; reflexivity|].
  eexists _, _. split; [vm_compute; reflexivity|].
  split; [vm_compute; reflexivity|].
  split; [|split].
  - intros H. vm_compute in H. discriminate.
  - intros H. vm_compute in H. discriminate.
  - vm_compute. reflexivity.
Qed.

Ltac open_rounded :=
  cbv beta iota zeta delta
    [Rounded.handleWebhook Rounded.verifyDepositWithPaystack
     Rounded.initiateDeposit getOrCreateWallet
     axios_post axios_get try_catch prisma_transaction bind
     transaction_findUnique transaction_findFirst transaction_update
     transaction_create wallet_upsert wallet_update wallet_create
     wallet_findUnique ret throw].

Section RoundedSettlements.

Context {P : Platform} {A : Arithmetic}.

(** A [charge.success] event with status [success] for a pending
    transaction whose user has a wallet: the row is settled and the wallet
    credited with the quotient of the amount by 100. *)
Lemma rounded_handleWebhook_credits data now db t X :
  wd_status data = "success" ->
  find (by_reference (wd_reference data)) (transactions db) = Some t ->
  status t = pending ->
  find (by_userId (tx_userId t)) (wallets db) = Some X ->
  exists ws ts,
    Rounded.handleWebhook "charge.success" data now db
    = (inr (mkWebhookResult true None), mkDB ws ts)
    /\ find (by_userId (tx_userId t)) ws
       = Some (Rounded.increment (num_div (wd_amount data) 100) X)
    /\ find (by_reference (wd_reference data)) ts
       = Some (settle success (wd_gateway_response data) now t).
Proof.
  intros Hst Ht Hp HX.
  destruct (update_first_some _ (Rounded.increment (num_div (wd_amount data) 100))
              _ _ HX) as [ws Hws].
  destruct (update_first_some _ (settle success (wd_gateway_response data) now) _ _ Ht)
    as [ts Hts].
  exists ws, ts. split; [|split].
  - unfold Rounded.handleWebhook.
    replace (prefix "charge." "charge.success") with true by reflexivity.
    rewrite Hst, !String.eqb_refl. cbn [negb andb].
    open_rounded. rewrite Ht, Hp. cbn [is_terminal TxStatus_eqb orb].
    rewrite Hts. cbn [wallets]. rewrite HX, Hws. reflexivity.
  - eapply find_update_first_hit; eauto.
    rewrite by_userId_rounded_increment. apply find_some in HX. tauto.
  - eapply find_update_first_hit; eauto.
    rewrite by_reference_settle. apply find_some in Ht. tauto.
Qed.

(** An event for a transaction that is not pending. *)
Lemma rounded_handleWebhook_terminal data now db t :
  find (by_reference (wd_reference data)) (transactions db) = Some t ->
  status t <> pending ->
  Rounded.handleWebhook "charge.success" data now db
  = (inr (mkWebhookResult true (Some "Already processed")), db).
Proof.
  intros Ht Hs. unfold Rounded.handleWebhook.
  replace (prefix "charge." "charge.success") with true by reflexivity.
  open_rounded. cbn [negb]. rewrite Ht.
  now rewrite (proj2 (not_pending_terminal (status t)) Hs).
Qed.

(** What [Rounded.initiateDeposit] leaves when it returns. *)
Lemma rounded_initiateDeposit_returns this u amt email clock random now gateway
  db r db1 :
  Rounded.initiateDeposit this u amt email clock random now gateway db = (inr r, db1) ->
  exists response X,
    gateway (Rounded.initialize_request this u amt email now) = inr response
    /\ find (by_userId u) (wallets db1) = Some X
    /\ (find (by_userId u) (wallets db) = Some X
        \/ find (by_userId u) (wallets db) = None /\ balance X = 0)
    /\ find (by_reference (deposit_reference now u)) (transactions db1)
       = Some (mkTransaction (deposit_reference now u) u amt deposit pending
                 (Some (rs_access_code response)) None None None).
Proof.
  unfold Rounded.initiateDeposit, bind at 1.
  destruct (getOrCreateWallet_runs u clock random db) as [Hts Hcases].
  cbv zeta in Hts, Hcases.
  destruct (getOrCreateWallet u clock random db) as [[e|w] db0]; [discriminate|].
  unfold try_catch, bind, axios_post, transaction_create, ret, throw.
  destruct (gateway _) as [e'|response]; [discriminate|].
  cbn [reference]. destruct (existsb _ (transactions db0)) eqn:Hex; [discriminate|].
  intros E. injection E as _ <-. cbn [wallets transactions].
  assert (Hrow : forall row,
             reference row = deposit_reference now u ->
             find (by_reference (deposit_reference now u)) (transactions db0 ++ [row])
             = Some row).
  { intros row Hrow. rewrite find_app_none by now apply existsb_false_find.
    cbn. unfold by_reference. now rewrite Hrow, String.eqb_refl. }
  destruct Hcases as [(w0 & Hw0 & E)|[(_ & E)|[(_ & n & e0 & E & _)|(Hn & n & E)]]];
    try discriminate.
  - injection E as -> ->. exists response, w0.
    repeat split; auto.
  - injection E as -> ->. exists response, (mkWallet u n 0).
    repeat split; auto. cbn [wallets].
    rewrite find_app_none by exact Hn. cbn. unfold by_userId. cbn.
    now rewrite String.eqb_refl.
Qed.

(** A poll that the gateway answers with [success], for a transaction that
    is not [success] and whose user has a wallet. *)
Lemma rounded_poll_settles ref now kobo g db t X :
  find (by_reference ref) (transactions db) = Some t ->
  status t <> success ->
  find (by_userId (tx_userId t)) (wallets db) = Some X ->
  exists ws ts,
    Rounded.verifyDepositWithPaystack ref now (inr (mkVerifyData "success" kobo g)) db
    = (inr (mkVerifyResult (reference t) success (num_div kobo 100) (Some "success")
              "Payment verified and wallet credited"),
       mkDB ws ts)
    /\ find (by_userId (tx_userId t)) ws
       = Some (Rounded.increment (num_div kobo 100) X)
    /\ find (by_reference ref) ts = Some (settle success g now t).
Proof.
  intros Ht Hs HX.
  destruct (update_first_some _ (Rounded.increment (num_div kobo 100)) _ _ HX)
    as [ws Hws].
  destruct (update_first_some _ (settle success g now) _ _ Ht) as [ts Hts].
  exists ws, ts. split; [|split].
  - open_rounded. rewrite Ht. cbn [vd_status vd_amount vd_gateway_response].
    replace (TxStatus_eqb (status t) success) with false
      by (destruct (status t); try reflexivity; congruence).
    rewrite String.eqb_refl, Hts. cbn [wallets]. rewrite HX, Hws. reflexivity.
  - eapply find_update_first_hit; eauto.
    rewrite by_userId_rounded_increment. apply find_some in HX. tauto.
  - eapply find_update_first_hit; eauto.
    rewrite by_reference_settle. apply find_some in Ht. tauto.
Qed.

End RoundedSettlements.

(** C6, as the code has it. Money is kept in major units: the amount a
    deposit is initiated with is stored as it is on the Transaction row and
    sent to the gateway as its product with 100, which nothing rounds to an
    integer; the amount of a [charge.success] event is divided by 100 and the
    quotient added to the balance, and it is that balance which the check of
    [transfer] compares with the amount asked. The product, the quotient and
    the sum are those of the arithmetic of the numbers. *)
Theorem money_is_kept_in_major_units
  {P : Platform} {A : Arithmetic} (this : WalletService) (userId : string)
  (amt : Q) (email : string) (clock random : nat -> N) (now : N)
  (gateway : Gateway) (db db1 : DB) (r : DepositResult) :
  Rounded.initiateDeposit this userId amt email clock random now gateway db
  = (inr r, db1) ->
  exists response row X,
    gateway (Rounded.initialize_request this userId amt email now) = inr response
    /\ rq_amount (Rounded.initialize_request this userId amt email now)
       = num_mul amt 100
    /\ find (by_reference (deposit_reference now userId)) (transactions db1) = Some row
    /\ amount row = amt
    /\ find (by_userId userId) (wallets db1) = Some X
    /\ forall now' kobo gateway_response,
         exists db2 X',
           Rounded.handleWebhook "charge.success"
             (mkWebhookData (deposit_reference now userId) kobo "success"
                gateway_response) now' db1
           = (inr (mkWebhookResult true None), db2)
           /\ find (by_userId userId) (wallets db2) = Some X'
           /\ balance X' = num_add (balance X) (num_div kobo 100)
           /\ (forall toWalletNumber Y a now'',
                 find (by_walletNumber toWalletNumber) (wallets db2) = Some Y ->
                 0 < a -> balance X' < a ->
                 Rounded.transfer userId toWalletNumber a now'' db2
                 = (inl insufficient_balance, db2)).
Proof.
  intros Hrun.
  destruct (rounded_initiateDeposit_returns _ _ _ _ _ _ _ _ _ _ _ Hrun)
    as (response & X & Hg & HX & _ & Hrow).
  eexists response, _, X. split; [exact Hg|]. split; [reflexivity|].
  split; [exact Hrow|]. split; [reflexivity|]. split; [exact HX|].
  intros now' kobo g.
  destruct (rounded_handleWebhook_credits
              (mkWebhookData (deposit_reference now userId) kobo "success" g)
              now' db1 _ X eq_refl Hrow eq_refl HX)
    as (ws & ts & Hw & HX' & _).
  exists (mkDB ws ts), (Rounded.increment (num_div kobo 100) X).
  split; [exact Hw|]. split; [exact HX'|]. split; [reflexivity|].
  intros to Y a now'' HY Ha Hlt.
  now apply rounded_transfer_when_short
    with (Rounded.increment (num_div kobo 100) X) Y.
Qed.

Lemma money_is_kept_in_major_units_witness :
  fst binary64_deposit
  = inr (mkDepositResult "dep_1000_u1" "https://checkout.example/x")
  /\ exists db2 X',
       Rounded.handleWebhook (P := demo_platform) (A := binary64) "charge.success"
         (mkWebhookData "dep_1000_u1" 500000 "success" None) 2000
         (snd binary64_deposit)
       = (inr (mkWebhookResult true None), db2)
       /\ find (by_userId "u1") (wallets db2) = Some X'
       /\ balance X' == 5000.
Proof.
  split; [reflexivity|].
  destruct (money_is_kept_in_major_units (P := demo_platform) (A := binary64)
              demo_service "u1" 5000 "u1@example.com" demo_clock demo_random 1000
              answering_gateway empty_db (snd binary64_deposit)
              (mkDepositResult "dep_1000_u1" "https://checkout.example/x") eq_refl)
    as (response & row & X & _ & _ & _ & _ & HX & Hweb).
  destruct (Hweb 2000%N 500000 None) as (db2 & X' & H1 & H2 & H3 & _).
  exists db2, X'. split; [exact H1|]. split; [exact H2|].
  rewrite H3. vm_compute in HX. injection HX as <-. vm_compute. reflexivity.
Defined.

(** C6 as the spec states it fails: an eighth of a naira is sent to the
    gateway as 12.5 kobo, which no rounding has made an integer. *)
Lemma money_is_kept_in_major_units_counterexample :
  rq_amount (Rounded.initialize_request (A := binary64) demo_service "u1" (1 # 8)
               "u1@example.com" 1000)
  == 25 # 2
  /\ ~ (exists z : Z,
          rq_amount (Rounded.initialize_request (A := binary64) demo_service "u1"
                       (1 # 8) "u1@example.com" 1000)
          == inject_Z z).
Proof.
  assert (E : rq_amount (Rounded.initialize_request (A := binary64) demo_service
                           "u1" (1 # 8) "u1@example.com" 1000) == 25 # 2)
    by (vm_compute; reflexivity).
  split; [exact E|].
  intros [z H]. rewrite E in H. unfold Qeq in H. cbn in H. lia.
Qed.

(** C1, on the code: a verification poll settles a transaction that is
    already [failed]. For a [failed] transaction whose user has a wallet, the
    webhook handler treats the row as terminal ("Already processed", nothing
    written), but a poll that the gateway answers with [success] moves the
    row to [success] and adds the quotient of the amount by 100 to the
    wallet. *)
Theorem poll_settles_failed_deposit
  {P : Platform} {A : Arithmetic} (ref : string) (now : N) (kobo : Q)
  (g : option string) (db : DB) (t : Transaction) (X : Wallet) :
  find (by_reference ref) (transactions db) = Some t ->
  status t = failed ->
  find (by_userId (tx_userId t)) (wallets db) = Some X ->
  Rounded.handleWebhook "charge.success" (mkWebhookData ref kobo "success" g) now db
  = (inr (mkWebhookResult true (Some "Already processed")), db)
  /\ exists db',
       Rounded.verifyDepositWithPaystack ref now
         (inr (mkVerifyData "success" kobo g)) db
       = (inr (mkVerifyResult (reference t) success (num_div kobo 100)
                 (Some "success") "Payment verified and wallet credited"),
          db')
       /\ status_of ref db' = Some success
       /\ find (by_userId (tx_userId t)) (wallets db')
          = Some (mkWallet (userId X) (walletNumber X)
                    (num_add (balance X) (num_div kobo 100))).
Proof.
  intros Ht Hs HX. split.
  - apply rounded_handleWebhook_terminal with t; [exact Ht|congruence].
  - destruct (rounded_poll_settles ref now kobo g db t X Ht) as (ws & ts & H1 & H2 & H3);
      [congruence|exact HX|].
    exists (mkDB ws ts). split; [exact H1|]. split; [|exact H2].
    unfold status_of. cbn [transactions]. now rewrite H3.
Qed.

(** The deposit of 50 that was settled and credited (u1 holds 150), then
    marked [failed] by a poll answered with 404, is credited a second time. *)
Lemma poll_settles_failed_deposit_witness :
  (exists X, find (by_userId "u1") (wallets abandoned_db) = Some X
             /\ balance X == 150)
  /\ status_of "dep_1000_u1" abandoned_db = Some failed
  /\ exists db' v X',
       Rounded.verifyDepositWithPaystack (P := demo_platform) (A := binary64)
         "dep_1000_u1" 3000 (inr paid_5000_kobo) abandoned_db
       = (inr v, db')
       /\ vr_status v = success
       /\ vr_message v = "Payment verified and wallet credited"
       /\ status_of "dep_1000_u1" db' = Some success
       /\ find (by_userId "u1") (wallets db') = Some X'
       /\ balance X' == 200.
Proof.
  split; [eexists; split; [reflexivity|vm_compute; reflexivity]|].
  split; [reflexivity|].
  edestruct (poll_settles_failed_deposit (P := demo_platform) (A := binary64)
               "dep_1000_u1" 3000 5000 (Some "Approved") abandoned_db)
    as (_ & db' & H1 & H2 & H3); [reflexivity|reflexivity|reflexivity|].
  eexists db', _, _. split; [exact H1|]. split; [reflexivity|].
  split; [reflexivity|]. split; [exact H2|]. split; [exact H3|].
  vm_compute. reflexivity.
Defined.

(** C8, on the code: the application is created without [rawBody: true], so
    the endpoint never sees the body it is meant to hash. Whatever the body,
    a delivery signed with the digest of that body is refused with "Invalid
    signature" and nothing written (unless the digest happens to be that of
    the empty string); the only signature the endpoint lets through is the
    digest of the empty string; and its answer does not depend on the body
    at all. *)
Theorem application_webhook_hashes_no_body
  {P : Platform} (this : WalletService) (body : string) (now : N) (db : DB) :
  hmac_sha512_hex (webhookSecret this) body <> "" ->
  hmac_sha512_hex (webhookSecret this) body
  <> hmac_sha512_hex (webhookSecret this) "" ->
  post_paystack_webhook this body
    (Some (hmac_sha512_hex (webhookSecret this) body)) now db
  = (inl (BadRequestException "Invalid signature"), db)
  /\ (forall signature r db',
        post_paystack_webhook this body (Some signature) now db = (inr r, db') ->
        signature = hmac_sha512_hex (webhookSecret this) "")
  /\ (forall body' signature,
        post_paystack_webhook this body' signature now db
        = post_paystack_webhook this body signature now db).
Proof.
  intros Hne Hdiff. unfold post_paystack_webhook, paystackWebhook.
  cbn [req_rawBody bootstrap_options opt_rawBody].
  unfold verifyPaystackSignature. fold (webhookSecret this).
  split; [|split].
  - apply String.eqb_neq in Hne. rewrite Hne.
    replace (String.eqb (hmac_sha512_hex (webhookSecret this) "")
               (hmac_sha512_hex (webhookSecret this) body)) with false;
      [reflexivity|].
    symmetry. apply String.eqb_neq. congruence.
  - intros signature r db'.
    destruct (String.eqb signature ""); [discriminate|].
    destruct (String.eqb (hmac_sha512_hex (webhookSecret this) "") signature)
      eqn:E; cbn [negb]; [|discriminate].
    intros _. symmetry. now apply String.eqb_eq.
  - reflexivity.
Qed.

Lemma application_webhook_hashes_no_body_witness :
  JSON_parse (Platform := parsing_platform) demo_body
  = Some (mkWebhookPayload "charge.success"
            (mkWebhookData "dep_1000_u1" 500000 "success" None))
  /\ post_paystack_webhook (P := parsing_platform) demo_service demo_body
       (Some (hmac_sha512_hex (Platform := parsing_platform)
                (webhookSecret demo_service) demo_body))
       2000 demo_pending_db
     = (inl (BadRequestException "Invalid signature"), demo_pending_db).
Proof.
  split; [reflexivity|].
  apply (application_webhook_hashes_no_body (P := parsing_platform) demo_service
           demo_body 2000 demo_pending_db); vm_compute; discriminate.
Defined.

(** X1. A [charge.success] event delivered twice, the second delivery after
    the first has finished, credits the wallet once: the first delivery
    settles the pending transaction and adds the quotient of the amount by
    100 to the balance, the second returns "Already processed" and changes
    nothing. *)
Theorem webhook_credits_once_in_sequence
  {P : Platform} {A : Arithmetic} (data : WebhookData) (now now' : N) (db : DB)
  (t : Transaction) (X : Wallet) :
  wd_status data = "success" ->
  find (by_reference (wd_reference data)) (transactions db) = Some t ->
  status t = pending ->
  find (by_userId (tx_userId t)) (wallets db) = Some X ->
  exists db1,
    Rounded.handleWebhook "charge.success" data now db
    = (inr (mkWebhookResult true None), db1)
    /\ find (by_userId (tx_userId t)) (wallets db1)
       = Some (mkWallet (userId X) (walletNumber X)
                 (num_add (balance X) (num_div (wd_amount data) 100)))
    /\ status_of (wd_reference data) db1 = Some success
    /\ Rounded.handleWebhook "charge.success" data now' db1
       = (inr (mkWebhookResult true (Some "Already processed")), db1).
Proof.
  intros Hst Ht Hp HX.
  destruct (rounded_handleWebhook_credits data now db t X Hst Ht Hp HX)
    as (ws & ts & Hrun & HX' & Ht').
  exists (mkDB ws ts). split; [exact Hrun|]. split; [exact HX'|]. split.
  - unfold status_of. cbn [transactions]. now rewrite Ht'.
  - apply rounded_handleWebhook_terminal
      with (settle success (wd_gateway_response data) now t);
      [exact Ht'|discriminate].
Qed.

Lemma webhook_credits_once_in_sequence_witness :
  exists db1 X',
    Rounded.handleWebhook (P := demo_platform) (A := binary64) "charge.success"
      approved_5000_kobo 2000 demo_pending_db
    = (inr (mkWebhookResult true None), db1)
    /\ find (by_userId "u1") (wallets db1) = Some X'
    /\ balance X' == 150
    /\ Rounded.handleWebhook (P := demo_platform) (A := binary64) "charge.success"
         approved_5000_kobo 2500 db1
       = (inr (mkWebhookResult true (Some "Already processed")), db1).
Proof.
  destruct (webhook_credits_once_in_sequence (P := demo_platform) (A := binary64)
              approved_5000_kobo 2000 2500 demo_pending_db pending_deposit u1_wallet
              eq_refl eq_refl eq_refl eq_refl)
    as (db1 & H1 & H2 & _ & H3).
  eexists db1, _. split; [exact H1|]. split; [exact H2|].
  split; [vm_compute; reflexivity|exact H3].
Defined.

Lemma deposit_reference_not_empty now u :
  String.eqb (deposit_reference now u) "" = false.
Proof. reflexivity. Qed.

(** X12. The life of a deposit. After the deposit endpoint has returned, the
    callback endpoint reports the stored reference as [pending] with the
    amount asked, and writes nothing. Once [handleWebhook] has run a
    [charge.success] event with status [success] for that reference, the
    callback reports [success], still with the amount asked, and
    [getBalance] reports the sum of the old balance and the quotient of the
    event's amount by 100. *)
Theorem deposit_lifecycle
  {P : Platform} {A : Arithmetic} (this : WalletService) (user : RequestUser)
  (amt : Q) (clock random : nat -> N) (now : N) (gateway : Gateway) (db db1 : DB)
  (r : ApiResponse DepositResult) :
  Rounded.controller_deposit this user amt clock random now gateway db = (inr r, db1) ->
  exists X,
    find (by_userId (ru_id user)) (wallets db1) = Some X
    /\ paystackCallback (Some (deposit_reference now (ru_id user))) db1
       = (inr (buildSuccessResponse "Payment processed"
                 (mkDepositStatus (deposit_reference now (ru_id user)) pending amt)),
          db1)
    /\ forall kobo g now' clock' random',
         exists db2,
           Rounded.handleWebhook "charge.success"
             (mkWebhookData (deposit_reference now (ru_id user)) kobo "success" g)
             now' db1
           = (inr (mkWebhookResult true None), db2)
           /\ paystackCallback (Some (deposit_reference now (ru_id user))) db2
              = (inr (buildSuccessResponse "Payment processed"
                        (mkDepositStatus (deposit_reference now (ru_id user)) success
                           amt)),
                 db2)
           /\ getBalance (ru_id user) clock' random' db2
              = (inr (mkBalanceResult (num_add (balance X) (num_div kobo 100))
                        (walletNumber X)), db2).
Proof.
  unfold Rounded.controller_deposit, bind at 1.
  destruct (Rounded.initiateDeposit this (ru_id user) amt (ru_email user) clock random
              now gateway db) as [[e|res] db0] eqn:Hdep; [discriminate|].
  unfold ret. intros E. injection E as _ <-.
  destruct (rounded_initiateDeposit_returns _ _ _ _ _ _ _ _ _ _ _ Hdep)
    as (response & X & _ & HX & _ & Hrow).
  exists X. split; [exact HX|]. split.
  - unfold paystackCallback. rewrite deposit_reference_not_empty.
    unfold verifyDepositStatus, bind, transaction_findUnique, ret.
    rewrite Hrow. reflexivity.
  - intros kobo g now' clock' random'.
    destruct (rounded_handleWebhook_credits
                (mkWebhookData (deposit_reference now (ru_id user)) kobo "success" g)
                now' db0 _ X eq_refl Hrow eq_refl HX)
      as (ws & ts & Hweb & HX' & Hrow').
    exists (mkDB ws ts). split; [exact Hweb|]. split.
    + unfold paystackCallback. rewrite deposit_reference_not_empty.
      unfold verifyDepositStatus, bind, transaction_findUnique, ret.
      cbn [transactions wd_reference] in *. rewrite Hrow'. reflexivity.
    + unfold getBalance, getOrCreateWallet, bind, wallet_findUnique, ret.
      cbn [wallets tx_userId] in *. rewrite HX'. reflexivity.
Qed.

Lemma deposit_lifecycle_witness :
  exists db2 b,
    Rounded.handleWebhook (P := demo_platform) (A := binary64) "charge.success"
      (mkWebhookData "dep_1000_u1" 500000 "success" None) 2000
      (snd binary64_deposit_call)
    = (inr (mkWebhookResult true None), db2)
    /\ paystackCallback (Some "dep_1000_u1") db2
       = (inr (buildSuccessResponse "Payment processed"
                 (mkDepositStatus "dep_1000_u1" success 5000)), db2)
    /\ getBalance "u1" demo_clock demo_random db2
       = (inr (mkBalanceResult b "000000012307"), db2)
    /\ b == 5000.
Proof.
  destruct (deposit_lifecycle (P := demo_platform) (A := binary64) demo_service
              demo_user 5000 demo_clock demo_random 1000 answering_gateway empty_db
              (snd binary64_deposit_call)
              (buildSuccessResponse "Deposit initiated successfully"
                 (mkDepositResult "dep_1000_u1" "https://checkout.example/x"))
              eq_refl)
    as (X & HX & _ & Hnext).
  vm_compute in HX. injection HX as <-.
  destruct (Hnext 500000 None 2000%N demo_clock demo_random) as (db2 & H1 & H2 & H3).
  eexists db2, _. split; [exact H1|]. split; [exact H2|]. split; [exact H3|].
  vm_compute. reflexivity.
Defined.
